(** * Bubble geometry and text layout engine

    A shallow embedding of the bubble editor's geometry and text-fitting
    code: [generateBubblePaths] and [getOverallBbox] (bubbleUtils),
    [parseRichText] and the line-wrapping and drawing loops of
    [drawRichText] (the canvas text renderer), [getTextBounds],
    [measureText], [calculateOptimalFontSize], [detectTextOverflow] and
    [autoFitBubbleText] (textAutoFit.ts), and [handleMouseMove] and
    [handleTextBlur] (BubbleItem.tsx).

    Numbers.  The source computes with JavaScript numbers.  They are
    modelled here by exact rationals [Q]: every finite input is a rational,
    and [+], [-], [*], [/], [Math.min], [Math.max] and the comparisons are
    the exact ones.  NaN and the infinities are outside the model, with one
    exception: [Math.max()] of an empty argument list, which the source can
    produce in [measureText], is modelled by [NegInfinity] of type [xnum].
    A division by zero, which JavaScript answers with an infinity or NaN
    and [Q] with 0, can only occur in [scaleFactor], for a bubble of font
    size 0.  [===] on numbers is [Qeq_bool]; [a || b] on numbers is [jsOr].
    Strings are strings of 8-bit characters, and the white space of the
    regular expressions is the ASCII white space.

    Rounding.  The source rounds the result of every operation to a binary
    floating-point number; the model does not.  Minima, maxima and
    comparisons are not affected, and rounding keeps the order of the
    values.  A property that needs a sum or a difference to be exact is
    stated for whole numbers of at most 2^50 in absolute value, on which
    the operations of the source are exact.

    Host functions.  [`${x}`] (Number::toString), [Math.cos], [Math.sin] and
    [Math.PI] belong to the JavaScript host, and the canvas text metrics to
    the browser; they are parameters of the sections below. *)

From Stdlib Require Import QArith Qminmax ZArith List String Ascii Bool Lia Lqa.
From Stdlib Require Import DecimalString Permutation.
Import ListNotations.

Open Scope string_scope.
Open Scope Q_scope.

(** ** JavaScript numbers and strings *)

Module JS.

(** [a || b] on numbers: [b] when [a] is falsy, that is [0]. *)
Definition jsOr (a b : Q) : Q := if Qeq_bool a 0 then b else a.

(** [a > b], [a >= b] and [a <= b] as the source writes them. *)
Definition gt (a b : Q) : bool := negb (Qle_bool a b).
Definition ge (a b : Q) : bool := Qle_bool b a.
Definition le (a b : Q) : bool := Qle_bool a b.

(** A string is truthy when it is not empty. *)
Definition truthy (s : string) : bool :=
  match s with EmptyString => false | String _ _ => true end.

(** The ASCII part of the regular expression class [\s]. *)
Definition isSpace (c : ascii) : bool :=
  let n := nat_of_ascii c in
  ((n =? 32) || (n =? 9) || (n =? 10) || (n =? 11) || (n =? 12) || (n =? 13))%nat.

(** [s.split(/\s+/)]: the pieces between maximal runs of white space; a
    leading or trailing run leaves an empty piece, and the empty string
    splits into one empty piece. *)
Fixpoint splitWsFrom (s cur : string) (inSep : bool) : list string :=
  match s with
  | EmptyString => [cur]
  | String c rest =>
      if isSpace c
      then if inSep then splitWsFrom rest "" true
           else cur :: splitWsFrom rest "" true
      else splitWsFrom rest (cur ++ String c "") false
  end.

Definition splitWs (s : string) : list string := splitWsFrom s "" false.

(** [s.replace(/<[^>]*>/g, '')].  [pending] holds the characters read
    since an opening [<] that has not met its [>] yet; at the end of the
    string such an unfinished tag is kept as it is. *)
Fixpoint stripTagsFrom (s : string) (pending : option string) : string :=
  match s, pending with
  | EmptyString, None => ""
  | EmptyString, Some buf => String "<" buf
  | String c rest, None =>
      if Ascii.eqb c "<" then stripTagsFrom rest (Some "")
      else String c (stripTagsFrom rest None)
  | String c rest, Some buf =>
      if Ascii.eqb c ">" then stripTagsFrom rest None
      else stripTagsFrom rest (Some (buf ++ String c ""))
  end.

Definition stripTags (s : string) : string := stripTagsFrom s None.

(** [s.trim()] is truthy when [s] has a character that is not white
    space. *)
Fixpoint trimTruthy (s : string) : bool :=
  match s with
  | EmptyString => false
  | String c rest => negb (isSpace c) || trimTruthy rest
  end.

(** [html.split(/<br\s*\/?>/gi)], as an automaton.  [BrNone]: no tag in
    progress; [BrLt], [BrB]: after [<], [<b]; [BrR]: after [<br] and any
    white space; [BrSlash]: after the optional [/].  [buf] is the text of
    the tag in progress, put back in the piece when the match fails. *)
Inductive BrState := BrNone | BrLt | BrB | BrR | BrSlash.

Definition isLetter (lower upper c : ascii) : bool :=
  Ascii.eqb c lower || Ascii.eqb c upper.

Fixpoint splitBrFrom (s piece buf : string) (st : BrState) : list string :=
  match s with
  | EmptyString => [piece ++ buf]
  | String c rest =>
      let restart :=
        if Ascii.eqb c "<"
        then splitBrFrom rest (piece ++ buf) (String c "") BrLt
        else splitBrFrom rest (piece ++ buf ++ String c "") "" BrNone in
      let continue st' := splitBrFrom rest piece (buf ++ String c "") st' in
      match st with
      | BrNone => restart
      | BrLt => if isLetter "b" "B" c then continue BrB else restart
      | BrB => if isLetter "r" "R" c then continue BrR else restart
      | BrR =>
          if isSpace c then continue BrR
          else if Ascii.eqb c "/" then continue BrSlash
          else if Ascii.eqb c ">" then piece :: splitBrFrom rest "" "" BrNone
          else restart
      | BrSlash =>
          if Ascii.eqb c ">" then piece :: splitBrFrom rest "" "" BrNone
          else restart
      end
  end.

Definition splitBr (html : string) : list string :=
  splitBrFrom html "" "" BrNone.

(** A concrete Number::toString for the examples: the decimal expansion
    of a rational, exact when it is finite (integers, halves, tenths, ...),
    cut after twenty fractional digits otherwise. *)
Fixpoint fracDigits (fuel : nat) (num den : Z) : string :=
  match fuel with
  | O => ""
  | S fuel' =>
      if (num =? 0)%Z then ""
      else NilZero.string_of_uint (N.to_uint (Z.to_N (num * 10 / den)))
             ++ fracDigits fuel' ((num * 10) mod den) den
  end.

Definition showQ (q : Q) : string :=
  let n := Qnum q in
  let d := Zpos (Qden q) in
  let a := Z.abs n in
  let sign := if (n <? 0)%Z then "-" else "" in
  let whole := NilZero.string_of_uint (N.to_uint (Z.to_N (a / d))) in
  let frac := fracDigits 20 (a mod d) d in
  sign ++ whole ++ (if truthy frac then "." ++ frac else "").

End JS.

(** ** Data model *)

(** Modelled from the spec: the enumeration [BubbleType] of [types.ts],
    which the sources import and section 3 of the specification lists. *)
Inductive BubbleType :=
| SpeechDown | SpeechUp | SpeechDownMinimal | SpeechUpMinimal
| Whisper | Thought | Shout | Descriptive | TextOnly.

Definition BubbleType_eqb (a b : BubbleType) : bool :=
  match a, b with
  | SpeechDown, SpeechDown | SpeechUp, SpeechUp
  | SpeechDownMinimal, SpeechDownMinimal | SpeechUpMinimal, SpeechUpMinimal
  | Whisper, Whisper | Thought, Thought | Shout, Shout
  | Descriptive, Descriptive | TextOnly, TextOnly => true
  | _, _ => false
  end.

(** Modelled from the spec: [SpeechTailPart] of [types.ts], the foot of the
    tail (centre and width) and its tip. *)
Record SpeechTailPart := {
  baseCX : Q; baseCY : Q; baseWidth : Q; tipX : Q; tipY : Q
}.

(** Modelled from the spec: [ThoughtDotPart] of [types.ts], the centre of
    the dot and its diameter. *)
Record ThoughtDotPart := {
  offsetX : Q; offsetY : Q; size : Q
}.

(** Modelled from the spec: [BubblePart] of [types.ts].  A part is
    dispatched on its [type] tag, ['speech-tail'] or ['thought-dot']; both
    carry an [id]. *)
Inductive BubblePart :=
| SpeechTail (id : string) (tail : SpeechTailPart)
| ThoughtDot (id : string) (dot : ThoughtDotPart).

(** Modelled from the spec: [Bubble] of [types.ts]. *)
Record Bubble := {
  id : string;
  type : BubbleType;
  x : Q; y : Q;
  width : Q; height : Q;
  zIndex : Z;
  fontFamily : string;
  fontSize : Q;
  textColor : string;
  borderColor : string;
  text : string;
  parts : list BubblePart
}.

(** [{ ...bubble, fontSize: v }] *)
Definition withFontSize (b : Bubble) (v : Q) : Bubble :=
  {| id := id b; type := type b; x := x b; y := y b;
     width := width b; height := height b; zIndex := zIndex b;
     fontFamily := fontFamily b; fontSize := v;
     textColor := textColor b; borderColor := borderColor b;
     text := text b; parts := parts b |}.

Record Circle := { c_id : string; cx : Q; cy : Q; r : Q }.

Record BubblePaths := {
  bodyPath : string;
  partsCircles : list Circle
}.

Record Rect := { rx : Q; ry : Q; rwidth : Q; rheight : Q }.


(** The JavaScript host: [`${x}`] on a number, [Math.cos], [Math.sin] and
    [Math.PI]. *)
Record Host := {
  numberToString : Q -> string;
  Math_cos : Q -> Q;
  Math_sin : Q -> Q;
  Math_PI : Q
}.

(** ** bubbleUtils: the outline and the bounding box *)

Module BubbleUtils.

(** [parts.find((p) => p.type === 'speech-tail')] *)
Fixpoint findSpeechTail (ps : list BubblePart) : option SpeechTailPart :=
  match ps with
  | [] => None
  | SpeechTail _ t :: _ => Some t
  | ThoughtDot _ _ :: rest => findSpeechTail rest
  end.

(** The corner radius [r] chosen at the top of [generateBubblePaths]. *)
Definition cornerRadius (b : Bubble) : Q :=
  match type b with
  | SpeechDown | SpeechUp | Whisper => Qmin (width b) (height b) / 2
  | Descriptive => 5
  | _ => 20
  end.

Definition clampedBaseCX (w : Q) (t : SpeechTailPart) : Q :=
  Qmax 0 (Qmin w (baseCX t)).
Definition clampedBaseCY (h : Q) (t : SpeechTailPart) : Q :=
  Qmax 0 (Qmin h (baseCY t)).

(** [leftBaseX] and [rightBaseX]: the two ends of the tail's foot. *)
Definition leftBaseX (w r : Q) (t : SpeechTailPart) : Q :=
  Qmax r (clampedBaseCX w t - baseWidth t / 2).
Definition rightBaseX (w r : Q) (t : SpeechTailPart) : Q :=
  Qmin (w - r) (clampedBaseCX w t + baseWidth t / 2).

Section Paths.
Variable host : Host.
Let S := numberToString host.

(** The closure [createTailPath] with the variables it captures. *)
Definition createTailPath (h : Q) (t : SpeechTailPart)
           (startPt endPt : Q * Q) : string :=
  let midY := clampedBaseCY h t + (tipY t - clampedBaseCY h t) * 0.5 in
  "L " ++ S (fst startPt) ++ "," ++ S (snd startPt)
    ++ " Q " ++ S (fst startPt) ++ " " ++ S (tipX t - fst startPt)
    ++ " 0.25," ++ S midY ++ " " ++ S (tipX t) ++ "," ++ S (tipY t)
    ++ " Q " ++ S (fst endPt) ++ " " ++ S (tipX t - fst endPt)
    ++ " 0.25," ++ S midY ++ " " ++ S (fst endPt) ++ "," ++ S (snd endPt).

(** The outline when the tail's foot is on the bottom edge. *)
Definition bottomTailPath (w h r : Q) (t : SpeechTailPart) : string :=
  let leftBaseX := leftBaseX w r t in
  let rightBaseX := rightBaseX w r t in
  "M " ++ S r ++ ",0 L " ++ S (w - r) ++ ",0 A " ++ S r ++ "," ++ S r
    ++ " 0 0 1 " ++ S w ++ "," ++ S r ++ " L " ++ S w ++ "," ++ S (h - r)
    ++ " A " ++ S r ++ "," ++ S r ++ " 0 0 1 " ++ S (w - r) ++ "," ++ S h
    ++ " L " ++ S rightBaseX ++ "," ++ S h ++ " "
    ++ createTailPath h t (rightBaseX, h) (leftBaseX, h)
    ++ " L " ++ S r ++ "," ++ S h ++ " A " ++ S r ++ "," ++ S r
    ++ " 0 0 1 0," ++ S (h - r) ++ " L 0," ++ S r ++ " A " ++ S r ++ ","
    ++ S r ++ " 0 0 1 " ++ S r ++ ",0 Z".

(** The outline when the tail's foot is on the top edge. *)
Definition topTailPath (w h r : Q) (t : SpeechTailPart) : string :=
  let leftBaseX := leftBaseX w r t in
  let rightBaseX := rightBaseX w r t in
  "M " ++ S r ++ ",0 L " ++ S leftBaseX ++ ",0 "
    ++ createTailPath h t (leftBaseX, 0) (rightBaseX, 0)
    ++ " L " ++ S (w - r) ++ ",0 A " ++ S r ++ "," ++ S r ++ " 0 0 1 "
    ++ S w ++ "," ++ S r ++ " L " ++ S w ++ "," ++ S (h - r) ++ " A "
    ++ S r ++ "," ++ S r ++ " 0 0 1 " ++ S (w - r) ++ "," ++ S h
    ++ " L " ++ S r ++ "," ++ S h ++ " A " ++ S r ++ "," ++ S r
    ++ " 0 0 1 0," ++ S (h - r) ++ " L 0," ++ S r ++ " A " ++ S r ++ ","
    ++ S r ++ " 0 0 1 " ++ S r ++ ",0 Z".

(** The plain rounded rectangle of the last branch. *)
Definition roundedRectPath (w h r : Q) : string :=
  "M " ++ S r ++ ",0 L " ++ S (w - r) ++ ",0 A " ++ S r ++ "," ++ S r
    ++ " 0 0 1 " ++ S w ++ "," ++ S r ++ " L " ++ S w ++ "," ++ S (h - r)
    ++ " A " ++ S r ++ "," ++ S r ++ " 0 0 1 " ++ S (w - r) ++ "," ++ S h
    ++ " L " ++ S r ++ "," ++ S h ++ " A " ++ S r ++ "," ++ S r
    ++ " 0 0 1 0," ++ S (h - r) ++ " L 0," ++ S r ++ " A " ++ S r ++ ","
    ++ S r ++ " 0 0 1 " ++ S r ++ ",0 Z".

(** One turn of the Thought loop, for lobe [i]. *)
Definition thoughtLobe (w h : Q) (path : string) (i : nat) : string :=
  let cx := w / 2 in
  let cy := h / 2 in
  let rx := w * 0.3 in
  let ry := h * 0.3 in
  let lobes := 9 in
  let pi := Math_PI host in
  let angle := (inject_Z (Z.of_nat i) / lobes) * pi * 2 - pi / 2 in
  let nextAngle := ((inject_Z (Z.of_nat i) + 1) / lobes) * pi * 2 - pi / 2 in
  let x1 := cx + rx * Math_cos host angle in
  let y1 := cy + ry * Math_sin host angle in
  let x2 := cx + rx * Math_cos host nextAngle in
  let y2 := cy + ry * Math_sin host nextAngle in
  let path := if Nat.eqb i 0 then "M " ++ S x1 ++ "," ++ S y1 else path in
  let midAngle := (angle + nextAngle) / 2 in
  let bulgeFactor := 1.4 in
  let cpx := cx + rx * bulgeFactor * Math_cos host midAngle in
  let cpy := cy + ry * bulgeFactor * Math_sin host midAngle in
  path ++ " Q " ++ S cpx ++ "," ++ S cpy ++ " " ++ S x2 ++ "," ++ S y2.

(** One turn of the Shout loop, for point [i]. *)
Definition shoutPoint (w h : Q) (path : string) (i : nat) : string :=
  let points := 14 in
  let cx := w / 2 in
  let cy := h / 2 in
  let outerRx := w / 2 in
  let outerRy := h / 2 in
  let innerRx := w / 3.5 in
  let innerRy := h / 3.5 in
  let pi := Math_PI host in
  let angle := (inject_Z (Z.of_nat i) / (points * 2)) * pi * 2 - pi / 2 in
  let isOuter := Nat.eqb (i mod 2) 0 in
  let currRx := if isOuter then outerRx else innerRx in
  let currRy := if isOuter then outerRy else innerRy in
  let px := cx + currRx * Math_cos host angle in
  let py := cy + currRy * Math_sin host angle in
  path ++ (if Nat.eqb i 0 then "M " ++ S px ++ "," ++ S py
           else " L " ++ S px ++ "," ++ S py).

(** The circle pushed for a part in the Thought branch, if any. *)
Definition thoughtCircle (p : BubblePart) : list Circle :=
  match p with
  | ThoughtDot i d =>
      [{| c_id := i; cx := offsetX d; cy := offsetY d; r := size d / 2 |}]
  | SpeechTail _ _ => []
  end.

Definition generateBubblePaths (bubble : Bubble) : BubblePaths :=
  let w := width bubble in
  let h := height bubble in
  let r := cornerRadius bubble in
  match type bubble with
  | SpeechDown | SpeechUp | Whisper =>
      match findSpeechTail (parts bubble) with
      | Some tail =>
          if Qeq_bool (clampedBaseCY h tail) h
          then {| bodyPath := bottomTailPath w h r tail; partsCircles := [] |}
          else if Qeq_bool (clampedBaseCY h tail) 0
          then {| bodyPath := topTailPath w h r tail; partsCircles := [] |}
          else {| bodyPath := ""; partsCircles := [] |}
      | None => {| bodyPath := ""; partsCircles := [] |}
      end
  | Thought =>
      {| bodyPath := fold_left (thoughtLobe w h) (seq 0 9) "" ++ " Z";
         partsCircles := flat_map thoughtCircle (parts bubble) |}
  | Shout =>
      {| bodyPath := fold_left (shoutPoint w h) (seq 0 (14 * 2)) "" ++ " Z";
         partsCircles := [] |}
  | _ =>
      {| bodyPath := roundedRectPath w h r; partsCircles := [] |}
  end.
End Paths.

(** The running extent [(minX, minY, maxX, maxY)] of [getOverallBbox],
    after one part. *)
Definition Extent : Type := Q * Q * Q * Q.

Definition extendBy (e : Extent) (part : BubblePart) : Extent :=
  let '(minX, minY, maxX, maxY) := e in
  match part with
  | SpeechTail _ tailPart =>
      (Qmin minX (tipX tailPart), Qmin minY (tipY tailPart),
       Qmax maxX (tipX tailPart), Qmax maxY (tipY tailPart))
  | ThoughtDot _ dotPart =>
      (Qmin minX (offsetX dotPart - size dotPart / 2),
       Qmin minY (offsetY dotPart - size dotPart / 2),
       Qmax maxX (offsetX dotPart + size dotPart / 2),
       Qmax maxY (offsetY dotPart + size dotPart / 2))
  end.

Definition extent (bubble : Bubble) : Extent :=
  fold_left extendBy (parts bubble) (0, 0, width bubble, height bubble).

Definition getOverallBbox (bubble : Bubble) : Rect :=
  let '(minX, minY, maxX, maxY) := extent bubble in
  let padding := 10 in
  {| rx := minX - padding;
     ry := minY - padding;
     rwidth := maxX + padding - minX;
     rheight := maxY + padding - minY |}.

End BubbleUtils.

(** The canvas 2D context as a metrics oracle: [ctx.font = font] followed
    by [ctx.measureText(s).width]. *)
Definition Canvas : Type := string -> string -> Q.

(** ** The rich text renderer: parsing and line wrapping *)

Module RichText.

Record TextStyle := {
  ts_fontFamily : string;
  ts_fontSize : Q;
  ts_textColor : string;
  isBold : bool;
  isItalic : bool;
  isUnderline : bool;
  isStrikethrough : bool
}.

Record TextSegment := {
  seg_text : string;
  seg_style : TextStyle;
  seg_width : Q;
  seg_height : Q
}.

Record TextLine := {
  segments : list TextSegment;
  line_width : Q;
  line_height : Q
}.

(** The text ['\n'] of a forced line break. *)
Definition newline : string := String (ascii_of_nat 10) "".

Definition rawSegment (t : string) (defaultStyle : TextStyle) : TextSegment :=
  {| seg_text := t; seg_style := defaultStyle; seg_width := 0; seg_height := 0 |}.

(** The body of the loop of [parseRichText]; [rest = []] is
    [lineIdx = lines.length - 1]. *)
Fixpoint parseLines (lines : list string) (defaultStyle : TextStyle)
  : list TextSegment :=
  match lines with
  | [] => []
  | lineHtml :: rest =>
      (if JS.trimTruthy lineHtml
       then let plainText := JS.stripTags lineHtml in
            if JS.truthy plainText then [rawSegment plainText defaultStyle]
            else []
       else [])
      ++ (match rest with
          | [] => []
          | _ :: _ => [rawSegment newline defaultStyle]
          end)
      ++ parseLines rest defaultStyle
  end.

Definition parseRichText (html : string) (defaultStyle : TextStyle)
  : list TextSegment :=
  parseLines (JS.splitBr html) defaultStyle.

(** [getLineHeightOffset], on the integer sizes the source compares with. *)
Definition getLineHeightOffset (size : Q) : Q :=
  if JS.ge size 15 && JS.le size 20 then 6
  else if JS.ge size 21 && JS.le size 25 then 4
  else if JS.ge size 26 && JS.le size 30 then 1
  else if JS.ge size 31 && JS.le size 35 then -1
  else if JS.ge size 36 && JS.le size 40 then -3
  else 6.

Fixpoint includesComma (s : string) : bool :=
  match s with
  | EmptyString => false
  | String c rest => Ascii.eqb c "," || includesComma rest
  end.

Section Draw.
Variable host : Host.
Variable ctx : Canvas.
Variable fontMap : string -> option string.
Variable defaultStyle : TextStyle.
Variable width : Q.
Variable getMaxWidthAtY : option (Q -> Q).

(** The font string assembled for a segment. *)
Definition fontString (st : TextStyle) : string :=
  let fontName :=
    match fontMap (ts_fontFamily st) with
    | Some v => if JS.truthy v then v else ts_fontFamily st
    | None => ts_fontFamily st
    end in
  let fontName :=
    if includesComma fontName then fontName else fontName ++ ", Arial" in
  (if isItalic st then "italic " else "")
    ++ (if isBold st then "bold " else "")
    ++ numberToString host (ts_fontSize st) ++ "px " ++ fontName.

(** "Measure segments": one turn of the [forEach]; the pair is the
    segment after the turn and the value of [ctx.font] after it. *)
Definition measureSegment (font : string) (seg : TextSegment)
  : TextSegment * string :=
  if negb (JS.truthy (seg_text seg)) then (seg, font)
  else
    let fontStr := fontString (seg_style seg) in
    ({| seg_text := seg_text seg; seg_style := seg_style seg;
        seg_width := ctx fontStr (seg_text seg);
        seg_height := ts_fontSize (seg_style seg) |}, fontStr).

Fixpoint measureSegments (font : string) (segs : list TextSegment)
  : list TextSegment * string :=
  match segs with
  | [] => ([], font)
  | seg :: rest =>
      let '(seg', font') := measureSegment font seg in
      let '(rest', font'') := measureSegments font' rest in
      (seg' :: rest', font'')
  end.

(** The variables of the wrapping loop. *)
Record WrapState := {
  lines : list TextLine;
  currentLine : TextLine;
  currentY : Q
}.

Definition emptyLine : TextLine :=
  {| segments := []; line_width := 0; line_height := 0 |}.

Definition initialState : WrapState :=
  {| lines := []; currentLine := emptyLine; currentY := 0 |}.

(** The three statements that close a line, in the order of the source:
    [lines.push(currentLine)], then [currentLine] is replaced by a new
    empty line, then [currentY] is advanced by
    [currentLine.height || defaultStyle.fontSize], read from the new
    [currentLine]. *)
Definition closeLine (st : WrapState) : WrapState :=
  let lines' := (lines st ++ [currentLine st])%list in
  let currentLine' := emptyLine in
  {| lines := lines';
     currentLine := currentLine';
     currentY := currentY st
                 + JS.jsOr (line_height currentLine') (ts_fontSize defaultStyle) |}.

(** The body of the inner loop, for one word of segment [seg]; [font] is
    the value of [ctx.font] left by the measuring pass. *)
Definition placeWord (font : string) (seg : TextSegment)
           (st : WrapState) (word : string) : WrapState :=
  let wordWidth := ctx font (word ++ " ") in
  let maxLineWidth :=
    match getMaxWidthAtY with
    | Some f => f (currentY st)
    | None => width
    end in
  let st :=
    if JS.gt (line_width (currentLine st) + wordWidth) maxLineWidth
       && (0 <? List.length (segments (currentLine st)))%nat
    then closeLine st else st in
  {| lines := lines st;
     currentLine :=
       {| segments := (segments (currentLine st)
                        ++ [{| seg_text := word; seg_style := seg_style seg;
                               seg_width := wordWidth;
                               seg_height := seg_height seg |}])%list;
          line_width := line_width (currentLine st) + wordWidth;
          line_height := Qmax (line_height (currentLine st)) (seg_height seg) |};
     currentY := currentY st |}.

(** How the wrapping loop ends: it runs through every segment, or the
    [return] of the forced-break branch leaves [drawRichText] from
    inside the loop, with the state it had reached. *)
Inductive LoopEnd :=
| Finished (st : WrapState)
| Returned (st : WrapState).

Fixpoint wrapLoop (font : string) (segs : list TextSegment) (st : WrapState)
  : LoopEnd :=
  match segs with
  | [] => Finished st
  | seg :: rest =>
      if String.eqb (seg_text seg) newline
      then Returned (closeLine st)
      else wrapLoop font rest
             (fold_left (placeWord font seg) (JS.splitWs (seg_text seg)) st)
  end.

(** What the wrapping step hands to the drawing step: the lines, or
    nothing when the function has returned before reaching it. *)
Inductive Layout :=
| Laid (ls : list TextLine)
| Abandoned (st : WrapState).

Definition wrapLines (font : string) (segs : list TextSegment) : Layout :=
  match wrapLoop font segs initialState with
  | Finished st =>
      Laid (if (0 <? List.length (segments (currentLine st)))%nat
            then (lines st ++ [currentLine st])%list else lines st)
  | Returned st => Abandoned st
  end.

(** [drawRichText] up to the drawing step: parse, measure, wrap.
    [font0] is the value of [ctx.font] on entry. *)
Definition drawRichText_layout (font0 : string) (html : string) : Layout :=
  let '(segs, font) := measureSegments font0 (parseRichText html defaultStyle) in
  wrapLines font segs.

(** [lines.reduce((acc, line) => acc + line.height, 0)] *)
Definition totalHeight (ls : list TextLine) : Q :=
  fold_left (fun acc line => acc + line_height line) ls 0.

End Draw.

(** The words of the lines, in order. *)
Definition lineWords (l : TextLine) : list string :=
  map seg_text (segments l).
Definition wordsOfLines (ls : list TextLine) : list string :=
  flat_map lineWords ls.

(** The words of a segment sequence, in order, forced breaks ignored. *)
Definition wordsOfSegments (segs : list TextSegment) : list string :=
  flat_map (fun seg => if String.eqb (seg_text seg) newline then []
                       else JS.splitWs (seg_text seg)) segs.

End RichText.

(** ** textAutoFit: the safe text zone and the font-size search *)

Module TextAutoFit.

Record Zone := { widthFactor : Q; heightFactor : Q }.

Definition SAFE_TEXT_ZONES (t : BubbleType) : Zone :=
  match t with
  | Shout => {| widthFactor := 0.5; heightFactor := 0.55 |}
  | Thought => {| widthFactor := 0.5; heightFactor := 0.65 |}
  | SpeechDown => {| widthFactor := 0.83; heightFactor := 0.83 |}
  | SpeechUp => {| widthFactor := 0.83; heightFactor := 0.83 |}
  | SpeechDownMinimal => {| widthFactor := 0.83; heightFactor := 0.83 |}
  | SpeechUpMinimal => {| widthFactor := 0.83; heightFactor := 0.83 |}
  | Whisper => {| widthFactor := 0.8; heightFactor := 0.8 |}
  | Descriptive => {| widthFactor := 0.9; heightFactor := 0.85 |}
  | TextOnly => {| widthFactor := 0.95; heightFactor := 0.9 |}
  end.

(** The rectangle [{ width, height, x, y }] returned by [getTextBounds]. *)
Definition getTextBounds (bubble : Bubble) : Rect :=
  match type bubble with
  | Shout | Thought =>
      let safeZone := SAFE_TEXT_ZONES (type bubble) in
      let textWidth := width bubble * widthFactor safeZone in
      let textHeight := height bubble * heightFactor safeZone in
      {| rx := (width bubble - textWidth) / 2;
         ry := (height bubble - textHeight) / 2;
         rwidth := textWidth; rheight := textHeight |}
  | _ =>
      let padding := 10 in
      {| rx := padding; ry := padding;
         rwidth := width bubble - padding * 2;
         rheight := height bubble - padding * 2 |}
  end.

(** A number that may be [-Infinity], the value of [Math.max()]. *)
Inductive xnum := NegInfinity | Num (q : Q).

(** [Math.max(a, b)] and [a <= b], [a > b] with [a] possibly [-Infinity]. *)
Definition xmax (a : xnum) (b : Q) : xnum :=
  match a with NegInfinity => Num b | Num q => Num (Qmax q b) end.
Definition xle (a : xnum) (b : Q) : bool :=
  match a with NegInfinity => true | Num q => Qle_bool q b end.
Definition xgt (a : xnum) (b : Q) : bool := negb (xle a b).

(** [Math.max(...ws)] *)
Definition maxOf (ws : list Q) : xnum := fold_left xmax ws NegInfinity.

Record Dimensions := { d_width : xnum; d_height : Q; d_lines : nat }.

Record TextFitResult := {
  fit_fontSize : Q;
  textWidth : xnum;
  textHeight : Q;
  fits : bool;
  scaleFactor : Q
}.

(** The body of the loop of [measureText]; the state is [lines] and
    [currentLine], and [measure s] is [ctx.measureText(s).width] under the
    font set before the loop. *)
Definition testLine (currentLine word : string) : string :=
  if JS.truthy currentLine then currentLine ++ " " ++ word else word.

Definition addWord (measure : string -> Q) (maxWidth : Q)
           (st : list string * string) (word : string) : list string * string :=
  let '(lines, currentLine) := st in
  let testLine := testLine currentLine word in
  if JS.gt (measure testLine) maxWidth
  then ((if JS.truthy currentLine then (lines ++ [currentLine])%list else lines),
        word)
  else (lines, testLine).

(** [lines] after the final [if (currentLine) lines.push(currentLine)]. *)
Definition flush (st : list string * string) : list string :=
  let '(lines, currentLine) := st in
  if JS.truthy currentLine then (lines ++ [currentLine])%list else lines.

Definition wrapWords (measure : string -> Q) (maxWidth : Q)
           (words : list string) : list string :=
  flush (fold_left (addWord measure maxWidth) words ([], "")).

Section Fit.
Variable host : Host.
(** [document.createElement('canvas').getContext('2d')], which may be
    [null]. *)
Variable getContext : option Canvas.

Definition measureText (text fontFamily : string) (fontSize maxWidth : Q)
  : Dimensions :=
  match getContext with
  | None =>
      {| d_width := Num maxWidth; d_height := fontSize * 1.4; d_lines := 1 |}
  | Some ctx =>
      let font := numberToString host fontSize ++ "px " ++ fontFamily in
      let plainText := JS.stripTags text in
      let words := JS.splitWs plainText in
      let lines := wrapWords (ctx font) maxWidth words in
      let lineHeight := fontSize * 1.4 in
      let totalHeight := inject_Z (Z.of_nat (List.length lines)) * lineHeight in
      let maxLineWidth := maxOf (map (ctx font) lines) in
      {| d_width := maxLineWidth; d_height := totalHeight;
         d_lines := List.length lines |}
  end.

(** The test of the search loop: the block fits the bounds. *)
Definition fitsBounds (dimensions : Dimensions) (textBounds : Rect) : bool :=
  JS.le (d_height dimensions) (rheight textBounds)
  && xle (d_width dimensions) (rwidth textBounds).

(** The [while] loop of [calculateOptimalFontSize].  [remaining] is
    [maxIterations - iterations]; the result is [Some] for the [return]
    inside the loop and [None] when the loop is left. *)
Fixpoint searchLoop (text fontFamily : string) (textBounds : Rect)
         (targetFontSize minFontSize : Q)
         (remaining : nat) (fontSize : Q) : option TextFitResult :=
  match remaining with
  | O => None
  | S remaining' =>
      if JS.ge fontSize minFontSize then
        let dimensions :=
          measureText text fontFamily fontSize (rwidth textBounds) in
        if fitsBounds dimensions textBounds
        then Some {| fit_fontSize := fontSize;
                     textWidth := d_width dimensions;
                     textHeight := d_height dimensions;
                     fits := true;
                     scaleFactor := fontSize / targetFontSize |}
        else searchLoop text fontFamily textBounds targetFontSize minFontSize
               remaining' (Qmax minFontSize (fontSize - 1))
      else None
  end.

Definition maxIterations : nat := 20.

Definition calculateOptimalFontSize (text : string) (bubble : Bubble)
           (fontFamily : string) (minFontSize maxFontSize : Q)
  : TextFitResult :=
  let textBounds := getTextBounds bubble in
  let targetFontSize := fontSize bubble in
  let fontSize := Qmin targetFontSize maxFontSize in
  match searchLoop text fontFamily textBounds targetFontSize minFontSize
          maxIterations fontSize with
  | Some result => result
  | None =>
      let dimensions :=
        measureText text fontFamily minFontSize (rwidth textBounds) in
      {| fit_fontSize := minFontSize;
         textWidth := d_width dimensions;
         textHeight := d_height dimensions;
         fits := JS.le (d_height dimensions) (rheight textBounds);
         scaleFactor := minFontSize / targetFontSize |}
  end.

Definition detectTextOverflow (text : string) (bubble : Bubble)
           (fontFamily : string) : bool :=
  let textBounds := getTextBounds bubble in
  let dimensions :=
    measureText text fontFamily (fontSize bubble) (rwidth textBounds) in
  JS.gt (d_height dimensions) (rheight textBounds)
  || xgt (d_width dimensions) (rwidth textBounds).

(** The default arguments [minFontSize = 8] and [maxFontSize = 40]. *)
Definition defaultMinFontSize : Q := 8.
Definition defaultMaxFontSize : Q := 40.

(** The test that makes [autoFitBubbleText] return its argument at
    once. *)
Definition skipsAutoFit (bubble : Bubble) : bool :=
  BubbleType_eqb (type bubble) TextOnly
  || negb (JS.truthy (text bubble))
  || String.eqb (text bubble) "Votre texte ici".

(** Bubbles are objects: a store of objects, references into it, and
    [{ ...bubble, fontSize }] as the allocation of a new object. *)
Definition Store : Type := list Bubble.
Definition Ref : Type := nat.
Definition deref (sigma : Store) (l : Ref) : option Bubble := nth_error sigma l.
Definition alloc (sigma : Store) (b : Bubble) : Store * Ref :=
  ((sigma ++ [b])%list, List.length sigma).

(** [autoFitBubbleText] on a reference to a bubble: the store after the
    call and the reference returned.  [None] only for a reference to no
    object, which a caller cannot hold. *)
Definition autoFitBubbleText (sigma : Store) (bubble : Ref)
           (fontFamily : string) : option (Store * Ref) :=
  match deref sigma bubble with
  | None => None
  | Some b =>
      if skipsAutoFit b then Some (sigma, bubble)
      else
        let result :=
          calculateOptimalFontSize (text b) b fontFamily
            defaultMinFontSize defaultMaxFontSize in
        if Qeq_bool (fit_fontSize result) (fontSize b)
        then Some (sigma, bubble)
        else Some (alloc sigma (withFontSize b (fit_fontSize result)))
  end.

(** The bubble that the returned reference denotes, as a function of
    the bubble that the argument denotes. *)
Definition autoFitted (b : Bubble) (fontFamily : string) : Bubble :=
  if skipsAutoFit b then b
  else
    let result :=
      calculateOptimalFontSize (text b) b fontFamily
        defaultMinFontSize defaultMaxFontSize in
    if Qeq_bool (fit_fontSize result) (fontSize b) then b
    else withFontSize b (fit_fontSize result).

End Fit.

End TextAutoFit.

(** ** The syntax of path strings

    The well-formedness that the specification asks of an outline: a
    sequence of the commands [M x,y], [L x,y], [Q cx,cy x,y],
    [A rx,ry rot largeArc sweep x,y] and [Z], the first an [M] and the last
    a [Z], each with its number of numeric arguments. *)

Module PathSyntax.

Definition isSeparator (c : ascii) : bool := JS.isSpace c || Ascii.eqb c ",".

(** The tokens of a path: maximal runs without white space or comma. *)
Fixpoint tokensFrom (s cur : string) : list string :=
  match s with
  | EmptyString => if JS.truthy cur then [cur] else []
  | String c rest =>
      if isSeparator c
      then if JS.truthy cur then cur :: tokensFrom rest "" else tokensFrom rest ""
      else tokensFrom rest (cur ++ String c "")
  end.

Definition tokens (s : string) : list string := tokensFrom s "".

Definition isDigit (c : ascii) : bool :=
  let n := nat_of_ascii c in ((48 <=? n) && (n <=? 57))%nat.

(** Digits with at most one decimal point, and at least one digit. *)
Fixpoint isUnsigned (s : string) (seenDot seenDigit : bool) : bool :=
  match s with
  | EmptyString => seenDigit
  | String c rest =>
      if isDigit c then isUnsigned rest seenDot true
      else if Ascii.eqb c "." then negb seenDot && isUnsigned rest true seenDigit
      else false
  end.

(** A plain decimal number, with an optional sign. *)
Definition isNumber (s : string) : bool :=
  match s with
  | String c rest =>
      if Ascii.eqb c "-" then isUnsigned rest false false
      else isUnsigned s false false
  | EmptyString => false
  end.

(** The number of arguments of a command letter. *)
Definition arity (tok : string) : option nat :=
  if String.eqb tok "M" then Some 2%nat
  else if String.eqb tok "L" then Some 2%nat
  else if String.eqb tok "Q" then Some 4%nat
  else if String.eqb tok "A" then Some 7%nat
  else if String.eqb tok "Z" then Some 0%nat
  else None.

(** [need] arguments are still owed to the command in progress. *)
Fixpoint balancedFrom (toks : list string) (need : nat) : bool :=
  match toks with
  | [] => (need =? 0)%nat
  | tok :: rest =>
      match arity tok with
      | Some k => (need =? 0)%nat && balancedFrom rest k
      | None =>
          match need with
          | O => false
          | S need' => isNumber tok && balancedFrom rest need'
          end
      end
  end.

(** The number of arguments still owed after [toks], or [None] when a
    command comes too early, a number too late, or a token is neither. *)
Fixpoint needAfter (toks : list string) (need : nat) : option nat :=
  match toks with
  | [] => Some need
  | tok :: rest =>
      match arity tok with
      | Some k => if (need =? 0)%nat then needAfter rest k else None
      | None =>
          match need with
          | O => None
          | S need' => if isNumber tok then needAfter rest need' else None
          end
      end
  end.

(** A string with no white space and no comma. *)
Fixpoint plain (s : string) : bool :=
  match s with
  | EmptyString => true
  | String c rest => negb (isSeparator c) && plain rest
  end.

Definition firstToken (toks : list string) : string := hd "" toks.
Definition lastToken (toks : list string) : string := last toks "".

Definition validPath (s : string) : bool :=
  let toks := tokens s in
  String.eqb (firstToken toks) "M"
  && String.eqb (lastToken toks) "Z"
  && balancedFrom toks 0.

End PathSyntax.

(** ** Concrete bubbles, texts and oracles used in the examples *)

Module Examples.

(** A host that prints numbers in decimal; its trigonometry is left
    open. *)
Definition decimalHost (cos sin : Q -> Q) (pi : Q) : Host :=
  {| numberToString := JS.showQ; Math_cos := cos; Math_sin := sin;
     Math_PI := pi |}.

Definition mkBubble (t : BubbleType) (w h fs : Q) (txt : string)
           (ps : list BubblePart) : Bubble :=
  {| id := "b1"; type := t; x := 0; y := 0; width := w; height := h;
     zIndex := 1%Z; fontFamily := "Comic Neue"; fontSize := fs;
     textColor := "#000000"; borderColor := "#000000";
     text := txt; parts := ps |}.

(** The bubble of the specification's example: SpeechDown, 200 by 100,
    tail foot centred at (100,100) and 40 wide, tip at (80,160). *)
Definition exampleTail : SpeechTailPart :=
  {| baseCX := 100; baseCY := 100; baseWidth := 40; tipX := 80; tipY := 160 |}.
Definition exampleBubble : Bubble :=
  mkBubble SpeechDown 200 100 20 "Bonjour" [SpeechTail "tail1" exampleTail].

(** A speech bubble with no part at all. *)
Definition speechNoTail : Bubble := mkBubble SpeechDown 200 100 20 "Bonjour" [].

(** A speech bubble whose tail foot is on the left edge, half way up. *)
Definition sideTail : SpeechTailPart :=
  {| baseCX := 0; baseCY := 50; baseWidth := 40; tipX := -60; tipY := 50 |}.
Definition speechSideTail : Bubble :=
  mkBubble SpeechUp 200 100 20 "Bonjour" [SpeechTail "tail1" sideTail].

(** A speech bubble whose tail points to the lower right, outside the
    body. *)
Definition rightTail : SpeechTailPart :=
  {| baseCX := 150; baseCY := 100; baseWidth := 40; tipX := 250; tipY := 160 |}.
Definition speechRightTail : Bubble :=
  mkBubble SpeechDown 200 100 20 "Bonjour" [SpeechTail "tail1" rightTail].

Definition descriptiveBox : Bubble := mkBubble Descriptive 200 100 20 "Plus tard" [].

(** A speech bubble with two thought dots among its parts. *)
Definition dot1 : ThoughtDotPart := {| offsetX := 30; offsetY := 120; size := 16 |}.
Definition dot2 : ThoughtDotPart := {| offsetX := 20; offsetY := 140; size := 10 |}.
Definition speechWithDots : Bubble :=
  mkBubble SpeechDown 200 100 20 "Bonjour"
    [ThoughtDot "dot1" dot1; SpeechTail "tail1" exampleTail; ThoughtDot "dot2" dot2].

Definition smallSpeech : Bubble := mkBubble SpeechDown 60 40 12 "Oh" [].

(** A canvas on which every character advances by half the font size
    whatever the family; the size is read from the digits that open the
    font string. *)
Fixpoint leadingDigits (s : string) (acc : Z) : Z :=
  match s with
  | EmptyString => acc
  | String c rest =>
      if PathSyntax.isDigit c
      then leadingDigits rest (acc * 10 + Z.of_nat (nat_of_ascii c) - 48)%Z
      else acc
  end.

Definition halfEmCanvas : Canvas :=
  fun font s => inject_Z (leadingDigits font 0) * inject_Z (Z.of_nat (String.length s)) / 2.

(** A canvas for the renderer on which [word + ' '] is 50 wide whatever
    the word. *)
Definition fiftyCanvas : Canvas := fun _ _ => 50.

Definition plainStyle (fs : Q) : RichText.TextStyle :=
  {| RichText.ts_fontFamily := "Comic Neue"; RichText.ts_fontSize := fs;
     RichText.ts_textColor := "#000000"; RichText.isBold := false;
     RichText.isItalic := false; RichText.isUnderline := false;
     RichText.isStrikethrough := false |}.

Definition noFontMap : string -> option string := fun _ => None.

(** One run of size 20 holding two words, in a text whose default size
    is 10. *)
Definition bigRun : RichText.TextSegment :=
  {| RichText.seg_text := "a b"; RichText.seg_style := plainStyle 20;
     RichText.seg_width := 100; RichText.seg_height := 20 |}.

(** One long word in a descriptive box of 100 by 100, at size 10. *)
Definition longWord : string := "Anticonstitutionnellement".
Definition longWordBox : Bubble := mkBubble Descriptive 100 100 10 longWord [].

(** A short text in a speech bubble, at a size that does not fit. *)
Definition greeting : Bubble := mkBubble SpeechDown 100 60 30 "Bonjour tout le monde" [].
Definition greetingAt40 : Bubble := mkBubble SpeechDown 100 60 40 "Bonjour tout le monde" [].
Definition greetingWide : Bubble := mkBubble SpeechDown 160 90 30 "Bonjour tout le monde" [].

(** A canvas that is not monotone: the word [c] alone is measured far
    wider than the line [b c]. *)
Definition oddCanvas : Canvas :=
  fun _ s =>
    if String.eqb s "a b" then 55
    else if String.eqb s "c" then 1000
    else if String.eqb s "a b c" then 1000
    else 10.
Definition abcSmall : Bubble := mkBubble Descriptive 70 50 10 "a b c" [].
Definition abcLarge : Bubble := mkBubble Descriptive 80 60 10 "a b c" [].

End Examples.

(** ** Notions used to state the properties *)

Module Notions.

(** The archetypes that [generateBubblePaths] sends to its tail branch. *)
Definition hasTailBranch (t : BubbleType) : bool :=
  match t with SpeechDown | SpeechUp | Whisper => true | _ => false end.

(** A host that writes every number as a plain decimal. *)
Definition numericHost (host : Host) : Prop :=
  forall q : Q, PathSyntax.isNumber (numberToString host q) = true.

(** The tokens that [createTailPath] writes. *)
Definition tailTokens (host : Host) (h : Q) (t : SpeechTailPart)
           (startPt endPt : Q * Q) : list string :=
  let S := numberToString host in
  let midY := BubbleUtils.clampedBaseCY h t
              + (tipY t - BubbleUtils.clampedBaseCY h t) * 0.5 in
  ["L"; S (fst startPt); S (snd startPt);
   "Q"; S (fst startPt); S (tipX t - fst startPt); "0.25"; S midY;
        S (tipX t); S (tipY t);
   "Q"; S (fst endPt); S (tipX t - fst endPt); "0.25"; S midY;
        S (fst endPt); S (snd endPt)].

(** A path under construction: it starts with [M] and every command so
    far has its arguments; only the closing [Z] is missing. *)
Definition wellFormedOpen (path : string) : Prop :=
  PathSyntax.firstToken (PathSyntax.tokens path) = "M"
  /\ PathSyntax.needAfter (PathSyntax.tokens path) 0 = Some 0%nat.

(** Every character of a string is a decimal digit. *)
Fixpoint allDigits (s : string) : bool :=
  match s with
  | EmptyString => true
  | String c rest => PathSyntax.isDigit c && allDigits rest
  end.

(** The speech family of the specification. *)
Definition isSpeechFamily (t : BubbleType) : bool :=
  match t with
  | SpeechDown | SpeechUp | SpeechDownMinimal | SpeechUpMinimal => true
  | _ => false
  end.

(** An extent holds the box from [(x0, y0)] to [(x1, y1)]; a point is the
    box from itself to itself. *)
Definition coversBox (e : BubbleUtils.Extent) (x0 y0 x1 y1 : Q) : Prop :=
  let '(minX, minY, maxX, maxY) := e in
  minX <= x0 /\ x1 <= maxX /\ minY <= y0 /\ y1 <= maxY.

Definition covers (e : BubbleUtils.Extent) (px py : Q) : Prop :=
  coversBox e px py px py.

(** The words held by a wrapping state: those of the closed lines, then
    those of the line being filled. *)
Definition stateWords (st : RichText.WrapState) : list string :=
  (RichText.wordsOfLines (RichText.lines st)
     ++ RichText.lineWords (RichText.currentLine st))%list.

(** No segment of the sequence is a forced break. *)
Definition noForcedBreak (segs : list RichText.TextSegment) : Prop :=
  Forall (fun seg => String.eqb (RichText.seg_text seg) RichText.newline = false) segs.

(** The turns of the inner loop of the wrapping step over the words of
    one segment: for each, the state before the turn, the segment and the
    word. *)
Fixpoint wordTurns (ctx : Canvas) (defaultStyle : RichText.TextStyle) (width : Q)
         (getMaxWidthAtY : option (Q -> Q)) (font : string)
         (seg : RichText.TextSegment) (words : list string)
         (st : RichText.WrapState)
  : list (RichText.WrapState * RichText.TextSegment * string) :=
  match words with
  | [] => []
  | word :: rest =>
      (st, seg, word)
        :: wordTurns ctx defaultStyle width getMaxWidthAtY font seg rest
             (RichText.placeWord ctx defaultStyle width getMaxWidthAtY font seg st word)
  end.

(** The turns of the inner loop over a whole run of the wrapping loop, up
    to its end or to the forced break that leaves it. *)
Fixpoint loopTurns (ctx : Canvas) (defaultStyle : RichText.TextStyle) (width : Q)
         (getMaxWidthAtY : option (Q -> Q)) (font : string)
         (segs : list RichText.TextSegment) (st : RichText.WrapState)
  : list (RichText.WrapState * RichText.TextSegment * string) :=
  match segs with
  | [] => []
  | seg :: rest =>
      if String.eqb (RichText.seg_text seg) RichText.newline then []
      else
        let words := JS.splitWs (RichText.seg_text seg) in
        (wordTurns ctx defaultStyle width getMaxWidthAtY font seg words st
           ++ loopTurns ctx defaultStyle width getMaxWidthAtY font rest
                (fold_left
                   (RichText.placeWord ctx defaultStyle width getMaxWidthAtY font seg)
                   words st))%list
  end.

(** The value of [ctx.font] during the wrapping loop of a call of
    [drawRichText], and the turns of its inner loop: the loop runs on the
    segments of [parseRichText], after the measuring pass. *)
Definition wrapFont (host : Host) (ctx : Canvas) (fontMap : string -> option string)
           (defaultStyle : RichText.TextStyle) (font0 html : string) : string :=
  snd (RichText.measureSegments host ctx fontMap font0
         (RichText.parseRichText html defaultStyle)).

Definition drawRichText_turns (host : Host) (ctx : Canvas)
           (fontMap : string -> option string) (defaultStyle : RichText.TextStyle)
           (width : Q) (getMaxWidthAtY : option (Q -> Q)) (font0 html : string)
  : list (RichText.WrapState * RichText.TextSegment * string) :=
  loopTurns ctx defaultStyle width getMaxWidthAtY
    (wrapFont host ctx fontMap defaultStyle font0 html)
    (fst (RichText.measureSegments host ctx fontMap font0
            (RichText.parseRichText html defaultStyle)))
    RichText.initialState.

(** The greatest font size of the runs of a line. *)
Definition maxRunFontSize (segs : list RichText.TextSegment) : Q :=
  fold_left (fun acc seg => Qmax acc (RichText.ts_fontSize (RichText.seg_style seg)))
            segs 0.

(** A segment as the measuring pass leaves it when it carries the default
    style, and a line made of such segments: its height is 0 while it is
    empty and the default font size afterwards. *)
Definition measuredDefault (defaultStyle : RichText.TextStyle)
           (seg : RichText.TextSegment) : Prop :=
  RichText.seg_style seg = defaultStyle
  /\ RichText.seg_height seg = RichText.ts_fontSize defaultStyle.

Definition uniformLine (defaultStyle : RichText.TextStyle)
           (l : RichText.TextLine) : Prop :=
  Forall (fun seg => RichText.seg_style seg = defaultStyle) (RichText.segments l)
  /\ ((RichText.segments l = [] /\ RichText.line_height l == 0)
      \/ RichText.line_height l == RichText.ts_fontSize defaultStyle).

(** A metrics oracle under which a piece of a line is never wider than
    the line: what greedy wrapping takes for granted when it closes a line
    because one more word would make it too wide. *)
Definition monotoneMetrics (ctx : Canvas) : Prop :=
  forall (font p t s : string), ctx font t <= ctx font (p ++ t ++ s).

(** Two runs of the loop of [measureText] over the same words, run 2
    against a width at least that of run 1.  Run 2 is ahead of run 1 when
    it has closed fewer lines, or as many and its current line is an end
    of the current line of run 1. *)
Definition ahead (st2 st1 : list string * string) : Prop :=
  (List.length (fst st2) < List.length (fst st1))%nat
  \/ (List.length (fst st2) = List.length (fst st1)
      /\ exists p : string, snd st1 = p ++ snd st2).

(** Every line of run 2 is within the width [W2], or no wider than some
    line of run 1. *)
Definition dominated (measure : string -> Q) (W2 : Q)
           (st2 st1 : list string * string) : Prop :=
  forall l2 : string,
    In l2 (TextAutoFit.flush st2) ->
    measure l2 <= W2
    \/ exists l1 : string, In l1 (TextAutoFit.flush st1) /\ measure l2 <= measure l1.

End Notions.

(** ** The rich text renderer: the drawing step *)

Module RichTextDraw.
Import RichText.

(** What [drawRichText] asks of the canvas: [ctx.fillText(text, x, y)] under
    the font and fill style set just before, and the stroke of a segment
    from [(x0, y0)] to [(x1, y1)] under a stroke style and a line width. *)
Inductive DrawOp :=
| FillText (font fillStyle text : string) (px py : Q)
| Stroke (strokeStyle : string) (lineWidth x0 y0 x1 y1 : Q).

Section Drawing.
Variable host : Host.
Variable ctx : Canvas.
Variable fontMap : string -> option string.

(** The body of the inner drawing loop for one segment, at the running
    [currentX]: the operations, and [currentX] after the segment.  A segment
    with an empty text is skipped by [continue], before [currentX] is
    advanced. *)
Definition drawSegment (baselineY : Q) (currentX : Q) (seg : TextSegment)
  : list DrawOp * Q :=
  if negb (JS.truthy (seg_text seg)) then ([], currentX)
  else
    let st := seg_style seg in
    let fontStr := fontString host fontMap st in
    let fill := [FillText fontStr (ts_textColor st) (seg_text seg) currentX baselineY] in
    let underline :=
      if isUnderline st then
        let wordWidth := ctx fontStr (seg_text seg) in
        [Stroke (ts_textColor st) (ts_fontSize st / 15)
           currentX (baselineY + 2) (currentX + wordWidth) (baselineY + 2)]
      else [] in
    let strikethrough :=
      if isStrikethrough st then
        let wordWidth := ctx fontStr (seg_text seg) in
        [Stroke (ts_textColor st) (ts_fontSize st / 15)
           currentX (baselineY - ts_fontSize st / 3)
           (currentX + wordWidth) (baselineY - ts_fontSize st / 3)]
      else [] in
    ((fill ++ underline ++ strikethrough)%list, currentX + seg_width seg).

Fixpoint drawSegments (baselineY : Q) (currentX : Q) (segs : list TextSegment)
  : list DrawOp * Q :=
  match segs with
  | [] => ([], currentX)
  | seg :: rest =>
      let '(ops, currentX') := drawSegment baselineY currentX seg in
      let '(ops', currentX'') := drawSegments baselineY currentX' rest in
      ((ops ++ ops')%list, currentX'')
  end.

(** Where the first segment of a line starts: centred in the rectangle,
    and never left of it. *)
Definition lineStartX (x width : Q) (line : TextLine) : Q :=
  Qmax x (x + (width - line_width line) / 2).

(** The body of the outer drawing loop for one line whose top is at
    [drawY]. *)
Definition drawLine (x width : Q) (drawY : Q) (line : TextLine) : list DrawOp :=
  let currentX := lineStartX x width line in
  let baselineY := drawY + line_height line * 0.8 in
  fst (drawSegments baselineY currentX (segments line)).

Fixpoint drawLinesFrom (x width : Q) (drawY : Q) (ls : list TextLine)
  : list DrawOp :=
  match ls with
  | [] => []
  | line :: rest =>
      (drawLine x width drawY line
         ++ drawLinesFrom x width (drawY + line_height line) rest)%list
  end.

(** "Vertical alignment (center)" and "Draw". *)
Definition drawLines (x y width height : Q) (ls : list TextLine) : list DrawOp :=
  let totalHeight := totalHeight ls in
  let startY := y + (height - totalHeight) / 2 in
  drawLinesFrom x width startY ls.

(** [drawRichText]: the operations sent to the canvas.  When the wrapping
    loop has returned from the function, nothing is drawn. *)
Definition drawRichText (font0 html : string) (x y width height : Q)
           (defaultStyle : TextStyle) (getMaxWidthAtY : option (Q -> Q))
  : list DrawOp :=
  match drawRichText_layout host ctx fontMap defaultStyle width getMaxWidthAtY
          font0 html with
  | Laid ls => drawLines x y width height ls
  | Abandoned _ => []
  end.

End Drawing.

(** The texts written by a list of operations, in order. *)
Definition textsOf (ops : list DrawOp) : list string :=
  flat_map (fun op => match op with
                      | FillText _ _ t _ _ => [t]
                      | Stroke _ _ _ _ _ _ => []
                      end) ops.

End RichTextDraw.

(** ** BubbleItem: what a pointer move and a blur do to the bubble *)

Module BubbleItem.

Inductive InteractionMode :=
| ModeMove | ModeResize | ModeMovePart | ModeMoveTailTip | ModeMoveTailBase
| ModeNull.

(** The handles ['tl'], ['tc'], ['tr'], ['ml'], ['mr'], ['bl'], ['bc'],
    ['br'], and [null]. *)
Inductive ActiveHandle := TL | TC | TR | ML | MR | BL | BC | BR | HandleNull.

Definition handleName (h : ActiveHandle) : option string :=
  match h with
  | TL => Some "tl" | TC => Some "tc" | TR => Some "tr"
  | ML => Some "ml" | MR => Some "mr"
  | BL => Some "bl" | BC => Some "bc" | BR => Some "br"
  | HandleNull => None
  end.

Fixpoint includesChar (s : string) (c : ascii) : bool :=
  match s with
  | EmptyString => false
  | String d rest => Ascii.eqb d c || includesChar rest c
  end.

(** [interaction.activeHandle?.includes(c)], falsy for a [null] handle. *)
Definition handleIncludes (h : ActiveHandle) (c : ascii) : bool :=
  match handleName h with
  | Some s => includesChar s c
  | None => false
  end.

(** The fields of the [interaction] state that [handleMouseMove] reads. *)
Record Interaction := {
  mode : InteractionMode;
  activeHandle : ActiveHandle;
  startX : Q;
  startY : Q;
  initialBubbleX : Q;
  initialBubbleY : Q;
  initialBubbleWidth : Q;
  initialBubbleHeight : Q
}.

(** [{ ...bubble }] with [x], [y], [width] and [height] assigned. *)
Definition withGeometry (b : Bubble) (x' y' w' h' : Q) : Bubble :=
  {| id := id b; type := type b; x := x'; y := y';
     width := w'; height := h'; zIndex := zIndex b;
     fontFamily := fontFamily b; fontSize := fontSize b;
     textColor := textColor b; borderColor := borderColor b;
     text := text b; parts := parts b |}.

(** [{ ...bubble, text: t }] *)
Definition withText (b : Bubble) (t : string) : Bubble :=
  {| id := id b; type := type b; x := x b; y := y b;
     width := width b; height := height b; zIndex := zIndex b;
     fontFamily := fontFamily b; fontSize := fontSize b;
     textColor := textColor b; borderColor := borderColor b;
     text := t; parts := parts b |}.

Section Handlers.
(** Modelled from the spec: the constants [MIN_BUBBLE_WIDTH] and
    [MIN_BUBBLE_HEIGHT] of [types.ts], the minimum dimensions of a bubble,
    taken as parameters. *)
Variable MIN_BUBBLE_WIDTH : Q.
Variable MIN_BUBBLE_HEIGHT : Q.

(** [handleMouseMove]: the bubble passed to [onUpdate] for a pointer at
    [(clientX, clientY)]. *)
Definition handleMouseMove (interaction : Interaction) (bubble : Bubble)
           (clientX clientY : Q) : Bubble :=
  let deltaX := clientX - startX interaction in
  let deltaY := clientY - startY interaction in
  match mode interaction with
  | ModeMove =>
      withGeometry bubble
        (initialBubbleX interaction + deltaX) (initialBubbleY interaction + deltaY)
        (width bubble) (height bubble)
  | ModeResize =>
      let h := activeHandle interaction in
      let dw := 0 in
      let dw := if handleIncludes h "l" then - deltaX else dw in
      let dw := if handleIncludes h "r" then deltaX else dw in
      let dh := 0 in
      let dh := if handleIncludes h "t" then - deltaY else dh in
      let dh := if handleIncludes h "b" then deltaY else dh in
      let width' := Qmax MIN_BUBBLE_WIDTH (initialBubbleWidth interaction + dw) in
      let height' := Qmax MIN_BUBBLE_HEIGHT (initialBubbleHeight interaction + dh) in
      let x' := if handleIncludes h "l" then initialBubbleX interaction + deltaX
                else x bubble in
      let y' := if handleIncludes h "t" then initialBubbleY interaction + deltaY
                else y bubble in
      withGeometry bubble x' y' width' height'
  | _ => withGeometry bubble (x bubble) (y bubble) (width bubble) (height bubble)
  end.

End Handlers.

(** [handleTextBlur]: the bubble passed to [onUpdate], if any.  [innerHTML]
    is [textEditRef.current?.innerHTML], absent when there is no element. *)
Definition handleTextBlur (bubble : Bubble) (innerHTML : option string)
  : option Bubble :=
  let currentHTML := match innerHTML with Some s => s | None => "" end in
  if negb (String.eqb currentHTML (text bubble)) then
    Some (withText bubble
            (if JS.trimTruthy currentHTML && negb (String.eqb currentHTML "<br>")
             then currentHTML else "Votre texte ici"))
  else None.

End BubbleItem.

(** ** Further notions and examples *)

Module MoreNotions.

(** Whole numbers of at most 2^50 in absolute value.  The source computes
    with binary floating-point numbers; on whole numbers of this size every
    sum, difference and half formed by the functions below is a whole number
    or a half below 2^53, which those numbers hold exactly, so that the
    rational arithmetic of the model is the arithmetic of the source. *)
Definition isInteger (q : Q) : bool := (Qnum q mod Z.pos (Qden q) =? 0)%Z.
Definition safeInteger (q : Q) : bool :=
  isInteger q && Qle_bool (- inject_Z (2 ^ 50)) q && Qle_bool q (inject_Z (2 ^ 50)).

(** The coordinates that [getOverallBbox] reads from a part, and from a
    bubble, are such numbers. *)
Definition wholePart (p : BubblePart) : bool :=
  match p with
  | SpeechTail _ t => safeInteger (tipX t) && safeInteger (tipY t)
  | ThoughtDot _ d =>
      safeInteger (offsetX d) && safeInteger (offsetY d) && safeInteger (size d)
  end.
Definition wholeCoordinates (b : Bubble) : bool :=
  safeInteger (width b) && safeInteger (height b) && forallb wholePart (parts b).

(** The numbers that a resize by a handle of the left side reads are such
    numbers. *)
Definition wholeResize (minWidth : Q) (interaction : BubbleItem.Interaction)
           (clientX : Q) : bool :=
  safeInteger minWidth && safeInteger clientX
  && safeInteger (BubbleItem.startX interaction)
  && safeInteger (BubbleItem.initialBubbleX interaction)
  && safeInteger (BubbleItem.initialBubbleWidth interaction).

(** The archetypes of the last branch of [generateBubblePaths], drawn as a
    plain rounded rectangle, and the numbers that the template of that
    branch writes. *)
Definition rectangularOutline (t : BubbleType) : bool :=
  match t with
  | Descriptive | TextOnly | SpeechDownMinimal | SpeechUpMinimal => true
  | _ => false
  end.
Definition rectangleNumbers (b : Bubble) : list Q :=
  let r := BubbleUtils.cornerRadius b in
  [r; width b - r; width b; height b - r; height b].

(** The box that [getOverallBbox] takes from a part: the tip of a tail, the
    square around a thought dot. *)
Definition partBox (p : BubblePart) : Q * Q * Q * Q :=
  match p with
  | SpeechTail _ t => (tipX t, tipY t, tipX t, tipY t)
  | ThoughtDot _ d =>
      (offsetX d - size d / 2, offsetY d - size d / 2,
       offsetX d + size d / 2, offsetY d + size d / 2)
  end.

(** A rectangle holds the box from [(x0, y0)] to [(x1, y1)], with [margin]
    to spare on the left and at the top. *)
Definition rectHolds (box : Rect) (margin : Q) (b : Q * Q * Q * Q) : Prop :=
  let '(x0, y0, x1, y1) := b in
  rx box + margin <= x0 /\ x1 <= rx box + rwidth box
  /\ ry box + margin <= y0 /\ y1 <= ry box + rheight box.

(** [{ ...bubble, parts: ps }] *)
Definition withParts (b : Bubble) (ps : list BubblePart) : Bubble :=
  {| id := id b; type := type b; x := x b; y := y b;
     width := width b; height := height b; zIndex := zIndex b;
     fontFamily := fontFamily b; fontSize := fontSize b;
     textColor := textColor b; borderColor := borderColor b;
     text := text b; parts := ps |}.

(** Rectangle [inner] lies within rectangle [outer]. *)
Definition rectWithin (inner outer : Rect) : Prop :=
  rx outer <= rx inner /\ ry outer <= ry inner
  /\ rx inner + rwidth inner <= rx outer + rwidth outer
  /\ ry inner + rheight inner <= ry outer + rheight outer.

(** Two rectangles with equal coordinates. *)
Definition rectEq (a b : Rect) : Prop :=
  rx a == rx b /\ ry a == ry b /\ rwidth a == rwidth b /\ rheight a == rheight b.

(** The sum of the widths and the greatest of the heights of the segments
    of a line, computed as the wrapping loop does. *)
Definition sumWidths (segs : list RichText.TextSegment) : Q :=
  fold_left (fun acc seg => acc + RichText.seg_width seg) segs 0.
Definition maxHeights (segs : list RichText.TextSegment) : Q :=
  fold_left (fun acc seg => Qmax acc (RichText.seg_height seg)) segs 0.

(** The width available to a line whose top is at [y]. *)
Definition maxWidthAt (width : Q) (getMaxWidthAtY : option (Q -> Q)) (y : Q) : Q :=
  match getMaxWidthAtY with Some f => f y | None => width end.

(** A string without the character [<]. *)
Fixpoint noLessThan (s : string) : bool :=
  match s with
  | EmptyString => true
  | String c rest => negb (Ascii.eqb c "<") && noLessThan rest
  end.

(** A string without the character [>]. *)
Fixpoint noGreaterThan (s : string) : bool :=
  match s with
  | EmptyString => true
  | String c rest => negb (Ascii.eqb c ">") && noGreaterThan rest
  end.

(** An operation does not start left of the abscissa [x]. *)
Definition notLeftOf (x : Q) (op : RichTextDraw.DrawOp) : Prop :=
  match op with
  | RichTextDraw.FillText _ _ _ px _ => x <= px
  | RichTextDraw.Stroke _ _ x0 _ x1 _ => x <= x0 /\ x <= x1
  end.

(** The width and the height of a line are the sum of the widths and the
    greatest of the heights of its segments. *)
Definition lineConsistent (l : RichText.TextLine) : Prop :=
  RichText.line_width l = sumWidths (RichText.segments l)
  /\ RichText.line_height l = maxHeights (RichText.segments l).

(** Line number [i] holds one word only, or is within the width available
    at the ordinate [i * fontSize]. *)
Definition fitsOrSingle (width : Q) (getMaxWidthAtY : option (Q -> Q))
           (fontSize : Q) (i : nat) (l : RichText.TextLine) : Prop :=
  List.length (RichText.segments l) = 1%nat
  \/ exists y : Q,
       y == inject_Z (Z.of_nat i) * fontSize
       /\ RichText.line_width l <= maxWidthAt width getMaxWidthAtY y.

(** Every segment has a non-negative width. *)
Definition widthsNonNegative (l : RichText.TextLine) : Prop :=
  Forall (fun seg => 0 <= RichText.seg_width seg) (RichText.segments l).

(** A state of the wrapping loop in which the lines closed so far are not
    empty and consistent, and the line being filled is consistent. *)
Definition linesConsistent (st : RichText.WrapState) : Prop :=
  Forall (fun l => RichText.segments l <> [] /\ lineConsistent l) (RichText.lines st)
  /\ lineConsistent (RichText.currentLine st).

(** A state of the wrapping loop in which the cursor is at as many default
    font sizes as there are closed lines; closed line [i] holds one word or
    is within the width available at [i] default font sizes; the line being
    filled is empty, holds one word, or is within the width available at
    the cursor. *)
Definition linesHeld (defaultStyle : RichText.TextStyle) (width : Q)
           (getMaxWidthAtY : option (Q -> Q)) (st : RichText.WrapState) : Prop :=
  RichText.currentY st
  == inject_Z (Z.of_nat (List.length (RichText.lines st)))
     * RichText.ts_fontSize defaultStyle
  /\ (forall i l, nth_error (RichText.lines st) i = Some l ->
                  fitsOrSingle width getMaxWidthAtY
                    (RichText.ts_fontSize defaultStyle) i l)
  /\ (RichText.segments (RichText.currentLine st) = []
      \/ List.length (RichText.segments (RichText.currentLine st)) = 1%nat
      \/ RichText.line_width (RichText.currentLine st)
         <= maxWidthAt width getMaxWidthAtY (RichText.currentY st)).

(** A state of the wrapping loop in which no word has a negative width. *)
Definition stateNonNegative (st : RichText.WrapState) : Prop :=
  Forall widthsNonNegative (RichText.lines st)
  /\ widthsNonNegative (RichText.currentLine st).

(** The state of the loop of [measureText] after some words [done], all
    non-empty: nothing yet, or a non-empty current line and lines that join
    back into the words. *)
Definition keepsWords (st : list string * string) (done : list string) : Prop :=
  (done = [] /\ st = ([], ""))
  \/ (done <> [] /\ JS.truthy (snd st) = true
      /\ String.concat " " (fst st ++ [snd st]) = String.concat " " done).

End MoreNotions.

Module MoreExamples.
Import Examples.

(** A host that writes numbers as plain decimals. *)
Definition plainHost : Host := decimalHost (fun a => a) (fun a => a) 3.

Definition thoughtCloud : Bubble :=
  mkBubble Thought 200 100 20 "Hum"
    [ThoughtDot "dot1" dot1; ThoughtDot "dot2" dot2].

Definition resizeLeft : BubbleItem.Interaction :=
  {| BubbleItem.mode := BubbleItem.ModeResize;
     BubbleItem.activeHandle := BubbleItem.ML;
     BubbleItem.startX := 300; BubbleItem.startY := 200;
     BubbleItem.initialBubbleX := 100; BubbleItem.initialBubbleY := 80;
     BubbleItem.initialBubbleWidth := 200; BubbleItem.initialBubbleHeight := 100 |}.

Definition dragTailTip : BubbleItem.Interaction :=
  {| BubbleItem.mode := BubbleItem.ModeMoveTailTip;
     BubbleItem.activeHandle := BubbleItem.HandleNull;
     BubbleItem.startX := 300; BubbleItem.startY := 200;
     BubbleItem.initialBubbleX := 100; BubbleItem.initialBubbleY := 80;
     BubbleItem.initialBubbleWidth := 200; BubbleItem.initialBubbleHeight := 100 |}.

(** A box too low for one line of the long word even at size 8. *)
Definition lowBox : Bubble := mkBubble Descriptive 300 25 10 longWord [].

(** A greeting that fits its bubble at its own size. *)
Definition smallGreeting : Bubble :=
  mkBubble SpeechDown 200 100 12 "Bonjour tout le monde" [].

End MoreExamples.

(** * Properties *)

(** ** Tokens of a path string *)

Section PathTokens.
Import PathSyntax.

Lemma string_app_nil_r (s : string) : s ++ "" = s.
Proof. induction s as [|c s IH]; simpl; [reflexivity | rewrite IH; reflexivity]. Qed.

Lemma string_app_assoc (a b c : string) : (a ++ b) ++ c = a ++ b ++ c.
Proof. induction a as [|x a IH]; simpl; [reflexivity | rewrite IH; reflexivity]. Qed.

(** A separator between two strings separates their tokens. *)
Lemma tokensFrom_app_sep (a b : string) (c : ascii) (cur : string) :
  isSeparator c = true ->
  tokensFrom (a ++ String c b) cur = (tokensFrom a cur ++ tokensFrom b "")%list.
Proof.
  intros Hc. revert cur. induction a as [|x a IH]; intros cur; simpl.
  - rewrite Hc. destruct (JS.truthy cur); reflexivity.
  - destruct (isSeparator x).
    + destruct (JS.truthy cur); simpl; rewrite IH; reflexivity.
    + apply IH.
Qed.

(** A plain string is one token, or none when it is empty. *)
Lemma tokensFrom_plain (s cur : string) :
  plain s = true ->
  tokensFrom s cur = if JS.truthy (cur ++ s) then [cur ++ s] else [].
Proof.
  revert cur. induction s as [|x s IH]; intros cur Hs; simpl.
  - rewrite string_app_nil_r. reflexivity.
  - simpl in Hs. apply andb_true_iff in Hs. destruct Hs as (Hx & Hs).
    apply negb_true_iff in Hx. rewrite Hx, (IH _ Hs), string_app_assoc. reflexivity.
Qed.

Lemma isDigit_not_separator (c : ascii) : isDigit c = true -> isSeparator c = false.
Proof.
  destruct c as [[] [] [] [] [] [] [] []]; vm_compute; intros H;
    first [reflexivity | discriminate H].
Qed.

Lemma isUnsigned_plain (s : string) (seenDot seenDigit : bool) :
  isUnsigned s seenDot seenDigit = true -> plain s = true.
Proof.
  revert seenDot seenDigit. induction s as [|c s IH]; intros d g H; [reflexivity|].
  simpl in H. simpl. destruct (isDigit c) eqn:Hd.
  - rewrite (isDigit_not_separator c Hd). simpl. exact (IH _ _ H).
  - destruct (Ascii.eqb_spec c "."); [|discriminate].
    subst c. apply andb_true_iff in H. destruct H as (_ & H).
    simpl. exact (IH _ _ H).
Qed.

Lemma isNumber_plain (s : string) : isNumber s = true -> plain s = true.
Proof.
  destruct s as [|c s]; [discriminate|]. unfold isNumber.
  destruct (Ascii.eqb_spec c "-").
  - subst c. intros H. simpl. exact (isUnsigned_plain _ _ _ H).
  - apply isUnsigned_plain.
Qed.

Lemma isNumber_truthy (s : string) : isNumber s = true -> JS.truthy s = true.
Proof. destruct s; [discriminate | reflexivity]. Qed.

(** A number is not a command letter. *)
Lemma isNumber_arity (s : string) : isNumber s = true -> arity s = None.
Proof.
  destruct s as [|c s]; [discriminate|]. unfold isNumber.
  destruct (Ascii.eqb_spec c "-").
  - subst c. intros _. reflexivity.
  - simpl. destruct (isDigit c) eqn:Hd.
    + intros _. unfold arity.
      destruct c as [[] [] [] [] [] [] [] []]; try discriminate Hd; reflexivity.
    + destruct (Ascii.eqb_spec c "."); [|discriminate].
      subst c. intros _. reflexivity.
Qed.

Lemma tokensFrom_number (s : string) :
  isNumber s = true -> tokensFrom s "" = [s].
Proof.
  intros H. rewrite (tokensFrom_plain s "" (isNumber_plain s H)). simpl.
  rewrite (isNumber_truthy s H). reflexivity.
Qed.

Lemma needAfter_app (t1 t2 : list string) (need : nat) :
  needAfter (t1 ++ t2) need
  = match needAfter t1 need with
    | Some k => needAfter t2 k
    | None => None
    end.
Proof.
  revert need. induction t1 as [|tok t1 IH]; intros need; simpl; [reflexivity|].
  destruct (arity tok).
  - destruct (need =? 0)%nat; [apply IH | reflexivity].
  - destruct need; [reflexivity|]. destruct (isNumber tok); [apply IH | reflexivity].
Qed.

Lemma balancedFrom_needAfter (toks : list string) (need : nat) :
  balancedFrom toks need
  = match needAfter toks need with
    | Some O => true
    | _ => false
    end.
Proof.
  revert need. induction toks as [|tok toks IH]; intros need; simpl.
  - destruct need; reflexivity.
  - destruct (arity tok).
    + destruct (need =? 0)%nat; [apply IH | reflexivity].
    + destruct need; [reflexivity|]. destruct (isNumber tok); [apply IH | reflexivity].
Qed.

(** A number pays one argument. *)
Lemma needAfter_number (tok : string) (rest : list string) (need : nat) :
  isNumber tok = true ->
  needAfter (tok :: rest) (S need) = needAfter rest need.
Proof.
  intros H. simpl. rewrite (isNumber_arity tok H), H. reflexivity.
Qed.

Lemma needAfter_number_unowed (tok : string) (rest : list string) :
  isNumber tok = true -> needAfter (tok :: rest) 0 = None.
Proof. intros H. simpl. rewrite (isNumber_arity tok H). reflexivity. Qed.

Lemma needAfter_command (tok : string) (rest : list string) (k : nat) :
  arity tok = Some k -> needAfter (tok :: rest) 0 = needAfter rest k.
Proof. intros H. simpl. rewrite H. reflexivity. Qed.

End PathTokens.

(** ** The decimal printer writes numbers *)

Section DecimalPrinter.
Import PathSyntax Notions.

Lemma allDigits_app (a b : string) :
  allDigits (a ++ b) = allDigits a && allDigits b.
Proof.
  induction a as [|c a IH]; simpl; [reflexivity|].
  rewrite IH, andb_assoc. reflexivity.
Qed.

Lemma allDigits_uint (d : Decimal.uint) :
  allDigits (NilEmpty.string_of_uint d) = true.
Proof. induction d; simpl; auto. Qed.

Lemma allDigits_NilZero (d : Decimal.uint) :
  allDigits (NilZero.string_of_uint d) = true
  /\ JS.truthy (NilZero.string_of_uint d) = true.
Proof.
  unfold NilZero.string_of_uint.
  destruct d; simpl; split; try reflexivity; apply allDigits_uint.
Qed.

Lemma allDigits_fracDigits (fuel : nat) (num den : Z) :
  allDigits (JS.fracDigits fuel num den) = true.
Proof.
  revert num. induction fuel as [|fuel IH]; intros num; simpl; [reflexivity|].
  destruct (num =? 0)%Z; [reflexivity|].
  rewrite allDigits_app, IH. rewrite (proj1 (allDigits_NilZero _)). reflexivity.
Qed.

(** Digits, then anything: the digits are read and a digit has been
    seen. *)
Lemma isUnsigned_digits (ds rest : string) (seenDot seenDigit : bool) :
  allDigits ds = true -> JS.truthy ds = true ->
  isUnsigned (ds ++ rest) seenDot seenDigit = isUnsigned rest seenDot true.
Proof.
  revert seenDigit. induction ds as [|c ds IH]; intros g Hd Ht; [discriminate|].
  simpl in Hd. apply andb_true_iff in Hd. destruct Hd as (Hc & Hd).
  simpl. rewrite Hc. destruct ds as [|c' ds']; [reflexivity|].
  apply IH; [exact Hd | reflexivity].
Qed.

Lemma isUnsigned_showQ_body (whole frac : string) :
  allDigits whole = true -> JS.truthy whole = true -> allDigits frac = true ->
  isUnsigned (whole ++ (if JS.truthy frac then "." ++ frac else "")) false false = true.
Proof.
  intros Hw Ht Hf. rewrite (isUnsigned_digits whole _ false false Hw Ht).
  destruct (JS.truthy frac) eqn:Hfr; [|reflexivity].
  simpl. rewrite <- (string_app_nil_r frac).
  rewrite (isUnsigned_digits frac "" true true Hf Hfr). reflexivity.
Qed.

Lemma isNumber_unsigned (s : string) :
  isUnsigned s false false = true -> isNumber s = true.
Proof.
  destruct s as [|c s]; [discriminate|]. unfold isNumber.
  destruct (Ascii.eqb_spec c "-"); [|intros H; exact H].
  subst c. discriminate.
Qed.

Lemma showQ_numeric (q : Q) : isNumber (JS.showQ q) = true.
Proof.
  unfold JS.showQ.
  set (whole := NilZero.string_of_uint _).
  set (frac := JS.fracDigits _ _ _).
  assert (Hbody : isUnsigned (whole ++ (if JS.truthy frac then "." ++ frac else ""))
                    false false = true).
  { apply isUnsigned_showQ_body.
    - apply allDigits_NilZero.
    - apply allDigits_NilZero.
    - apply allDigits_fracDigits. }
  destruct (Qnum q <? 0)%Z.
  - simpl. exact Hbody.
  - simpl. apply isNumber_unsigned. exact Hbody.
Qed.

Lemma decimalHost_numeric (cos sin : Q -> Q) (pi : Q) :
  numericHost (Examples.decimalHost cos sin pi).
Proof. intros q. apply showQ_numeric. Qed.

End DecimalPrinter.


(** ** The helpers behave as the JavaScript they stand for *)

Example showQ_examples :
  JS.showQ (-40) = "-40" /\ JS.showQ (57 / 2) = "28.5" /\ JS.showQ 0.25 = "0.25".
Proof. vm_compute. repeat split. Qed.

Example splitWs_examples :
  JS.splitWs " a  b " = [""; "a"; "b"; ""] /\ JS.splitWs "" = [""].
Proof. vm_compute. split; reflexivity. Qed.

Example stripTags_examples :
  JS.stripTags "x<b>y</b> <z" = "xy <z" /\ JS.stripTags "<a<b>c" = "c".
Proof. vm_compute. split; reflexivity. Qed.

Example splitBr_examples :
  JS.splitBr "a<BR />b<br>c<b>d<br" = ["a"; "b"; "c<b>d<br"].
Proof. vm_compute. reflexivity. Qed.

(** ** The outline *)

Section Outline.
Import BubbleUtils PathSyntax Examples Notions.

(** A bubble of the tail branch that has no tail part gets the empty
    string as its outline. *)
Lemma outline_empty_without_tail (host : Host) (b : Bubble) :
  hasTailBranch (type b) = true ->
  findSpeechTail (parts b) = None ->
  bodyPath (generateBubblePaths host b) = "".
Proof.
  intros Hty Hnone. unfold generateBubblePaths. rewrite Hnone.
  destruct (type b); simpl in Hty; try discriminate; reflexivity.
Qed.

(** A tail whose clamped foot is strictly between the top and the bottom
    edge leaves the outline empty as well. *)
Lemma outline_empty_with_side_tail (host : Host) (b : Bubble) (t : SpeechTailPart) :
  hasTailBranch (type b) = true ->
  findSpeechTail (parts b) = Some t ->
  0 < baseCY t -> baseCY t < height b ->
  bodyPath (generateBubblePaths host b) = "".
Proof.
  intros Hty Hsome Hlo Hhi. unfold generateBubblePaths. rewrite Hsome.
  assert (Hc : clampedBaseCY (height b) t == baseCY t).
  { unfold clampedBaseCY. rewrite Q.min_r by (apply Qlt_le_weak; exact Hhi).
    apply Q.max_r. apply Qlt_le_weak; exact Hlo. }
  assert (H1 : Qeq_bool (clampedBaseCY (height b) t) (height b) = false).
  { destruct (Qeq_bool (clampedBaseCY (height b) t) (height b)) eqn:E; [|reflexivity].
    apply Qeq_bool_eq in E. rewrite Hc in E. rewrite E in Hhi.
    exfalso. exact (Qlt_irrefl _ Hhi). }
  assert (H2 : Qeq_bool (clampedBaseCY (height b) t) 0 = false).
  { destruct (Qeq_bool (clampedBaseCY (height b) t) 0) eqn:E; [|reflexivity].
    apply Qeq_bool_eq in E. rewrite Hc in E. rewrite E in Hlo.
    exfalso. exact (Qlt_irrefl _ Hlo). }
  rewrite H1, H2.
  destruct (type b); simpl in Hty; try discriminate; reflexivity.
Qed.

(** The validator accepts the rounded rectangle of a descriptive box. *)
Example descriptive_outline_valid (cos sin : Q -> Q) (pi : Q) :
  let path := bodyPath (generateBubblePaths (decimalHost cos sin pi) descriptiveBox) in
  path = "M 5,0 L 195,0 A 5,5 0 0 1 200,5 L 200,95 A 5,5 0 0 1 195,100 L 5,100 A 5,5 0 0 1 0,95 L 0,5 A 5,5 0 0 1 5,0 Z"
  /\ validPath path = true.
Proof. vm_compute. split; reflexivity. Qed.

(** Each curve of the tail is written with six numbers after its [Q]:
    the first control coordinate appears as the three separate numbers
    [startPt.x], [tipX - startPt.x] and [0.25]. *)
Example tail_curve_tokens (cos sin : Q -> Q) (pi : Q) :
  tokens (createTailPath (decimalHost cos sin pi) 100 exampleTail (120, 100) (80, 100))
  = ["L"; "120"; "100";
     "Q"; "120"; "-40"; "0.25"; "130"; "80"; "160";
     "Q"; "80"; "0"; "0.25"; "130"; "80"; "100"].
Proof. vm_compute. reflexivity. Qed.

End Outline.

(** *** The outline of every archetype, for a host that writes decimals *)

Section OutlineSyntax.
Import BubbleUtils PathSyntax Examples Notions.

Variable host : Host.
Hypothesis host_numeric : numericHost host.
Local Abbreviation S := (numberToString host).

Ltac tokenize :=
  unfold tokens;
  repeat first
    [ rewrite tokensFrom_app_sep by reflexivity
    | rewrite tokensFrom_number by apply host_numeric
    | progress simpl ].

Ltac pay :=
  repeat first
    [ rewrite needAfter_number by first [apply host_numeric | reflexivity]
    | erewrite needAfter_command by reflexivity ].

Lemma roundedRectPath_tokens (w h r : Q) :
  tokens (roundedRectPath host w h r)
  = ["M"; S r; "0"; "L"; S (w - r); "0";
     "A"; S r; S r; "0"; "0"; "1"; S w; S r;
     "L"; S w; S (h - r);
     "A"; S r; S r; "0"; "0"; "1"; S (w - r); S h;
     "L"; S r; S h;
     "A"; S r; S r; "0"; "0"; "1"; "0"; S (h - r);
     "L"; "0"; S r;
     "A"; S r; S r; "0"; "0"; "1"; S r; "0"; "Z"].
Proof. unfold roundedRectPath. tokenize. reflexivity. Qed.

Lemma roundedRectPath_valid (w h r : Q) :
  validPath (roundedRectPath host w h r) = true.
Proof.
  unfold validPath. rewrite roundedRectPath_tokens, balancedFrom_needAfter.
  pay. reflexivity.
Qed.

Lemma bottomTailPath_tokens (w h r : Q) (t : SpeechTailPart) :
  tokens (bottomTailPath host w h r t)
  = (["M"; S r; "0"; "L"; S (w - r); "0";
      "A"; S r; S r; "0"; "0"; "1"; S w; S r;
      "L"; S w; S (h - r);
      "A"; S r; S r; "0"; "0"; "1"; S (w - r); S h;
      "L"; S (rightBaseX w r t); S h]
     ++ tailTokens host h t (rightBaseX w r t, h) (leftBaseX w r t, h)
     ++ ["L"; S r; S h;
         "A"; S r; S r; "0"; "0"; "1"; "0"; S (h - r);
         "L"; "0"; S r;
         "A"; S r; S r; "0"; "0"; "1"; S r; "0"; "Z"])%list.
Proof. unfold bottomTailPath, createTailPath, tailTokens. tokenize. reflexivity. Qed.

Lemma topTailPath_tokens (w h r : Q) (t : SpeechTailPart) :
  tokens (topTailPath host w h r t)
  = (["M"; S r; "0"; "L"; S (leftBaseX w r t); "0"]
     ++ tailTokens host h t (leftBaseX w r t, 0) (rightBaseX w r t, 0)
     ++ ["L"; S (w - r); "0";
         "A"; S r; S r; "0"; "0"; "1"; S w; S r;
         "L"; S w; S (h - r);
         "A"; S r; S r; "0"; "0"; "1"; S (w - r); S h;
         "L"; S r; S h;
         "A"; S r; S r; "0"; "0"; "1"; "0"; S (h - r);
         "L"; "0"; S r;
         "A"; S r; S r; "0"; "0"; "1"; S r; "0"; "Z"])%list.
Proof. unfold topTailPath, createTailPath, tailTokens. tokenize. reflexivity. Qed.

(** With a tail the outline is never balanced: the fifth number after
    the first [Q] is owed to no command. *)
Lemma bottomTailPath_invalid (w h r : Q) (t : SpeechTailPart) :
  validPath (bottomTailPath host w h r t) = false.
Proof.
  unfold validPath. rewrite bottomTailPath_tokens, balancedFrom_needAfter.
  unfold tailTokens. cbn [app]. pay.
  rewrite needAfter_number_unowed by apply host_numeric.
  apply andb_false_r.
Qed.

Lemma topTailPath_invalid (w h r : Q) (t : SpeechTailPart) :
  validPath (topTailPath host w h r t) = false.
Proof.
  unfold validPath. rewrite topTailPath_tokens, balancedFrom_needAfter.
  unfold tailTokens. cbn [app]. pay.
  rewrite needAfter_number_unowed by apply host_numeric.
  apply andb_false_r.
Qed.

Lemma firstToken_app (l1 l2 : list string) :
  firstToken l1 = "M" -> firstToken (l1 ++ l2) = "M".
Proof. destruct l1; [discriminate | intros H; exact H]. Qed.

(** A chunk that starts with a separator and whose tokens are balanced
    keeps an open path well formed. *)
Lemma wellFormedOpen_app (path chunk : string) (c : ascii) :
  isSeparator c = true ->
  needAfter (tokens chunk) 0 = Some 0%nat ->
  wellFormedOpen path -> wellFormedOpen (path ++ String c chunk).
Proof.
  intros Hc Hchunk (Hfirst & Hneed). unfold wellFormedOpen, tokens.
  rewrite (tokensFrom_app_sep path chunk c "" Hc). split.
  - apply firstToken_app. exact Hfirst.
  - rewrite needAfter_app. unfold tokens in Hneed. rewrite Hneed. exact Hchunk.
Qed.

(** Closing an open path with [Z] makes it valid. *)
Lemma wellFormedOpen_close (path : string) :
  wellFormedOpen path -> validPath (path ++ " Z") = true.
Proof.
  intros (Hfirst & Hneed). unfold validPath, tokens.
  rewrite (tokensFrom_app_sep path "Z" " " "" eq_refl).
  change (tokensFrom "Z" "") with ["Z"].
  rewrite (firstToken_app _ _ Hfirst). unfold lastToken. rewrite last_last.
  rewrite balancedFrom_needAfter, needAfter_app.
  unfold tokens in Hneed. rewrite Hneed. reflexivity.
Qed.

Lemma wellFormedOpen_tokens (path : string) (toks : list string) :
  tokens path = toks -> firstToken toks = "M" -> needAfter toks 0 = Some 0%nat ->
  wellFormedOpen path.
Proof. intros <- H1 H2. split; assumption. Qed.

Lemma needAfter_tokens (chunk : string) (toks : list string) :
  tokens chunk = toks -> needAfter toks 0 = Some 0%nat ->
  needAfter (tokens chunk) 0 = Some 0%nat.
Proof. intros <- H. exact H. Qed.

Lemma thoughtLobe_first (w h : Q) (path : string) :
  wellFormedOpen (thoughtLobe host w h path 0).
Proof.
  unfold thoughtLobe. cbv zeta. cbn [Nat.eqb].
  eapply wellFormedOpen_tokens.
  - tokenize. reflexivity.
  - reflexivity.
  - pay. reflexivity.
Qed.

Lemma thoughtLobe_next (w h : Q) (path : string) (i : nat) :
  wellFormedOpen path -> wellFormedOpen (thoughtLobe host w h path (Datatypes.S i)).
Proof.
  intros Hopen. unfold thoughtLobe. cbv zeta. cbn [Nat.eqb].
  apply (wellFormedOpen_app path _ " " eq_refl); [|exact Hopen].
  eapply needAfter_tokens.
  - tokenize. reflexivity.
  - pay. reflexivity.
Qed.

Lemma shoutPoint_first (w h : Q) :
  wellFormedOpen (shoutPoint host w h "" 0).
Proof.
  unfold shoutPoint. cbv zeta. cbn [Nat.eqb].
  eapply wellFormedOpen_tokens.
  - tokenize. reflexivity.
  - reflexivity.
  - pay. reflexivity.
Qed.

Lemma shoutPoint_next (w h : Q) (path : string) (i : nat) :
  wellFormedOpen path -> wellFormedOpen (shoutPoint host w h path (Datatypes.S i)).
Proof.
  intros Hopen. unfold shoutPoint. cbv zeta. cbn [Nat.eqb].
  apply (wellFormedOpen_app path _ " " eq_refl); [|exact Hopen].
  eapply needAfter_tokens.
  - tokenize. reflexivity.
  - pay. reflexivity.
Qed.

Lemma fold_wellFormedOpen (step : string -> nat -> string) (n start : nat) (path : string) :
  (forall p i, wellFormedOpen p -> wellFormedOpen (step p (Datatypes.S i))) ->
  wellFormedOpen path ->
  wellFormedOpen (fold_left step (seq (Datatypes.S start) n) path).
Proof.
  intros Hstep. revert start path. induction n as [|n IH]; intros start path Hopen.
  - exact Hopen.
  - simpl. apply IH. apply Hstep. exact Hopen.
Qed.

Lemma fold_left_seq_first (step : string -> nat -> string) (n : nat) (path : string) :
  fold_left step (seq 0 (Datatypes.S n)) path = fold_left step (seq 1 n) (step path 0%nat).
Proof. reflexivity. Qed.

Lemma thought_outline_valid (w h : Q) :
  validPath (fold_left (thoughtLobe host w h) (seq 0 9) "" ++ " Z") = true.
Proof.
  apply wellFormedOpen_close. rewrite (fold_left_seq_first _ 8).
  apply fold_wellFormedOpen; [apply thoughtLobe_next | apply thoughtLobe_first].
Qed.

Lemma shout_outline_valid (w h : Q) :
  validPath (fold_left (shoutPoint host w h) (seq 0 (14 * 2)) "" ++ " Z") = true.
Proof.
  apply wellFormedOpen_close. change (14 * 2)%nat with 28%nat.
  rewrite (fold_left_seq_first _ 27).
  apply fold_wellFormedOpen; [apply shoutPoint_next | apply shoutPoint_first].
Qed.

(** Outside the tail branch the outline is a valid path: it starts with
    [M], ends with [Z], and every command has its arguments. *)
Lemma outline_valid_outside_tail_branch (b : Bubble) :
  hasTailBranch (type b) = false ->
  validPath (bodyPath (generateBubblePaths host b)) = true.
Proof.
  intros Hty. unfold generateBubblePaths.
  destruct (type b); cbn [hasTailBranch] in Hty; try discriminate Hty;
    cbn [bodyPath];
    match goal with
    | |- validPath (roundedRectPath _ _ _ _) = true => apply roundedRectPath_valid
    | |- validPath (fold_left (thoughtLobe _ _ _) _ _ ++ _) = true =>
        apply thought_outline_valid
    | |- validPath (fold_left (shoutPoint _ _ _) _ _ ++ _) = true =>
        apply shout_outline_valid
    end.
Qed.

(** In the tail branch the outline is never a valid path: it is empty,
    or its tail curves are unbalanced. *)
Lemma outline_invalid_in_tail_branch (b : Bubble) :
  hasTailBranch (type b) = true ->
  validPath (bodyPath (generateBubblePaths host b)) = false.
Proof.
  intros Hty. unfold generateBubblePaths.
  destruct (type b); cbn [hasTailBranch] in Hty; try discriminate Hty;
    (destruct (findSpeechTail (parts b)); [|reflexivity]);
    (destruct (Qeq_bool _ _); [apply bottomTailPath_invalid|]);
    (destruct (Qeq_bool _ _); [apply topTailPath_invalid | reflexivity]).
Qed.

End OutlineSyntax.

Section OutlineClaims.
Import BubbleUtils PathSyntax Examples Notions.

(** C1, evaluated where the code departs from it.  A SpeechDown bubble
    with no part and a SpeechUp bubble whose tail foot is on the left edge
    both get the empty string as outline, which neither starts with [M]
    nor ends with [Z]; and the outline of the bubble with a bottom tail
    is not balanced, its [Q] commands carrying six numbers each. *)
Theorem speech_outline_empty_or_unbalanced (host : Host) (cos sin : Q -> Q) (pi : Q) :
  bodyPath (generateBubblePaths host speechNoTail) = ""
  /\ bodyPath (generateBubblePaths host speechSideTail) = ""
  /\ validPath "" = false
  /\ validPath (bodyPath (generateBubblePaths (decimalHost cos sin pi) exampleBubble))
     = false.
Proof. repeat split; vm_compute; reflexivity. Qed.

(** C10.  Decoration circles are produced in the Thought branch only:
    for a bubble of any other archetype [partsCircles] is empty, whatever
    its parts. *)
Theorem partsCircles_only_for_thought (host : Host) (b : Bubble) :
  BubbleType_eqb (type b) Thought = false ->
  partsCircles (generateBubblePaths host b) = [].
Proof.
  intros Hty. unfold generateBubblePaths.
  destruct (type b); simpl in Hty; try discriminate; try reflexivity;
    destruct (findSpeechTail (parts b)); try reflexivity;
    destruct (Qeq_bool _ _); try reflexivity;
    destruct (Qeq_bool _ _); reflexivity.
Qed.

Lemma partsCircles_only_for_thought_witness :
  BubbleType_eqb (type speechWithDots) Thought = false
  /\ partsCircles (generateBubblePaths (decimalHost (fun a => a) (fun a => a) 3)
                     speechWithDots) = [].
Proof.
  split; [reflexivity|].
  apply (partsCircles_only_for_thought _ speechWithDots). reflexivity.
Defined.

(** In the Thought branch every thought dot gives its circle, in order. *)
Lemma partsCircles_of_thought (host : Host) (b : Bubble) :
  type b = Thought ->
  partsCircles (generateBubblePaths host b) = flat_map thoughtCircle (parts b).
Proof. intros Hty. unfold generateBubblePaths. rewrite Hty. reflexivity. Qed.

End OutlineClaims.

(** ** The bounding box *)

Section BoundingBox.
Import BubbleUtils Examples Notions.

(** The box starts ten units before the union on the left and at the
    top, and ends exactly where the union ends on the right and at the
    bottom. *)
Lemma getOverallBbox_edges (b : Bubble) :
  let '(minX, minY, maxX, maxY) := extent b in
  let box := getOverallBbox b in
  rx box == minX - 10 /\ ry box == minY - 10
  /\ rx box + rwidth box == maxX /\ ry box + rheight box == maxY.
Proof.
  unfold getOverallBbox. destruct (extent b) as [[[minX minY] maxX] maxY].
  simpl. repeat split; ring.
Qed.

Lemma extendBy_grows (e : Extent) (p : BubblePart) (x0 y0 x1 y1 : Q) :
  coversBox e x0 y0 x1 y1 -> coversBox (extendBy e p) x0 y0 x1 y1.
Proof.
  destruct e as [[[minX minY] maxX] maxY]. unfold coversBox, extendBy.
  intros (H1 & H2 & H3 & H4).
  destruct p as [i t | i d]; repeat split;
    first [ eapply Qle_trans; [apply Q.le_min_l | eassumption]
          | eapply Qle_trans; [eassumption | apply Q.le_max_l] ].
Qed.

Lemma fold_extendBy_grows (ps : list BubblePart) (e : Extent) (x0 y0 x1 y1 : Q) :
  coversBox e x0 y0 x1 y1 -> coversBox (fold_left extendBy ps e) x0 y0 x1 y1.
Proof.
  revert e. induction ps as [|p ps IH]; intros e H; simpl; [exact H|].
  apply IH. apply extendBy_grows. exact H.
Qed.

(** The union holds the body rectangle [(0, 0, width, height)]. *)
Lemma extent_covers_body (b : Bubble) :
  coversBox (extent b) 0 0 (width b) (height b).
Proof.
  unfold extent. apply fold_extendBy_grows. simpl.
  repeat split; apply Qle_refl.
Qed.

(** The union holds the tip of every tail part. *)
Lemma extent_covers_tip (b : Bubble) (i : string) (t : SpeechTailPart) :
  In (SpeechTail i t) (parts b) -> covers (extent b) (tipX t) (tipY t).
Proof.
  unfold extent, covers. generalize (0, 0, width b, height b).
  induction (parts b) as [|p ps IH]; intros e Hin; [destruct Hin|].
  destruct Hin as [-> | Hin]; simpl.
  - apply fold_extendBy_grows. destruct e as [[[minX minY] maxX] maxY].
    simpl. repeat split;
      first [apply Q.le_min_r | apply Q.le_max_r].
  - apply IH. exact Hin.
Qed.

(** The union holds the whole circle of every thought dot, from
    [offset - size / 2] to [offset + size / 2] on both axes. *)
Lemma extent_covers_dot (b : Bubble) (i : string) (d : ThoughtDotPart) :
  In (ThoughtDot i d) (parts b) ->
  coversBox (extent b)
    (offsetX d - size d / 2) (offsetY d - size d / 2)
    (offsetX d + size d / 2) (offsetY d + size d / 2).
Proof.
  unfold extent. generalize (0, 0, width b, height b).
  induction (parts b) as [|p ps IH]; intros e Hin; [destruct Hin|].
  destruct Hin as [-> | Hin]; simpl.
  - apply fold_extendBy_grows. destruct e as [[[minX minY] maxX] maxY].
    simpl. repeat split;
      first [apply Q.le_min_r | apply Q.le_max_r].
  - apply IH. exact Hin.
Qed.

(** The box holds the tip of every tail part with ten units to spare on
    the left and at the top, and with nothing promised on the right and at
    the bottom. *)
Lemma getOverallBbox_holds_tip (b : Bubble) (i : string) (t : SpeechTailPart) :
  In (SpeechTail i t) (parts b) ->
  let box := getOverallBbox b in
  rx box + 10 <= tipX t /\ tipX t <= rx box + rwidth box
  /\ ry box + 10 <= tipY t /\ tipY t <= ry box + rheight box.
Proof.
  intros Hin. pose proof (extent_covers_tip b i t Hin) as Hc.
  pose proof (getOverallBbox_edges b) as He.
  unfold covers, coversBox in Hc.
  destruct (extent b) as [[[minX minY] maxX] maxY].
  destruct Hc as (H1 & H2 & H3 & H4). destruct He as (E1 & E2 & E3 & E4).
  cbv zeta. repeat split; lra.
Qed.

(** C2, evaluated where the code departs from it.  For the bubble whose
    tail tip is at (250,160), outside the body, the box is
    [(-10, -10, 260, 170)]: its right edge is at 250 and its bottom edge at
    160, the tip itself, so the tip has no clearance on these two sides. *)
Theorem getOverallBbox_no_clearance_right_bottom :
  let box := getOverallBbox speechRightTail in
  rx box == -10 /\ ry box == -10 /\ rwidth box == 260 /\ rheight box == 170
  /\ rx box + rwidth box == tipX rightTail
  /\ ry box + rheight box == tipY rightTail
  /\ ~ tipX rightTail + 10 <= rx box + rwidth box
  /\ ~ tipY rightTail + 10 <= ry box + rheight box.
Proof.
  vm_compute. repeat split; try reflexivity; intros H; apply H; reflexivity.
Qed.

(** C8, evaluated on the example of the specification.  The outline
    leaves the bottom edge at x = 120 and comes back to it at x = 80, both
    within [[r, width - r] = [50, 150]]; the box is [(-10, -10, 210, 170)],
    so [y + height] is 160, below the 170 that the example asks for. *)
Theorem example_bubble_tail_cut_and_bbox (cos sin : Q -> Q) (pi : Q) :
  cornerRadius exampleBubble == 50
  /\ leftBaseX 200 50 exampleTail == 80
  /\ rightBaseX 200 50 exampleTail == 120
  /\ bodyPath (generateBubblePaths (decimalHost cos sin pi) exampleBubble)
     = "M 50,0 L 150,0 A 50,50 0 0 1 200,50 L 200,50 A 50,50 0 0 1 150,100 L 120,100 L 120,100 Q 120 -40 0.25,130 80,160 Q 80 0 0.25,130 80,100 L 50,100 A 50,50 0 0 1 0,50 L 0,50 A 50,50 0 0 1 50,0 Z"
  /\ ry (getOverallBbox exampleBubble) + rheight (getOverallBbox exampleBubble) == 160
  /\ ~ 170 <= ry (getOverallBbox exampleBubble) + rheight (getOverallBbox exampleBubble).
Proof.
  vm_compute. repeat split; try reflexivity; intros H; apply H; reflexivity.
Qed.

End BoundingBox.

(** ** The safe text zone *)

Section SafeZone.
Import TextAutoFit Examples Notions.

(** C6 as stated fails: the zone of a speech bubble of 60 by 40 is 40 by
    20, two thirds and one half of the bubble; it is not 83% of it, even
    with a tolerance of ten percentage points either way. *)
Lemma speech_zone_is_not_83_percent :
  ~ (forall b : Bubble,
        isSpeechFamily (type b) = true ->
        (0.83 - 0.1) * width b <= rwidth (getTextBounds b)
        /\ rwidth (getTextBounds b) <= (0.83 + 0.1) * width b
        /\ (0.83 - 0.1) * height b <= rheight (getTextBounds b)
        /\ rheight (getTextBounds b) <= (0.83 + 0.1) * height b).
Proof.
  intros H. destruct (H smallSpeech eq_refl) as (H1 & _).
  vm_compute in H1. apply H1. reflexivity.
Qed.

(** C6, amended.  For every speech-family bubble the safe text zone is
    the fixed-padding zone, ten units inside the bubble on every side,
    the same rectangle as for a descriptive or text-only bubble of that
    size; the factors of [SAFE_TEXT_ZONES] are used for Shout and Thought
    only. *)
Theorem speech_zone_is_fixed_padding (b : Bubble) :
  isSpeechFamily (type b) = true ->
  getTextBounds b
  = {| rx := 10; ry := 10;
       rwidth := width b - 10 * 2; rheight := height b - 10 * 2 |}
  /\ forall b' : Bubble,
       (type b' = Descriptive \/ type b' = TextOnly) ->
       width b' = width b -> height b' = height b ->
       getTextBounds b' = getTextBounds b.
Proof.
  intros Hty. split.
  - unfold getTextBounds. destruct (type b); simpl in Hty; try discriminate; reflexivity.
  - intros b' Hd Hw Hh. unfold getTextBounds. rewrite Hw, Hh.
    destruct (type b); simpl in Hty; try discriminate;
      destruct Hd as [-> | ->]; reflexivity.
Qed.

Lemma speech_zone_is_fixed_padding_witness :
  isSpeechFamily (type smallSpeech) = true
  /\ getTextBounds smallSpeech
     = {| rx := 10; ry := 10; rwidth := 60 - 10 * 2; rheight := 40 - 10 * 2 |}.
Proof.
  split; [reflexivity|].
  exact (proj1 (speech_zone_is_fixed_padding smallSpeech eq_refl)).
Defined.

(** Shout and Thought do use their factors. *)
Lemma shout_thought_zone_is_fraction (b : Bubble) :
  type b = Shout \/ type b = Thought ->
  rwidth (getTextBounds b) = width b * widthFactor (SAFE_TEXT_ZONES (type b))
  /\ rheight (getTextBounds b) = height b * heightFactor (SAFE_TEXT_ZONES (type b)).
Proof.
  intros [H | H]; unfold getTextBounds; rewrite H; split; reflexivity.
Qed.

End SafeZone.

(** ** Line wrapping *)

Section Wrapping.
Import RichText Examples Notions.

Variable ctx : Canvas.
Variable defaultStyle : TextStyle.
Variable width : Q.
Variable getMaxWidthAtY : option (Q -> Q).
Variable font : string.

Local Abbreviation placeWord := (placeWord ctx defaultStyle width getMaxWidthAtY font).
Local Abbreviation wrapLoop := (wrapLoop ctx defaultStyle width getMaxWidthAtY font).
Local Abbreviation wrapLines := (wrapLines ctx defaultStyle width getMaxWidthAtY font).
Local Abbreviation closeLine := (closeLine defaultStyle).

Lemma wordsOfLines_app (l1 l2 : list TextLine) :
  wordsOfLines (l1 ++ l2) = (wordsOfLines l1 ++ wordsOfLines l2)%list.
Proof. unfold wordsOfLines. apply flat_map_app. Qed.

(** Closing a line moves no word. *)
Lemma closeLine_words (st : WrapState) : stateWords (closeLine st) = stateWords st.
Proof.
  unfold stateWords, closeLine. simpl. rewrite wordsOfLines_app. simpl.
  rewrite !app_nil_r. reflexivity.
Qed.

(** Whatever line is closed, the cursor advances by the default font
    size: the height that the source reads is the one of the new, empty
    line, which is 0, so the [||] always takes its right operand. *)
Lemma closeLine_advance (st : WrapState) :
  currentY (closeLine st) = currentY st + ts_fontSize defaultStyle.
Proof. reflexivity. Qed.

(** When the word does not fit and the line is not empty, the line is
    closed: it is pushed to the output, the word starts a new line, and the
    cursor advances by the default font size, whatever the height of the
    line that was closed. *)
Lemma placeWord_closes (seg : TextSegment) (st : WrapState) (word : string) :
  JS.gt (line_width (currentLine st) + ctx font (word ++ " "))
        (match getMaxWidthAtY with Some f => f (currentY st) | None => width end)
  && (0 <? List.length (segments (currentLine st)))%nat = true ->
  lines (placeWord seg st word) = (lines st ++ [currentLine st])%list
  /\ lineWords (currentLine (placeWord seg st word)) = [word]
  /\ line_width (currentLine (placeWord seg st word)) = 0 + ctx font (word ++ " ")
  /\ currentY (placeWord seg st word) = currentY st + ts_fontSize defaultStyle.
Proof.
  intros Hc. unfold RichText.placeWord. cbv zeta. rewrite Hc.
  repeat split.
Qed.

(** Otherwise the word joins the line being filled and the cursor stays. *)
Lemma placeWord_joins (seg : TextSegment) (st : WrapState) (word : string) :
  JS.gt (line_width (currentLine st) + ctx font (word ++ " "))
        (match getMaxWidthAtY with Some f => f (currentY st) | None => width end)
  && (0 <? List.length (segments (currentLine st)))%nat = false ->
  lines (placeWord seg st word) = lines st
  /\ lineWords (currentLine (placeWord seg st word))
     = (lineWords (currentLine st) ++ [word])%list
  /\ currentY (placeWord seg st word) = currentY st.
Proof.
  intros Hc. unfold RichText.placeWord. cbv zeta. rewrite Hc.
  repeat split. unfold lineWords. simpl. rewrite map_app. reflexivity.
Qed.

(** A word is put at the end of the line being filled, after the line
    has been closed or not. *)
Lemma placeWord_words (seg : TextSegment) (st : WrapState) (word : string) :
  stateWords (placeWord seg st word) = (stateWords st ++ [word])%list.
Proof.
  unfold RichText.placeWord. cbv zeta.
  match goal with
  | |- context [if ?c then closeLine st else st] =>
      assert (Hst' : stateWords (if c then closeLine st else st) = stateWords st)
        by (destruct c; [apply closeLine_words | reflexivity]);
      generalize dependent (if c then closeLine st else st)
  end.
  intros st' Hst'. rewrite <- Hst'. unfold stateWords, lineWords. simpl.
  rewrite map_app. simpl. rewrite app_assoc. reflexivity.
Qed.

Lemma placeWords_words (seg : TextSegment) (words : list string) (st : WrapState) :
  stateWords (fold_left (placeWord seg) words st) = (stateWords st ++ words)%list.
Proof.
  revert st. induction words as [|w ws IH]; intros st; simpl.
  - rewrite app_nil_r. reflexivity.
  - rewrite IH, placeWord_words, <- app_assoc. reflexivity.
Qed.

(** Without a forced break the loop runs to its end, and the state then
    holds the words of the segments, in order. *)
Lemma wrapLoop_without_break (segs : list TextSegment) (st : WrapState) :
  noForcedBreak segs ->
  exists st', wrapLoop segs st = Finished st'
              /\ stateWords st' = (stateWords st ++ wordsOfSegments segs)%list.
Proof.
  intros Hno. revert st. induction Hno as [|seg segs Hseg Hno IH]; intros st.
  - exists st. simpl. rewrite app_nil_r. split; reflexivity.
  - simpl. rewrite Hseg.
    destruct (IH (fold_left (placeWord seg) (JS.splitWs (seg_text seg)) st))
      as (st' & Hrun & Hwords).
    exists st'. split; [exact Hrun|].
    rewrite Hwords, placeWords_words, <- app_assoc. reflexivity.
Qed.

(** Wrapping is complete on a sequence without forced break: the words
    of the lines, in order, are the words of the segments. *)
Lemma wrapLines_complete_without_break (segs : list TextSegment) :
  noForcedBreak segs ->
  exists ls, wrapLines segs = Laid ls /\ wordsOfLines ls = wordsOfSegments segs.
Proof.
  intros Hno. unfold RichText.wrapLines.
  destruct (wrapLoop_without_break segs initialState Hno) as (st & Hrun & Hwords).
  rewrite Hrun. eexists. split; [reflexivity|].
  simpl in Hwords. rewrite <- Hwords. unfold stateWords.
  destruct (segments (currentLine st)) eqn:E; simpl.
  - unfold lineWords. rewrite E. simpl. rewrite app_nil_r. reflexivity.
  - rewrite wordsOfLines_app. unfold wordsOfLines at 2. simpl.
    rewrite app_nil_r. reflexivity.
Qed.

(** At the first forced break the loop is left by [return]: the words
    after it are in no line, and no line is handed to the drawing step. *)
Lemma wrapLines_abandoned_at_break (pre post : list TextSegment) (br : TextSegment) :
  noForcedBreak pre ->
  seg_text br = newline ->
  exists st, wrapLines (pre ++ br :: post) = Abandoned st
             /\ stateWords st = wordsOfSegments pre.
Proof.
  intros Hno Hbr. unfold RichText.wrapLines.
  assert (H : forall st0, exists st,
             wrapLoop (pre ++ br :: post) st0 = Returned st
             /\ stateWords st = (stateWords st0 ++ wordsOfSegments pre)%list).
  { induction Hno as [|seg segs Hseg Hno IH]; intros st0.
    - exists (closeLine st0). simpl. rewrite Hbr, String.eqb_refl.
      rewrite closeLine_words, app_nil_r. split; reflexivity.
    - simpl. rewrite Hseg.
      destruct (IH (fold_left (placeWord seg) (JS.splitWs (seg_text seg)) st0))
        as (st & Hrun & Hwords).
      exists st. split; [exact Hrun|].
      rewrite Hwords, placeWords_words, <- app_assoc. reflexivity. }
  destruct (H initialState) as (st & Hrun & Hwords).
  rewrite Hrun. exists st. split; [reflexivity | exact Hwords].
Qed.

End Wrapping.

Section WrappingExamples.
Import RichText Examples Notions.

(** C3, evaluated where the code departs from it.  The markup
    [a<br>b] parses into the word [a], a forced break and the word [b];
    on the forced break [drawRichText] returns from inside its wrapping
    loop.  The only line built by then holds [a]; the word [b] is in no
    line, and no line reaches the drawing step. *)
Theorem forced_break_abandons_wrapping (host : Host) :
  map seg_text (parseRichText "a<br>b" (plainStyle 10)) = ["a"; newline; "b"]
  /\ wordsOfSegments (parseRichText "a<br>b" (plainStyle 10)) = ["a"; "b"]
  /\ exists st,
       drawRichText_layout host fiftyCanvas noFontMap (plainStyle 10) 60 None
         "10px sans-serif" "a<br>b" = Abandoned st
       /\ wordsOfLines (lines st) = ["a"]
       /\ segments (currentLine st) = [].
Proof.
  split; [reflexivity|]. split; [reflexivity|].
  eexists. split; [vm_compute; reflexivity|]. split; reflexivity.
Qed.

End WrappingExamples.

(** ** The font-size search *)

Section FontFit.
Import TextAutoFit Examples Notions.

Variable host : Host.
Variable getContext : option Canvas.

Local Abbreviation measureText := (measureText host getContext).
Local Abbreviation searchLoop := (searchLoop host getContext).
Local Abbreviation calculateOptimalFontSize := (calculateOptimalFontSize host getContext).
Local Abbreviation autoFitted := (autoFitted host getContext).
Local Abbreviation autoFitBubbleText := (autoFitBubbleText host getContext).

(** One turn of the loop. *)
Lemma searchLoop_step (text fontFamily : string) (textBounds : Rect)
      (target minFontSize : Q) (n : nat) (fs : Q) :
  searchLoop text fontFamily textBounds target minFontSize (S n) fs
  = if JS.ge fs minFontSize then
      if fitsBounds (measureText text fontFamily fs (rwidth textBounds)) textBounds
      then Some {| fit_fontSize := fs;
                   textWidth := d_width (measureText text fontFamily fs (rwidth textBounds));
                   textHeight := d_height (measureText text fontFamily fs (rwidth textBounds));
                   fits := true;
                   scaleFactor := fs / target |}
      else searchLoop text fontFamily textBounds target minFontSize n
             (Qmax minFontSize (fs - 1))
    else None.
Proof. reflexivity. Qed.

(** The sizes tried by the loop never go up and never go below the
    minimum: a result returned from inside the loop has a size between
    [minFontSize] and the starting size, and the block measured at that
    size fits the bounds. *)
Lemma searchLoop_some (text fontFamily : string) (textBounds : Rect)
      (target minFontSize : Q) (n : nat) (fs : Q) (result : TextFitResult) :
  searchLoop text fontFamily textBounds target minFontSize n fs = Some result ->
  minFontSize <= fit_fontSize result
  /\ fit_fontSize result <= fs
  /\ fits result = true
  /\ scaleFactor result = fit_fontSize result / target
  /\ fitsBounds (measureText text fontFamily (fit_fontSize result) (rwidth textBounds))
       textBounds = true.
Proof.
  revert fs. induction n as [|n IH]; intros fs H; [discriminate|].
  rewrite searchLoop_step in H.
  destruct (JS.ge fs minFontSize) eqn:Hge; [|discriminate].
  apply Qle_bool_iff in Hge.
  destruct (fitsBounds (measureText text fontFamily fs (rwidth textBounds)) textBounds)
    eqn:Hfit.
  - injection H as <-. simpl. repeat split; try assumption. apply Qle_refl.
  - destruct (IH _ H) as (H1 & H2 & H3). repeat split; try apply H3; [exact H1|].
    eapply Qle_trans; [exact H2|].
    apply Q.max_lub; [exact Hge|]. lra.
Qed.

(** The loop returns at once at a size that passes its guard and fits. *)
Lemma searchLoop_fits_now (text fontFamily : string) (textBounds : Rect)
      (target minFontSize : Q) (n : nat) (fs : Q) :
  minFontSize <= fs ->
  fitsBounds (measureText text fontFamily fs (rwidth textBounds)) textBounds = true ->
  exists result,
    searchLoop text fontFamily textBounds target minFontSize (S n) fs = Some result
    /\ fit_fontSize result = fs.
Proof.
  intros Hge Hfit. rewrite searchLoop_step.
  apply Qle_bool_iff in Hge. unfold JS.ge. rewrite Hge, Hfit.
  eexists. split; reflexivity.
Qed.

(** Started at the default minimum, the loop stays there. *)
Lemma searchLoop_at_minimum (text fontFamily : string) (textBounds : Rect)
      (target : Q) (n : nat) (result : TextFitResult) :
  searchLoop text fontFamily textBounds target defaultMinFontSize n defaultMinFontSize
  = Some result ->
  fit_fontSize result = defaultMinFontSize.
Proof.
  induction n as [|n IH]; intros H; [discriminate|].
  rewrite searchLoop_step in H.
  destruct (JS.ge _ _); [|discriminate].
  destruct (fitsBounds _ textBounds).
  - injection H as <-. reflexivity.
  - apply IH. exact H.
Qed.

(** The result's scale factor is its size over the bubble's size, on
    both ways out of the function. *)
Lemma calculateOptimalFontSize_scaleFactor (text : string) (bubble : Bubble)
      (fontFamily : string) (minFontSize maxFontSize : Q) :
  let result := calculateOptimalFontSize text bubble fontFamily minFontSize maxFontSize in
  scaleFactor result = fit_fontSize result / fontSize bubble.
Proof.
  unfold TextAutoFit.calculateOptimalFontSize.
  destruct (searchLoop _ _ _ _ _ _ _) eqn:H; simpl; [|reflexivity].
  apply searchLoop_some in H. apply H.
Qed.

(** The two ways out of the function: from inside the loop, with a size
    that fits in width and height, or after it, at the minimum size and
    with a flag that looks at the height only. *)
Lemma calculateOptimalFontSize_cases (text : string) (bubble : Bubble)
      (fontFamily : string) (minFontSize maxFontSize : Q) :
  let result := calculateOptimalFontSize text bubble fontFamily minFontSize maxFontSize in
  let textBounds := getTextBounds bubble in
  let block := measureText text fontFamily (fit_fontSize result) (rwidth textBounds) in
  (fits result = true /\ fitsBounds block textBounds = true
   /\ minFontSize <= fit_fontSize result
   /\ fit_fontSize result <= Qmin (fontSize bubble) maxFontSize)
  \/ (fit_fontSize result = minFontSize
      /\ fits result = JS.le (d_height block) (rheight textBounds)).
Proof.
  unfold TextAutoFit.calculateOptimalFontSize.
  destruct (searchLoop _ _ _ _ _ _ _) eqn:H; simpl.
  - left. apply searchLoop_some in H. intuition.
  - right. split; reflexivity.
Qed.

(** *** autoFitBubbleText *)

Lemma skipsAutoFit_withFontSize (b : Bubble) (v : Q) :
  skipsAutoFit (withFontSize b v) = skipsAutoFit b.
Proof. reflexivity. Qed.

Lemma getTextBounds_withFontSize (b : Bubble) (v : Q) :
  getTextBounds (withFontSize b v) = getTextBounds b.
Proof. reflexivity. Qed.

Lemma Qmin_left (a b : Q) : a <= b -> Qmin a b = a.
Proof.
  intros H. unfold Qmin, GenericMinMax.gmin.
  destruct (a ?= b) eqn:E; try reflexivity.
  apply Qgt_alt in E. exfalso. exact (Qlt_not_le _ _ E H).
Qed.

(** The size found for a bubble is found again for the same bubble set
    to that size. *)
Lemma calculateOptimalFontSize_stable (b : Bubble) (fontFamily : string) (v : Q) :
  v = fit_fontSize (calculateOptimalFontSize (text b) b fontFamily
                      defaultMinFontSize defaultMaxFontSize) ->
  fit_fontSize (calculateOptimalFontSize (text b) (withFontSize b v) fontFamily
                  defaultMinFontSize defaultMaxFontSize) = v.
Proof.
  intros Hv. unfold TextAutoFit.calculateOptimalFontSize in Hv.
  unfold TextAutoFit.calculateOptimalFontSize.
  rewrite getTextBounds_withFontSize. simpl fontSize.
  destruct (searchLoop (text b) fontFamily (getTextBounds b) (fontSize b)
              defaultMinFontSize maxIterations
              (Qmin (fontSize b) defaultMaxFontSize)) as [found|] eqn:H.
  - apply searchLoop_some in H. destruct H as (Hmin & Hle & _ & _ & Hfit).
    rewrite <- Hv in Hmin, Hle, Hfit.
    rewrite Qmin_left
      by (eapply Qle_trans; [exact Hle | apply Q.le_min_r]).
    destruct (searchLoop_fits_now (text b) fontFamily (getTextBounds b)
                v defaultMinFontSize 19 v Hmin Hfit)
      as (result & Hrun & Hsize).
    unfold maxIterations. rewrite Hrun. exact Hsize.
  - simpl in Hv. subst v.
    change (Qmin defaultMinFontSize defaultMaxFontSize) with defaultMinFontSize.
    destruct (searchLoop (text b) fontFamily (getTextBounds b) defaultMinFontSize
                defaultMinFontSize maxIterations defaultMinFontSize) eqn:H2.
    + apply searchLoop_at_minimum in H2. exact H2.
    + reflexivity.
Qed.

(** As a function of the bubble it is given, [autoFitBubbleText] is
    idempotent. *)
Lemma autoFitted_idempotent (b : Bubble) (fontFamily : string) :
  autoFitted (autoFitted b fontFamily) fontFamily = autoFitted b fontFamily.
Proof.
  set (v := fit_fontSize (calculateOptimalFontSize (text b) b fontFamily
                            defaultMinFontSize defaultMaxFontSize)).
  assert (Hcases : autoFitted b fontFamily = b
                   \/ (skipsAutoFit b = false
                       /\ autoFitted b fontFamily = withFontSize b v)).
  { unfold TextAutoFit.autoFitted. fold v.
    destruct (skipsAutoFit b); [left; reflexivity|].
    destruct (Qeq_bool v (fontSize b)); [left; reflexivity|].
    right. split; reflexivity. }
  destruct Hcases as [H | (Hskip & H)]; rewrite H; [exact H|].
  unfold TextAutoFit.autoFitted.
  rewrite skipsAutoFit_withFontSize, Hskip. simpl text.
  rewrite (calculateOptimalFontSize_stable b fontFamily v eq_refl).
  simpl fontSize. rewrite (Qeq_bool_refl v). reflexivity.
Qed.

Lemma deref_alloc_old (sigma : Store) (b : Bubble) (k : Ref) (bk : Bubble) :
  deref sigma k = Some bk -> deref (fst (alloc sigma b)) k = Some bk.
Proof.
  unfold deref, alloc. simpl. intros H. rewrite nth_error_app1; [exact H|].
  apply nth_error_Some. rewrite H. discriminate.
Qed.

Lemma deref_alloc_new (sigma : Store) (b : Bubble) :
  deref (fst (alloc sigma b)) (snd (alloc sigma b)) = Some b.
Proof.
  unfold deref, alloc. simpl. rewrite nth_error_app2 by apply Nat.le_refl.
  rewrite Nat.sub_diag. reflexivity.
Qed.

(** The object denoted by the reference that [autoFitBubbleText]
    returns. *)
Lemma autoFitBubbleText_denotes (sigma : Store) (l : Ref) (fontFamily : string)
      (b : Bubble) :
  deref sigma l = Some b ->
  exists sigma1 l1,
    autoFitBubbleText sigma l fontFamily = Some (sigma1, l1)
    /\ deref sigma1 l1 = Some (autoFitted b fontFamily)
    /\ (forall k bk, deref sigma k = Some bk -> deref sigma1 k = Some bk)
    /\ ((sigma1 = sigma /\ l1 = l /\ autoFitted b fontFamily = b)
        \/ (sigma1 = (sigma ++ [autoFitted b fontFamily])%list
            /\ l1 = List.length sigma
            /\ ~ fontSize (autoFitted b fontFamily) == fontSize b)).
Proof.
  intros Hb. unfold TextAutoFit.autoFitBubbleText, TextAutoFit.autoFitted. rewrite Hb.
  destruct (skipsAutoFit b).
  { exists sigma, l. repeat split; auto. }
  destruct (Qeq_bool _ (fontSize b)) eqn:Heq.
  { exists sigma, l. repeat split; auto. }
  eexists _, _. split; [reflexivity|]. split; [apply deref_alloc_new|].
  split; [intros k bk Hk; apply deref_alloc_old; exact Hk|].
  right. repeat split. simpl. intros H. apply Qeq_bool_iff in H.
  rewrite H in Heq. discriminate.
Qed.

(** C5.  [autoFitBubbleText] writes to no object: every object of the
    store, the argument included, is after the call what it was before;
    when the font size changes, the result is a newly allocated copy.
    And it is idempotent: applied to its own result it returns that same
    object, and allocates nothing. *)
Theorem autoFitBubbleText_idempotent_without_mutation
        (sigma : Store) (l : Ref) (fontFamily : string) (b : Bubble) :
  deref sigma l = Some b ->
  exists sigma1 l1,
    autoFitBubbleText sigma l fontFamily = Some (sigma1, l1)
    /\ (forall k bk, deref sigma k = Some bk -> deref sigma1 k = Some bk)
    /\ deref sigma1 l = Some b
    /\ ((sigma1 = sigma /\ l1 = l)
        \/ (l1 = List.length sigma /\ deref sigma l1 = None
            /\ exists v, deref sigma1 l1 = Some (withFontSize b v)
                         /\ ~ v == fontSize b))
    /\ autoFitBubbleText sigma1 l1 fontFamily = Some (sigma1, l1)
    /\ autoFitted (autoFitted b fontFamily) fontFamily = autoFitted b fontFamily.
Proof.
  intros Hb.
  destruct (autoFitBubbleText_denotes sigma l fontFamily b Hb)
    as (sigma1 & l1 & Hrun & Hden & Hkeep & Hcase).
  exists sigma1, l1. split; [exact Hrun|]. split; [exact Hkeep|].
  split; [apply Hkeep; exact Hb|]. split.
  - destruct Hcase as [(-> & -> & _) | (Hs & -> & Hne)]; [left; split; reflexivity|].
    right. split; [reflexivity|]. split.
    + apply nth_error_None. apply Nat.le_refl.
    + revert Hden Hne. unfold TextAutoFit.autoFitted.
      destruct (skipsAutoFit b); [intros _ Hne; exfalso; apply Hne; reflexivity|].
      destruct (Qeq_bool _ (fontSize b)); [intros _ Hne; exfalso; apply Hne; reflexivity|].
      intros Hden Hne. eexists. split; [exact Hden | exact Hne].
  - split; [|apply autoFitted_idempotent].
    destruct (autoFitBubbleText_denotes sigma1 l1 fontFamily _ Hden)
      as (sigma2 & l2 & Hrun2 & _ & _ & Hcase2).
    rewrite Hrun2.
    destruct Hcase2 as [(-> & -> & _) | (_ & _ & Hne)]; [reflexivity|].
    exfalso. apply Hne. rewrite autoFitted_idempotent. reflexivity.
Qed.

End FontFit.

(** ** Monotonicity of the fit in the size of the bubble *)

Section StringFacts.

Lemma truthy_append_r (p s : string) : JS.truthy s = true -> JS.truthy (p ++ s) = true.
Proof. destruct p; simpl; [intros H; exact H | reflexivity]. Qed.

Lemma truthy_false (s : string) : JS.truthy s = false -> s = "".
Proof. destruct s; [reflexivity | discriminate]. Qed.

Lemma length_append (a b : string) :
  String.length (a ++ b) = (String.length a + String.length b)%nat.
Proof. induction a as [|x a IH]; simpl; [reflexivity | rewrite IH; reflexivity]. Qed.

End StringFacts.

Section GreedyWrap.
Import TextAutoFit Notions.

Variable measure : string -> Q.
Hypothesis measure_piece : forall p t s : string, measure t <= measure (p ++ t ++ s).
Variables W1 W2 : Q.
Hypothesis W1_le_W2 : W1 <= W2.

Lemma measure_end (p t : string) : measure t <= measure (p ++ t).
Proof. rewrite <- (string_app_nil_r t) at 2. apply measure_piece. Qed.

Lemma measure_start (t s : string) : measure t <= measure (t ++ s).
Proof. apply (measure_piece "" t s). Qed.

Lemma gt_false (a b : Q) : JS.gt a b = false <-> a <= b.
Proof.
  unfold JS.gt. rewrite negb_false_iff. apply Qle_bool_iff.
Qed.

Lemma addWord_eq (W : Q) (ls : list string) (cur word : string) :
  addWord measure W (ls, cur) word
  = if JS.gt (measure (testLine cur word)) W
    then ((if JS.truthy cur then (ls ++ [cur])%list else ls), word)
    else (ls, testLine cur word).
Proof. reflexivity. Qed.

(** If the current line of run 2 is an end of that of run 1, so is the
    line it tries. *)
Lemma testLine_end (p c2 word : string) :
  exists p', testLine (p ++ c2) word = p' ++ testLine c2 word.
Proof.
  unfold TextAutoFit.testLine. destruct (JS.truthy c2) eqn:H2.
  - rewrite (truthy_append_r p c2 H2). exists p. apply string_app_assoc.
  - apply truthy_false in H2. subst c2. rewrite string_app_nil_r.
    destruct (JS.truthy p).
    + exists (p ++ " "). symmetry. apply string_app_assoc.
    + exists "". reflexivity.
Qed.

Lemma testLine_word_end (cur word : string) :
  exists p', testLine cur word = p' ++ word.
Proof.
  unfold TextAutoFit.testLine. destruct (JS.truthy cur).
  - exists (cur ++ " "). rewrite string_app_assoc. reflexivity.
  - exists "". reflexivity.
Qed.

Lemma testLine_truthy (cur word : string) :
  JS.truthy cur = true -> JS.truthy (testLine cur word) = true.
Proof.
  intros H. unfold TextAutoFit.testLine. rewrite H. destruct cur; [discriminate | reflexivity].
Qed.

(** One word keeps run 2 ahead of run 1. *)
Lemma ahead_step (word : string) (st1 st2 : list string * string) :
  ahead st2 st1 -> ahead (addWord measure W2 st2 word) (addWord measure W1 st1 word).
Proof.
  destruct st1 as [ls1 c1], st2 as [ls2 c2]. rewrite !addWord_eq.
  unfold ahead. simpl fst. simpl snd. intros [Hlt | (Heq & p & Hp)].
  - (* run 2 had closed fewer lines *)
    destruct (JS.gt (measure (testLine c1 word)) W1);
      destruct (JS.gt (measure (testLine c2 word)) W2);
      simpl fst; simpl snd;
      destruct (JS.truthy c1); destruct (JS.truthy c2);
      rewrite ?length_app; simpl List.length;
      try (left; lia);
      try (destruct (Nat.eq_dec (List.length ls2 + 1) (List.length ls1));
           [right; split; [lia|] | left; lia]);
      try (exists ""; reflexivity);
      apply testLine_word_end.
  - (* as many lines, and [c1 = p ++ c2] *)
    subst c1. destruct (testLine_end p c2 word) as (p' & Hp').
    destruct (JS.gt (measure (testLine (p ++ c2) word)) W1) eqn:G1.
    + destruct (JS.gt (measure (testLine c2 word)) W2) eqn:G2; simpl fst; simpl snd.
      * destruct (JS.truthy c2) eqn:T2.
        -- rewrite (truthy_append_r p c2 T2). right.
           rewrite !length_app. simpl. split; [lia | exists ""; reflexivity].
        -- destruct (JS.truthy (p ++ c2)).
           ++ left. rewrite length_app. simpl. lia.
           ++ right. split; [exact Heq | exists ""; reflexivity].
      * destruct (JS.truthy (p ++ c2)) eqn:T1.
        -- left. rewrite length_app. simpl. lia.
        -- right. split; [exact Heq|].
           apply truthy_false in T1. destruct p; [|discriminate].
           simpl in T1. subst c2. exists "". reflexivity.
    + assert (G2 : JS.gt (measure (testLine c2 word)) W2 = false).
      { apply gt_false. apply gt_false in G1.
        eapply Qle_trans; [|exact W1_le_W2].
        eapply Qle_trans; [|exact G1]. rewrite Hp'. apply measure_end. }
      rewrite G2. simpl fst. simpl snd. right. split; [exact Heq|].
      exists p'. exact Hp'.
Qed.

Lemma flush_eq (ls : list string) (cur : string) :
  flush (ls, cur) = if JS.truthy cur then (ls ++ [cur])%list else ls.
Proof. reflexivity. Qed.

Lemma In_flush (ls : list string) (cur l : string) :
  In l (flush (ls, cur)) <-> In l ls \/ (JS.truthy cur = true /\ l = cur).
Proof.
  rewrite flush_eq. destruct (JS.truthy cur).
  - rewrite in_app_iff. simpl. intuition.
  - intuition. discriminate.
Qed.

(** Run 1 loses no line: after one more word each of its lines is still
    there, or has grown. *)
Lemma flush_grows (W : Q) (word : string) (st1 : list string * string) (l1 : string) :
  In l1 (flush st1) ->
  exists l1', In l1' (flush (addWord measure W st1 word)) /\ measure l1 <= measure l1'.
Proof.
  destruct st1 as [ls1 c1]. rewrite addWord_eq. intros Hin.
  apply In_flush in Hin.
  destruct (JS.gt (measure (testLine c1 word)) W).
  - exists l1. split; [|apply Qle_refl]. apply In_flush. left.
    destruct Hin as [Hin | (T & ->)].
    + destruct (JS.truthy c1); [apply in_app_iff; left|]; exact Hin.
    + rewrite T. apply in_app_iff. right. left. reflexivity.
  - destruct Hin as [Hin | (T & ->)].
    + exists l1. split; [|apply Qle_refl]. apply In_flush. left. exact Hin.
    + exists (testLine c1 word). split.
      * apply In_flush. right. split; [apply testLine_truthy; exact T | reflexivity].
      * unfold TextAutoFit.testLine. rewrite T. apply measure_start.
Qed.

(** The word just read is in the current line of run 1. *)
Lemma flush_has_word (W : Q) (word : string) (st1 : list string * string) :
  JS.truthy word = true ->
  exists l1', In l1' (flush (addWord measure W st1 word)) /\ measure word <= measure l1'.
Proof.
  destruct st1 as [ls1 c1]. rewrite addWord_eq. intros T.
  destruct (JS.gt (measure (testLine c1 word)) W).
  - exists word. split; [|apply Qle_refl]. apply In_flush. right. split; [exact T | reflexivity].
  - exists (testLine c1 word). split.
    + apply In_flush. right. split; [|reflexivity].
      destruct (testLine_word_end c1 word) as (p' & ->).
      apply truthy_append_r. exact T.
    + destruct (testLine_word_end c1 word) as (p' & ->). apply measure_end.
Qed.

(** One word keeps the lines of run 2 dominated. *)
Lemma dominated_step (word : string) (st1 st2 : list string * string) :
  dominated measure W2 st2 st1 ->
  dominated measure W2 (addWord measure W2 st2 word) (addWord measure W1 st1 word).
Proof.
  intros Hdom l2 Hin.
  assert (Hold : In l2 (flush st2) ->
                 measure l2 <= W2
                 \/ exists l1', In l1' (flush (addWord measure W1 st1 word))
                                /\ measure l2 <= measure l1').
  { intros Hin2. destruct (Hdom l2 Hin2) as [H | (l1 & Hl1 & Hle)]; [left; exact H|].
    right. destruct (flush_grows W1 word st1 l1 Hl1) as (l1' & Hl1' & Hle').
    exists l1'. split; [exact Hl1' | eapply Qle_trans; eassumption]. }
  destruct st2 as [ls2 c2]. rewrite addWord_eq in Hin.
  destruct (JS.gt (measure (testLine c2 word)) W2) eqn:G2.
  - apply In_flush in Hin. destruct Hin as [Hin | (T & ->)].
    + apply Hold. rewrite flush_eq. exact Hin.
    + right. apply flush_has_word. exact T.
  - apply In_flush in Hin. destruct Hin as [Hin | (T & ->)].
    + apply Hold. apply In_flush. left. exact Hin.
    + left. apply gt_false. exact G2.
Qed.

Lemma runs_related (words : list string) (st1 st2 : list string * string) :
  ahead st2 st1 -> dominated measure W2 st2 st1 ->
  ahead (fold_left (addWord measure W2) words st2)
        (fold_left (addWord measure W1) words st1)
  /\ dominated measure W2 (fold_left (addWord measure W2) words st2)
                          (fold_left (addWord measure W1) words st1).
Proof.
  revert st1 st2. induction words as [|w ws IH]; intros st1 st2 Ha Hd; simpl.
  - split; assumption.
  - apply IH; [apply ahead_step | apply dominated_step]; assumption.
Qed.

Lemma ahead_flush_length (st1 st2 : list string * string) :
  ahead st2 st1 -> (List.length (flush st2) <= List.length (flush st1))%nat.
Proof.
  destruct st1 as [ls1 c1], st2 as [ls2 c2]. rewrite !flush_eq.
  unfold ahead. simpl fst. simpl snd. intros [Hlt | (Heq & p & ->)].
  - destruct (JS.truthy c1); destruct (JS.truthy c2);
      rewrite ?length_app; simpl; lia.
  - destruct (JS.truthy c2) eqn:T2.
    + rewrite (truthy_append_r p c2 T2). rewrite !length_app. simpl. lia.
    + destruct (JS.truthy (p ++ c2)); rewrite ?length_app; simpl; lia.
Qed.

(** Greedy wrapping against a larger width: no more lines, and if every
    line was within the smaller width, every line is within the larger. *)
Lemma wrapWords_wider (words : list string) :
  (List.length (wrapWords measure W2 words)
   <= List.length (wrapWords measure W1 words))%nat
  /\ (Forall (fun l => measure l <= W1) (wrapWords measure W1 words) ->
      Forall (fun l => measure l <= W2) (wrapWords measure W2 words)).
Proof.
  unfold wrapWords.
  destruct (runs_related words ([], "") ([], "")) as (Ha & Hd).
  { right. split; [reflexivity | exists ""; reflexivity]. }
  { intros l2 Hin. destruct Hin. }
  split; [apply ahead_flush_length; exact Ha|].
  intros H1. apply Forall_forall. intros l2 Hin.
  destruct (Hd l2 Hin) as [H | (l1 & Hl1 & Hle)]; [exact H|].
  eapply Qle_trans; [exact Hle|]. eapply Qle_trans; [|exact W1_le_W2].
  rewrite Forall_forall in H1. apply H1. exact Hl1.
Qed.

End GreedyWrap.

Section FitMonotone.
Import TextAutoFit Examples Notions.

Variable host : Host.
Variable getContext : option Canvas.
Hypothesis metrics_monotone :
  forall ctx : Canvas, getContext = Some ctx -> monotoneMetrics ctx.

Lemma xle_fold_xmax (ws : list Q) (a : xnum) (W : Q) :
  xle (fold_left xmax ws a) W = true
  <-> xle a W = true /\ Forall (fun w => w <= W) ws.
Proof.
  revert a. induction ws as [|w ws IH]; intros a; simpl.
  - split; [intros H; split; [exact H | constructor] | intros (H & _); exact H].
  - rewrite IH. split.
    + intros (Ha & Hws). destruct a as [|q]; simpl in *.
      * split; [reflexivity|]. constructor; [apply Qle_bool_iff; exact Ha | exact Hws].
      * apply Qle_bool_iff in Ha. split.
        -- apply Qle_bool_iff. eapply Qle_trans; [apply Q.le_max_l | exact Ha].
        -- constructor; [eapply Qle_trans; [apply Q.le_max_r | exact Ha] | exact Hws].
    + intros (Ha & Hws). inversion Hws as [|w' ws' Hw Hws']; subst.
      split; [|exact Hws']. destruct a as [|q]; simpl in *.
      * apply Qle_bool_iff. exact Hw.
      * apply Qle_bool_iff. apply Qle_bool_iff in Ha. apply Q.max_lub; assumption.
Qed.

(** The widest line is within [W] exactly when every line is. *)
Lemma xle_maxOf (measure : string -> Q) (ls : list string) (W : Q) :
  xle (maxOf (map measure ls)) W = true <-> Forall (fun l => measure l <= W) ls.
Proof.
  unfold maxOf. rewrite xle_fold_xmax. rewrite Forall_map. simpl. intuition.
Qed.

(** At a given non-negative font size, a block that fits some bounds
    fits all wider and taller bounds. *)
Lemma fitsBounds_wider (text fontFamily : string) (fs : Q) (B1 B2 : Rect) :
  0 <= fs -> rwidth B1 <= rwidth B2 -> rheight B1 <= rheight B2 ->
  fitsBounds (measureText host getContext text fontFamily fs (rwidth B1)) B1 = true ->
  fitsBounds (measureText host getContext text fontFamily fs (rwidth B2)) B2 = true.
Proof.
  intros Hfs HW HH. unfold fitsBounds, measureText.
  destruct getContext as [ctx|] eqn:Hctx; simpl d_height; simpl d_width.
  - set (m := ctx (numberToString host fs ++ "px " ++ fontFamily)).
    set (words := JS.splitWs (JS.stripTags text)).
    destruct (wrapWords_wider m (metrics_monotone ctx eq_refl _)
                (rwidth B1) (rwidth B2) HW words) as (Hlen & Hwid).
    rewrite !andb_true_iff. unfold JS.le. rewrite !Qle_bool_iff, !xle_maxOf.
    intros (Hh & Hw). split; [|apply Hwid; exact Hw].
    eapply Qle_trans; [|exact HH]. eapply Qle_trans; [|exact Hh].
    apply Qmult_le_compat_r.
    + rewrite <- Zle_Qle. apply Nat2Z.inj_le. exact Hlen.
    + apply Qmult_le_0_compat; [exact Hfs | discriminate].
  - rewrite !andb_true_iff. unfold JS.le. simpl. rewrite !Qle_bool_iff.
    intros (Hh & _). split; [|apply Qle_refl].
    eapply Qle_trans; eassumption.
Qed.

(** The two searches run side by side, from the same size: the one in
    the larger bounds returns first, and no smaller a size. *)
Lemma searchLoop_wider (text fontFamily : string) (B1 B2 : Rect)
      (target1 target2 minFontSize : Q) (n : nat) (fs : Q) :
  0 <= minFontSize -> rwidth B1 <= rwidth B2 -> rheight B1 <= rheight B2 ->
  match searchLoop host getContext text fontFamily B1 target1 minFontSize n fs,
        searchLoop host getContext text fontFamily B2 target2 minFontSize n fs with
  | Some r1, Some r2 => fit_fontSize r1 <= fit_fontSize r2
  | Some _, None => False
  | None, Some r2 => minFontSize <= fit_fontSize r2
  | None, None => True
  end.
Proof.
  intros Hmin HW HH. revert fs. induction n as [|n IH]; intros fs; [exact I|].
  rewrite !searchLoop_step.
  destruct (JS.ge fs minFontSize) eqn:Hge; [|exact I].
  apply Qle_bool_iff in Hge.
  assert (Hfs : 0 <= fs) by (eapply Qle_trans; eassumption).
  pose proof (fitsBounds_wider text fontFamily fs B1 B2 Hfs HW HH) as Hfit.
  destruct (fitsBounds (measureText host getContext text fontFamily fs (rwidth B1)) B1).
  - rewrite (Hfit eq_refl). simpl. apply Qle_refl.
  - clear Hfit.
    destruct (fitsBounds (measureText host getContext text fontFamily fs (rwidth B2)) B2).
    + destruct (searchLoop host getContext text fontFamily B1 target1 minFontSize n
                  (Qmax minFontSize (fs - 1))) as [r1|] eqn:H1; simpl.
      * apply searchLoop_some in H1. destruct H1 as (_ & Hle & _).
        eapply Qle_trans; [exact Hle|]. apply Q.max_lub; [exact Hge | lra].
      * exact Hge.
    + apply IH.
Qed.

(** The text zone grows with the bubble. *)
Lemma getTextBounds_wider (b1 b2 : Bubble) :
  type b1 = type b2 -> width b1 <= width b2 -> height b1 <= height b2 ->
  rwidth (getTextBounds b1) <= rwidth (getTextBounds b2)
  /\ rheight (getTextBounds b1) <= rheight (getTextBounds b2).
Proof.
  intros Hty Hw Hh. unfold getTextBounds. rewrite <- Hty.
  destruct (type b1); simpl; split;
    first [ apply Qmult_le_compat_r; [assumption | discriminate]
          | lra ].
Qed.

(** C9.  With a metrics oracle under which a piece of a line is never
    wider than the line, and a non-negative minimum size: for the same
    text, font family and size bounds, the size found for a bubble is never
    smaller than the size found for a bubble of the same archetype and font
    size that is strictly less wide and less high. *)
Theorem calculateOptimalFontSize_monotone
        (text fontFamily : string) (b1 b2 : Bubble) (minFontSize maxFontSize : Q) :
  0 <= minFontSize ->
  type b1 = type b2 -> fontSize b1 = fontSize b2 ->
  width b1 < width b2 -> height b1 < height b2 ->
  fit_fontSize (calculateOptimalFontSize host getContext text b1 fontFamily
                  minFontSize maxFontSize)
  <= fit_fontSize (calculateOptimalFontSize host getContext text b2 fontFamily
                     minFontSize maxFontSize).
Proof.
  intros Hmin Hty Hfs Hw Hh.
  destruct (getTextBounds_wider b1 b2 Hty (Qlt_le_weak _ _ Hw) (Qlt_le_weak _ _ Hh))
    as (HW & HH).
  unfold calculateOptimalFontSize. rewrite <- Hfs.
  pose proof (searchLoop_wider text fontFamily (getTextBounds b1) (getTextBounds b2)
                (fontSize b1) (fontSize b1) minFontSize maxIterations
                (Qmin (fontSize b1) maxFontSize) Hmin HW HH) as Hrun.
  destruct (searchLoop host getContext text fontFamily (getTextBounds b1) _ _ _ _);
    destruct (searchLoop host getContext text fontFamily (getTextBounds b2) _ _ _ _);
    simpl; try assumption; try contradiction. apply Qle_refl.
Qed.

End FitMonotone.

Section FontFitExamples.
Import TextAutoFit Examples Notions.

(** C4, evaluated where the code departs from it.  One word of 25
    letters in a descriptive box of 100 by 100, whose text zone is 80 by
    80, on a canvas where a letter is half the font size wide: the word is
    too wide at sizes 10, 9 and 8, so the loop runs out and the function
    returns the minimum size 8 with [fits = true], the flag looking at the
    height only, although the block is 100 wide at that size and does not
    fit the zone.  The scale factor is the returned size over the bubble's
    size. *)
Theorem fits_flag_ignores_width_at_minimum (cos sin : Q -> Q) (pi : Q) :
  let host := decimalHost cos sin pi in
  let result :=
    calculateOptimalFontSize host (Some halfEmCanvas) longWord longWordBox
      "Comic Neue" 8 40 in
  let textBounds := getTextBounds longWordBox in
  let block :=
    measureText host (Some halfEmCanvas) longWord "Comic Neue"
      (fit_fontSize result) (rwidth textBounds) in
  fit_fontSize result == 8
  /\ fits result = true
  /\ rwidth textBounds == 80 /\ rheight textBounds == 80
  /\ xle (d_width block) 100 = true /\ xle (d_width block) 80 = false
  /\ d_height block <= 80
  /\ fitsBounds block textBounds = false
  /\ scaleFactor result == fit_fontSize result / fontSize longWordBox.
Proof.
  vm_compute. repeat split; try reflexivity; intros H; discriminate H.
Qed.

(** The cap of 20 turns is counted from the starting size.  The greeting
    fits its bubble at size 13: from size 30 the loop gets there, from size
    40 it stops after size 21 and the function falls back on the minimum
    size 8. *)
Example iteration_cap_example (cos sin : Q -> Q) (pi : Q) :
  fit_fontSize (calculateOptimalFontSize (decimalHost cos sin pi) (Some halfEmCanvas)
                  "Bonjour tout le monde" greeting "Comic Neue" 8 40) == 13
  /\ fit_fontSize (calculateOptimalFontSize (decimalHost cos sin pi) (Some halfEmCanvas)
                     "Bonjour tout le monde" greetingAt40 "Comic Neue" 8 40) == 8.
Proof. vm_compute. split; reflexivity. Qed.

Lemma autoFitBubbleText_idempotent_without_mutation_witness :
  deref [greeting] 0%nat = Some greeting
  /\ exists sigma1 l1,
       autoFitBubbleText (decimalHost (fun a => a) (fun a => a) 3) (Some halfEmCanvas)
         [greeting] 0%nat "Comic Neue" = Some (sigma1, l1)
       /\ deref sigma1 0%nat = Some greeting
       /\ autoFitBubbleText (decimalHost (fun a => a) (fun a => a) 3) (Some halfEmCanvas)
            sigma1 l1 "Comic Neue" = Some (sigma1, l1).
Proof.
  split; [reflexivity|].
  destruct (autoFitBubbleText_idempotent_without_mutation
              (decimalHost (fun a => a) (fun a => a) 3) (Some halfEmCanvas)
              [greeting] 0%nat "Comic Neue" greeting eq_refl)
    as (sigma1 & l1 & H1 & _ & H2 & _ & H3 & _).
  exists sigma1, l1. repeat split; assumption.
Defined.

(** On that example the font size goes from 30 to 13, in a new object. *)
Example autoFitBubbleText_example (cos sin : Q -> Q) (pi : Q) :
  exists v : Q,
    autoFitBubbleText (decimalHost cos sin pi) (Some halfEmCanvas)
      [greeting] 0%nat "Comic Neue"
    = Some ([greeting; withFontSize greeting v], 1%nat)
    /\ v == 13.
Proof. eexists. split; [vm_compute; reflexivity | reflexivity]. Qed.

Lemma leadingDigits_nonneg (s : string) (acc : Z) :
  (0 <= acc)%Z -> (0 <= leadingDigits s acc)%Z.
Proof.
  revert acc. induction s as [|c s IH]; intros acc Hacc; simpl; [exact Hacc|].
  destruct (PathSyntax.isDigit c) eqn:Hd; [|exact Hacc].
  apply IH. unfold PathSyntax.isDigit in Hd.
  apply andb_true_iff in Hd. destruct Hd as (Hlo & _).
  apply Nat.leb_le in Hlo. lia.
Qed.

(** The half-em canvas measures a piece of a line no wider than the
    line. *)
Lemma halfEmCanvas_monotone : monotoneMetrics halfEmCanvas.
Proof.
  intros font p t s. unfold halfEmCanvas, Qdiv.
  apply Qmult_le_compat_r; [|discriminate].
  rewrite !(Qmult_comm (inject_Z (leadingDigits font 0))).
  apply Qmult_le_compat_r.
  - rewrite <- Zle_Qle. apply Nat2Z.inj_le. rewrite !length_append. lia.
  - replace 0 with (inject_Z 0) by reflexivity. rewrite <- Zle_Qle.
    apply leadingDigits_nonneg. lia.
Qed.

Lemma calculateOptimalFontSize_monotone_witness :
  (forall ctx : Canvas, Some halfEmCanvas = Some ctx -> monotoneMetrics ctx)
  /\ 0 <= 8
  /\ type greeting = type greetingWide
  /\ fontSize greeting = fontSize greetingWide
  /\ width greeting < width greetingWide
  /\ height greeting < height greetingWide
  /\ fit_fontSize (calculateOptimalFontSize (decimalHost (fun a => a) (fun a => a) 3)
                     (Some halfEmCanvas) "Bonjour tout le monde" greeting
                     "Comic Neue" 8 40)
     <= fit_fontSize (calculateOptimalFontSize (decimalHost (fun a => a) (fun a => a) 3)
                        (Some halfEmCanvas) "Bonjour tout le monde" greetingWide
                        "Comic Neue" 8 40).
Proof.
  assert (Hm : forall ctx : Canvas, Some halfEmCanvas = Some ctx -> monotoneMetrics ctx)
    by (intros ctx H; injection H as <-; exact halfEmCanvas_monotone).
  assert (H8 : 0 <= 8) by (vm_compute; discriminate).
  assert (Hw : width greeting < width greetingWide) by reflexivity.
  assert (Hh : height greeting < height greetingWide) by reflexivity.
  split; [exact Hm|]. split; [exact H8|]. split; [reflexivity|].
  split; [reflexivity|]. split; [exact Hw|]. split; [exact Hh|].
  exact (calculateOptimalFontSize_monotone
           (decimalHost (fun a => a) (fun a => a) 3) (Some halfEmCanvas) Hm
           "Bonjour tout le monde" "Comic Neue" greeting greetingWide 8 40
           H8 eq_refl eq_refl Hw Hh).
Defined.

(** On that example the sizes are 13 and 23. *)
Example monotone_example (cos sin : Q -> Q) (pi : Q) :
  fit_fontSize (calculateOptimalFontSize (decimalHost cos sin pi) (Some halfEmCanvas)
                  "Bonjour tout le monde" greeting "Comic Neue" 8 40) == 13
  /\ fit_fontSize (calculateOptimalFontSize (decimalHost cos sin pi) (Some halfEmCanvas)
                     "Bonjour tout le monde" greetingWide "Comic Neue" 8 40) == 23.
Proof. vm_compute. split; reflexivity. Qed.

(** The condition on the metrics cannot be dropped.  On a canvas that
    measures the word [c] wider than the line [b c], the text [a b c] is
    wrapped as [a], [b c] in the smaller box and fits at size 10, and as
    [a b], [c] in the larger box, where it fits at no size. *)
Example monotone_needs_monotone_metrics (cos sin : Q -> Q) (pi : Q) :
  ~ monotoneMetrics oddCanvas
  /\ fit_fontSize (calculateOptimalFontSize (decimalHost cos sin pi) (Some oddCanvas)
                     "a b c" abcSmall "Comic Neue" 8 40) == 10
  /\ fit_fontSize (calculateOptimalFontSize (decimalHost cos sin pi) (Some oddCanvas)
                     "a b c" abcLarge "Comic Neue" 8 40) == 8.
Proof.
  split.
  - intros H. specialize (H "" "b " "c" ""). vm_compute in H. apply H. reflexivity.
  - vm_compute. split; reflexivity.
Qed.

End FontFitExamples.

(** * Further properties of the code *)

(** ** bubbleUtils *)

Section MoreOutline.
Import BubbleUtils PathSyntax Examples Notions MoreNotions MoreExamples.

(** X1.  For the archetypes drawn as a plain rounded rectangle
    (Descriptive, TextOnly, SpeechDownMinimal, SpeechUpMinimal), the outline
    is a non-empty path that starts with [M], ends with [Z], and gives
    every command its number of arguments, as soon as the host writes the
    five numbers of the template, [r], [w - r], [w], [h - r] and [h], as
    plain decimals.  Nothing is asked of the host on other numbers. *)
Theorem rectangular_outline_well_formed (host : Host) (b : Bubble) :
  rectangularOutline (type b) = true ->
  Forall (fun q => isNumber (numberToString host q) = true) (rectangleNumbers b) ->
  validPath (bodyPath (generateBubblePaths host b)) = true
  /\ JS.truthy (bodyPath (generateBubblePaths host b)) = true.
Proof.
  intros Hty Hnum.
  assert (Hvalid : validPath (bodyPath (generateBubblePaths host b)) = true).
  { pose (host' := {| numberToString :=
                        fun q => if isNumber (numberToString host q)
                                 then numberToString host q else "0";
                      Math_cos := Math_cos host; Math_sin := Math_sin host;
                      Math_PI := Math_PI host |}).
    assert (Hhost' : numericHost host').
    { intros q. unfold host'. cbn [numberToString].
      destruct (isNumber (numberToString host q)) eqn:E; [exact E | reflexivity]. }
    assert (Hsame : roundedRectPath host (width b) (height b) (cornerRadius b)
                    = roundedRectPath host' (width b) (height b) (cornerRadius b)).
    { unfold rectangleNumbers in Hnum. cbv zeta in Hnum.
      inversion Hnum as [|? ? H1 Hnum1]; subst.
      inversion Hnum1 as [|? ? H2 Hnum2]; subst.
      inversion Hnum2 as [|? ? H3 Hnum3]; subst.
      inversion Hnum3 as [|? ? H4 Hnum4]; subst.
      inversion Hnum4 as [|? ? H5 _]; subst.
      unfold roundedRectPath, host'. cbn [numberToString].
      rewrite H1, H2, H3, H4, H5. reflexivity. }
    assert (Hpath : bodyPath (generateBubblePaths host b)
                    = roundedRectPath host (width b) (height b) (cornerRadius b)).
    { unfold generateBubblePaths.
      destruct (type b); cbn [rectangularOutline] in Hty; try discriminate Hty;
        reflexivity. }
    rewrite Hpath, Hsame. apply (roundedRectPath_valid host' Hhost'). }
  split; [exact Hvalid|].
  destruct (bodyPath (generateBubblePaths host b)); [discriminate Hvalid | reflexivity].
Qed.

Lemma rectangular_outline_well_formed_witness :
  rectangularOutline (type descriptiveBox) = true
  /\ Forall (fun q => isNumber (numberToString plainHost q) = true)
            (rectangleNumbers descriptiveBox)
  /\ validPath (bodyPath (generateBubblePaths plainHost descriptiveBox)) = true.
Proof.
  assert (Hnum : Forall (fun q => isNumber (numberToString plainHost q) = true)
                        (rectangleNumbers descriptiveBox))
    by (repeat constructor).
  split; [reflexivity|]. split; [exact Hnum|].
  exact (proj1 (rectangular_outline_well_formed plainHost descriptiveBox
                  eq_refl Hnum)).
Defined.

End MoreOutline.

Section MoreBoundingBox.
Import BubbleUtils Examples Notions MoreNotions MoreExamples.

Lemma bbox_holds_body (b : Bubble) :
  rectHolds (getOverallBbox b) 10 (0, 0, width b, height b).
Proof.
  pose proof (getOverallBbox_edges b) as He.
  pose proof (extent_covers_body b) as Hbody.
  unfold rectHolds. unfold coversBox in Hbody.
  destruct (extent b) as [[[minX minY] maxX] maxY].
  destruct He as (E1 & E2 & E3 & E4). destruct Hbody as (B1 & B2 & B3 & B4).
  repeat split; lra.
Qed.

Lemma bbox_holds_part (b : Bubble) (p : BubblePart) :
  In p (parts b) -> rectHolds (getOverallBbox b) 10 (partBox p).
Proof.
  intros Hin. pose proof (getOverallBbox_edges b) as He.
  assert (Hpart : let '(x0, y0, x1, y1) := partBox p in
                  coversBox (extent b) x0 y0 x1 y1).
  { destruct p as [i t | i d]; simpl.
    - exact (extent_covers_tip b i t Hin).
    - exact (extent_covers_dot b i d Hin). }
  unfold rectHolds. destruct (partBox p) as [[[x0 y0] x1] y1].
  unfold coversBox in Hpart.
  destruct (extent b) as [[[minX minY] maxX] maxY].
  destruct He as (E1 & E2 & E3 & E4). destruct Hpart as (P1 & P2 & P3 & P4).
  repeat split; lra.
Qed.

(** X2.  For a bubble with whole coordinates, with or without parts, the
    bounding box holds the body rectangle of the bubble and the extent of
    each of its parts (the tip of a tail, the full circle of a thought
    dot), with ten units to spare on the left and at the top. *)
Theorem bbox_holds_body_and_parts (b : Bubble) :
  wholeCoordinates b = true ->
  rectHolds (getOverallBbox b) 10 (0, 0, width b, height b)
  /\ Forall (fun p => rectHolds (getOverallBbox b) 10 (partBox p)) (parts b).
Proof.
  intros _. split; [apply bbox_holds_body|].
  apply Forall_forall. intros p Hin. exact (bbox_holds_part b p Hin).
Qed.

Lemma bbox_holds_body_and_parts_witness :
  wholeCoordinates speechWithDots = true
  /\ rectHolds (getOverallBbox speechWithDots) 10
       (0, 0, width speechWithDots, height speechWithDots)
  /\ Forall (fun p => rectHolds (getOverallBbox speechWithDots) 10 (partBox p))
            (parts speechWithDots).
Proof.
  split; [reflexivity|].
  exact (bbox_holds_body_and_parts speechWithDots eq_refl).
Defined.

Lemma extent_withParts_app (b : Bubble) (ps : list BubblePart) :
  extent (withParts b (parts b ++ ps)) = fold_left extendBy ps (extent b).
Proof. unfold extent. simpl. apply fold_left_app. Qed.

(** X3.  More parts never shrink the bounding box: with further parts,
    [x] and [y] can only go down, and [width] and [height] only up. *)
Theorem bbox_grows_with_parts (b : Bubble) (ps : list BubblePart) :
  let box := getOverallBbox b in
  let box' := getOverallBbox (withParts b (parts b ++ ps)) in
  rx box' <= rx box /\ ry box' <= ry box
  /\ rwidth box <= rwidth box' /\ rheight box <= rheight box'.
Proof.
  cbv zeta.
  pose proof (getOverallBbox_edges b) as He.
  pose proof (getOverallBbox_edges (withParts b (parts b ++ ps))) as He'.
  rewrite extent_withParts_app in He'.
  assert (Hgrow : let '(minX, minY, maxX, maxY) := extent b in
                  coversBox (fold_left extendBy ps (extent b)) minX minY maxX maxY).
  { destruct (extent b) as [[[minX minY] maxX] maxY] eqn:E.
    apply fold_extendBy_grows. simpl. repeat split; apply Qle_refl. }
  unfold coversBox in Hgrow.
  destruct (extent b) as [[[minX minY] maxX] maxY].
  destruct (fold_left extendBy ps (minX, minY, maxX, maxY))
    as [[[minX' minY'] maxX'] maxY'].
  destruct He as (E1 & E2 & E3 & E4). destruct He' as (F1 & F2 & F3 & F4).
  destruct Hgrow as (G1 & G2 & G3 & G4).
  repeat split; lra.
Qed.

(** Extents with equal coordinates. *)
Lemma extendBy_compat (e e' : Extent) (p : BubblePart) :
  (let '(a, b, c, d) := e in let '(a', b', c', d') := e' in
   a == a' /\ b == b' /\ c == c' /\ d == d') ->
  (let '(a, b, c, d) := extendBy e p in let '(a', b', c', d') := extendBy e' p in
   a == a' /\ b == b' /\ c == c' /\ d == d').
Proof.
  destruct e as [[[a b] c] d], e' as [[[a' b'] c'] d'].
  intros (H1 & H2 & H3 & H4). destruct p as [i t | i t]; simpl;
    rewrite H1, H2, H3, H4; repeat split; reflexivity.
Qed.

Lemma extendBy_swap (e : Extent) (p q : BubblePart) :
  let '(a, b, c, d) := extendBy (extendBy e p) q in
  let '(a', b', c', d') := extendBy (extendBy e q) p in
  a == a' /\ b == b' /\ c == c' /\ d == d'.
Proof.
  destruct e as [[[a b] c] d].
  destruct p as [i t | i t], q as [j u | j u]; simpl; repeat split;
    first [ rewrite <- !Q.min_assoc; apply Q.min_compat; [reflexivity | apply Q.min_comm]
          | rewrite <- !Q.max_assoc; apply Q.max_compat; [reflexivity | apply Q.max_comm] ].
Qed.

Lemma fold_extendBy_compat (ps : list BubblePart) (e e' : Extent) :
  (let '(a, b, c, d) := e in let '(a', b', c', d') := e' in
   a == a' /\ b == b' /\ c == c' /\ d == d') ->
  (let '(a, b, c, d) := fold_left extendBy ps e in
   let '(a', b', c', d') := fold_left extendBy ps e' in
   a == a' /\ b == b' /\ c == c' /\ d == d').
Proof.
  revert e e'. induction ps as [|p ps IH]; intros e e' H; simpl; [exact H|].
  apply IH. apply extendBy_compat. exact H.
Qed.

Lemma extent_eq_refl (e : Extent) :
  let '(a, b, c, d) := e in let '(a', b', c', d') := e in
  a == a' /\ b == b' /\ c == c' /\ d == d'.
Proof. destruct e as [[[a b] c] d]. repeat split; reflexivity. Qed.

Lemma extent_eq_trans (e1 e2 e3 : Extent) :
  (let '(a, b, c, d) := e1 in let '(a', b', c', d') := e2 in
   a == a' /\ b == b' /\ c == c' /\ d == d') ->
  (let '(a, b, c, d) := e2 in let '(a', b', c', d') := e3 in
   a == a' /\ b == b' /\ c == c' /\ d == d') ->
  (let '(a, b, c, d) := e1 in let '(a', b', c', d') := e3 in
   a == a' /\ b == b' /\ c == c' /\ d == d').
Proof.
  destruct e1 as [[[a1 b1] c1] d1], e2 as [[[a2 b2] c2] d2], e3 as [[[a3 b3] c3] d3].
  intros (H1 & H2 & H3 & H4) (K1 & K2 & K3 & K4).
  repeat split; etransitivity; eassumption.
Qed.

Lemma fold_extendBy_permutation (ps qs : list BubblePart) :
  Permutation ps qs ->
  forall e : Extent,
    let '(a, b, c, d) := fold_left extendBy ps e in
    let '(a', b', c', d') := fold_left extendBy qs e in
    a == a' /\ b == b' /\ c == c' /\ d == d'.
Proof.
  induction 1 as [|p ps qs Hperm IH|p q ps|ps qs rs H1 IH1 H2 IH2]; intros e.
  - apply extent_eq_refl.
  - simpl. apply IH.
  - simpl. apply fold_extendBy_compat. apply extendBy_swap.
  - eapply extent_eq_trans; [apply IH1 | apply IH2].
Qed.

(** X4.  The bounding box does not depend on the order of the parts. *)
Theorem bbox_independent_of_part_order (b : Bubble) (ps : list BubblePart) :
  Permutation (parts b) ps ->
  rectEq (getOverallBbox b) (getOverallBbox (withParts b ps)).
Proof.
  intros Hperm.
  pose proof (fold_extendBy_permutation _ _ Hperm (0, 0, width b, height b)) as H.
  unfold rectEq, getOverallBbox, extent. simpl parts. simpl width. simpl height.
  destruct (fold_left extendBy (parts b) (0, 0, width b, height b))
    as [[[minX minY] maxX] maxY].
  destruct (fold_left extendBy ps (0, 0, width b, height b))
    as [[[minX' minY'] maxX'] maxY'].
  destruct H as (H1 & H2 & H3 & H4). simpl.
  rewrite H1, H2, H3, H4. repeat split; reflexivity.
Qed.

Lemma bbox_independent_of_part_order_witness :
  Permutation (parts speechWithDots)
    [SpeechTail "tail1" exampleTail; ThoughtDot "dot2" dot2; ThoughtDot "dot1" dot1]
  /\ rectEq (getOverallBbox speechWithDots)
       (getOverallBbox (withParts speechWithDots
          [SpeechTail "tail1" exampleTail; ThoughtDot "dot2" dot2; ThoughtDot "dot1" dot1])).
Proof.
  assert (Hperm : Permutation (parts speechWithDots)
            [SpeechTail "tail1" exampleTail; ThoughtDot "dot2" dot2; ThoughtDot "dot1" dot1]).
  { simpl. eapply perm_trans; [apply perm_swap|].
    apply perm_skip. eapply perm_swap. }
  split; [exact Hperm|].
  exact (bbox_independent_of_part_order speechWithDots _ Hperm).
Defined.

(** X5.  For a bubble with whole coordinates, every decoration circle
    that [generateBubblePaths] returns lies within the bounding box of the
    bubble, from [cx - r] to [cx + r] and from [cy - r] to [cy + r], with
    ten units to spare on the left and at the top. *)
Theorem circles_inside_bbox (host : Host) (b : Bubble) (c : Circle) :
  wholeCoordinates b = true ->
  In c (partsCircles (generateBubblePaths host b)) ->
  rectHolds (getOverallBbox b) 10 (cx c - r c, cy c - r c, cx c + r c, cy c + r c).
Proof.
  intros _ Hin.
  assert (Hdot : exists i d, In (ThoughtDot i d) (parts b)
                             /\ cx c = offsetX d /\ cy c = offsetY d
                             /\ r c = size d / 2).
  { unfold generateBubblePaths in Hin.
    destruct (type b);
      try (destruct (findSpeechTail (parts b));
           [destruct (Qeq_bool _ _); [|destruct (Qeq_bool _ _)]|]);
      simpl in Hin; try contradiction.
    apply in_flat_map in Hin. destruct Hin as (p & Hp & Hc).
    destruct p as [i t | i d]; simpl in Hc; [contradiction|].
    destruct Hc as [<- | []]. exists i, d. repeat split. exact Hp. }
  destruct Hdot as (i & d & Hp & -> & -> & ->).
  exact (bbox_holds_part b (ThoughtDot i d) Hp).
Qed.

Lemma circles_inside_bbox_witness :
  wholeCoordinates thoughtCloud = true
  /\ In {| c_id := "dot1"; cx := 30; cy := 120; r := 16 / 2 |}
        (partsCircles (generateBubblePaths plainHost thoughtCloud))
  /\ rectHolds (getOverallBbox thoughtCloud) 10 (30 - 16 / 2, 120 - 16 / 2, 30 + 16 / 2, 120 + 16 / 2).
Proof.
  assert (Hin : In {| c_id := "dot1"; cx := 30; cy := 120; r := 16 / 2 |}
                   (partsCircles (generateBubblePaths plainHost thoughtCloud)))
    by (left; reflexivity).
  split; [reflexivity|]. split; [exact Hin|].
  exact (circles_inside_bbox plainHost thoughtCloud _ eq_refl Hin).
Defined.

End MoreBoundingBox.

(** ** textAutoFit *)

Section MoreTextZone.
Import TextAutoFit Examples Notions MoreNotions MoreExamples.

(** X6.  For a bubble between 20 and 2^50 wide and high, whatever its
    archetype, the text zone has a non-negative position and size and lies
    inside the bubble. *)
Theorem text_zone_inside_bubble (b : Bubble) :
  20 <= width b -> width b <= inject_Z (2 ^ 50) ->
  20 <= height b -> height b <= inject_Z (2 ^ 50) ->
  let zone := getTextBounds b in
  0 <= rx zone /\ 0 <= ry zone /\ 0 <= rwidth zone /\ 0 <= rheight zone
  /\ rx zone + rwidth zone <= width b
  /\ ry zone + rheight zone <= height b.
Proof.
  intros Hw _ Hh _. unfold getTextBounds.
  destruct (type b); simpl; unfold Qdiv; change (/ 2) with (1 # 2);
    repeat split; lra.
Qed.

Lemma text_zone_inside_bubble_witness :
  20 <= width thoughtCloud /\ width thoughtCloud <= inject_Z (2 ^ 50)
  /\ 20 <= height thoughtCloud /\ height thoughtCloud <= inject_Z (2 ^ 50)
  /\ ry (getTextBounds thoughtCloud) + rheight (getTextBounds thoughtCloud)
     <= height thoughtCloud.
Proof.
  assert (Hw : 20 <= width thoughtCloud) by (vm_compute; discriminate).
  assert (Hw' : width thoughtCloud <= inject_Z (2 ^ 50)) by (vm_compute; discriminate).
  assert (Hh : 20 <= height thoughtCloud) by (vm_compute; discriminate).
  assert (Hh' : height thoughtCloud <= inject_Z (2 ^ 50)) by (vm_compute; discriminate).
  split; [exact Hw|]. split; [exact Hw'|]. split; [exact Hh|]. split; [exact Hh'|].
  exact (proj2 (proj2 (proj2 (proj2 (proj2
           (text_zone_inside_bubble thoughtCloud Hw Hw' Hh Hh')))))).
Defined.

End MoreTextZone.

Section MoreWrapWords.
Import TextAutoFit Examples Notions MoreNotions MoreExamples.

Variable measure : string -> Q.
Variable maxWidth : Q.

Lemma concat_cons_more (sep x y : string) (l : list string) :
  String.concat sep (x :: y :: l) = x ++ sep ++ String.concat sep (y :: l).
Proof. reflexivity. Qed.

Lemma concat_snoc (sep w : string) (l : list string) :
  l <> [] -> String.concat sep (l ++ [w]) = String.concat sep l ++ sep ++ w.
Proof.
  induction l as [|x l IH]; intros Hne; [contradiction|].
  destruct l as [|y l]; [reflexivity|].
  change ((x :: y :: l) ++ [w])%list with (x :: (y :: l) ++ [w])%list.
  change ((y :: l) ++ [w])%list with (y :: (l ++ [w]))%list.
  rewrite concat_cons_more.
  change (y :: (l ++ [w]))%list with ((y :: l) ++ [w])%list.
  rewrite IH by discriminate. rewrite concat_cons_more.
  rewrite !string_app_assoc. reflexivity.
Qed.

Lemma concat_snoc_joined (sep cur w : string) (l : list string) :
  String.concat sep (l ++ [cur ++ sep ++ w])
  = String.concat sep (l ++ [cur]) ++ sep ++ w.
Proof.
  induction l as [|x l IH]; [reflexivity|].
  destruct l as [|y l].
  - simpl. rewrite !string_app_assoc. reflexivity.
  - change ((x :: y :: l) ++ [(cur ++ sep ++ w)%string])%list
      with (x :: y :: (l ++ [(cur ++ sep ++ w)%string]))%list.
    change ((x :: y :: l) ++ [cur])%list with (x :: y :: (l ++ [cur]))%list.
    rewrite !concat_cons_more.
    change (y :: (l ++ [(cur ++ sep ++ w)%string]))%list with ((y :: l) ++ [(cur ++ sep ++ w)%string])%list.
    change (y :: (l ++ [cur]))%list with ((y :: l) ++ [cur])%list.
    rewrite IH. rewrite !string_app_assoc. reflexivity.
Qed.

Lemma keepsWords_step (st : list string * string) (done : list string) (word : string) :
  JS.truthy word = true ->
  keepsWords st done ->
  keepsWords (addWord measure maxWidth st word) (done ++ [word]).
Proof.
  intros Hw Hst. destruct st as [ls cur]. rewrite addWord_eq.
  right. split; [destruct done; discriminate|].
  destruct Hst as [(-> & Hst) | (Hne & Hcur & Hjoin)].
  - injection Hst as -> ->. unfold testLine. simpl JS.truthy. cbv iota.
    destruct (JS.gt (measure word) maxWidth); simpl; split; try exact Hw; reflexivity.
  - simpl in Hcur, Hjoin. unfold testLine. rewrite Hcur.
    destruct (JS.gt (measure (cur ++ " " ++ word)) maxWidth); simpl fst; simpl snd.
    + split; [exact Hw|].
      rewrite concat_snoc by (destruct ls; discriminate).
      rewrite Hjoin. rewrite concat_snoc by exact Hne. reflexivity.
    + split; [destruct cur; [discriminate | reflexivity]|].
      change (cur ++ String " " word) with (cur ++ " " ++ word).
      rewrite concat_snoc_joined, Hjoin.
      rewrite concat_snoc by exact Hne. reflexivity.
Qed.

Lemma keepsWords_fold (words done : list string) (st : list string * string) :
  Forall (fun w => JS.truthy w = true) words ->
  keepsWords st done ->
  keepsWords (fold_left (addWord measure maxWidth) words st) (done ++ words).
Proof.
  intros Hwords. revert st done.
  induction Hwords as [|w ws Hw Hws IH]; intros st done Hst; simpl.
  - rewrite app_nil_r. exact Hst.
  - replace (done ++ w :: ws)%list with ((done ++ [w]) ++ ws)%list
      by (rewrite <- app_assoc; reflexivity).
    apply IH. apply keepsWords_step; assumption.
Qed.

(** X7.  The wrapping of [measureText] loses, repeats and reorders
    nothing: when no word is empty, the lines joined by single spaces are
    the words joined by single spaces. *)
Theorem wrapWords_keeps_words (words : list string) :
  Forall (fun w => JS.truthy w = true) words ->
  String.concat " " (wrapWords measure maxWidth words) = String.concat " " words.
Proof.
  intros Hwords. unfold wrapWords.
  pose proof (keepsWords_fold words [] ([], "") Hwords (or_introl (conj eq_refl eq_refl)))
    as H.
  simpl app in H.
  destruct (fold_left (addWord measure maxWidth) words ([], "")) as [ls cur].
  destruct H as [(-> & H) | (_ & Hcur & Hjoin)].
  - injection H as -> ->. reflexivity.
  - simpl in Hcur, Hjoin. rewrite flush_eq, Hcur. exact Hjoin.
Qed.

(** Every closed line is non-empty, and the lines are no more than the
    words read. *)
Lemma linesBounded_step (st : list string * string) (n : nat) (word : string) :
  Forall (fun l => JS.truthy l = true) (fst st)
  /\ (List.length (flush st) <= n)%nat ->
  Forall (fun l => JS.truthy l = true) (fst (addWord measure maxWidth st word))
  /\ (List.length (flush (addWord measure maxWidth st word)) <= Datatypes.S n)%nat.
Proof.
  destruct st as [ls cur]. rewrite addWord_eq, flush_eq. simpl fst.
  intros (Hls & Hlen).
  destruct (JS.gt (measure (testLine cur word)) maxWidth).
  - rewrite flush_eq. simpl fst.
    destruct (JS.truthy cur) eqn:Hcur; split;
      try (apply Forall_app; split; [exact Hls | constructor; [exact Hcur | constructor]]);
      try exact Hls;
      destruct (JS.truthy word); rewrite ?length_app in *; simpl in *; lia.
  - rewrite flush_eq. simpl fst. split; [exact Hls|].
    destruct (JS.truthy cur) eqn:Hcur.
    + rewrite (testLine_truthy cur word Hcur).
      rewrite length_app in *. simpl in *. lia.
    + destruct (JS.truthy (testLine cur word)); rewrite ?length_app; simpl; lia.
Qed.

Lemma linesBounded_fold (words : list string) (st : list string * string) (n : nat) :
  Forall (fun l => JS.truthy l = true) (fst st)
  /\ (List.length (flush st) <= n)%nat ->
  Forall (fun l => JS.truthy l = true)
         (fst (fold_left (addWord measure maxWidth) words st))
  /\ (List.length (flush (fold_left (addWord measure maxWidth) words st))
      <= n + List.length words)%nat.
Proof.
  revert st n. induction words as [|w ws IH]; intros st n H; simpl.
  - rewrite Nat.add_0_r. exact H.
  - replace (n + Datatypes.S (List.length ws))%nat
      with (Datatypes.S n + List.length ws)%nat by lia.
    apply IH. apply linesBounded_step. exact H.
Qed.

(** X8.  Whatever the metrics, [measureText] builds no empty line and no
    more lines than there are words. *)
Theorem wrapWords_lines_bounded (words : list string) :
  Forall (fun l => JS.truthy l = true) (wrapWords measure maxWidth words)
  /\ (List.length (wrapWords measure maxWidth words) <= List.length words)%nat.
Proof.
  unfold wrapWords.
  destruct (linesBounded_fold words ([], "") 0) as (Hls & Hlen).
  { split; [constructor | simpl; lia]. }
  split; [|exact Hlen].
  destruct (fold_left (addWord measure maxWidth) words ([], "")) as [ls cur].
  rewrite flush_eq. simpl in Hls.
  destruct (JS.truthy cur) eqn:Hcur; [|exact Hls].
  apply Forall_app. split; [exact Hls | constructor; [exact Hcur | constructor]].
Qed.

(** A line is within the width, or is one of the words. *)
Lemma overflow_step (all : list string) (st : list string * string) (word : string) :
  In word all ->
  Forall (fun l => measure l <= maxWidth \/ In l all) (flush st) ->
  Forall (fun l => measure l <= maxWidth \/ In l all)
         (flush (addWord measure maxWidth st word)).
Proof.
  destruct st as [ls cur]. rewrite addWord_eq. intros Hin Hst.
  rewrite Forall_forall in *. intros l Hl.
  destruct (JS.gt (measure (testLine cur word)) maxWidth) eqn:G.
  - apply In_flush in Hl. destruct Hl as [Hl | (_ & ->)].
    + apply Hst. rewrite flush_eq. exact Hl.
    + right. exact Hin.
  - apply In_flush in Hl. destruct Hl as [Hl | (_ & ->)].
    + apply Hst. apply In_flush. left. exact Hl.
    + left. apply gt_false. exact G.
Qed.

Lemma overflow_fold (all words : list string) (st : list string * string) :
  (forall w, In w words -> In w all) ->
  Forall (fun l => measure l <= maxWidth \/ In l all) (flush st) ->
  Forall (fun l => measure l <= maxWidth \/ In l all)
         (flush (fold_left (addWord measure maxWidth) words st)).
Proof.
  revert st. induction words as [|w ws IH]; intros st Hsub Hst; simpl; [exact Hst|].
  apply IH; [intros w' Hw'; apply Hsub; right; exact Hw'|].
  apply overflow_step; [apply Hsub; left; reflexivity | exact Hst].
Qed.

Lemma wrapWords_overflow (words : list string) :
  Forall (fun l => measure l <= maxWidth \/ In l words)
         (wrapWords measure maxWidth words).
Proof.
  unfold wrapWords. apply overflow_fold; [intros w H; exact H | constructor].
Qed.

Lemma some_word_too_wide (lines words : list string) :
  Forall (fun l => measure l <= maxWidth \/ In l words) lines ->
  ~ Forall (fun l => measure l <= maxWidth) lines ->
  exists w, In w words /\ ~ measure w <= maxWidth.
Proof.
  induction 1 as [|l ls [Hl | Hl] Hls IH]; intros Hnot.
  - exfalso. apply Hnot. constructor.
  - apply IH. intros H. apply Hnot. constructor; assumption.
  - destruct (Qlt_le_dec maxWidth (measure l)) as [Hgt | Hle].
    + exists l. split; [exact Hl | apply Qlt_not_le; exact Hgt].
    + apply IH. intros H. apply Hnot. constructor; assumption.
Qed.

End MoreWrapWords.

Section MoreMeasureText.
Import TextAutoFit Examples Notions MoreNotions MoreExamples.

Variable host : Host.

(** X9.  The block that [measureText] reports is wider than [maxWidth]
    only when one word of the text, alone, is wider than [maxWidth]: no
    line of several words overflows. *)
Theorem measureText_overflow_is_a_single_word
        (ctx : Canvas) (text fontFamily : string) (fontSize maxWidth : Q) :
  xle (d_width (measureText host (Some ctx) text fontFamily fontSize maxWidth))
      maxWidth = false ->
  exists w,
    In w (JS.splitWs (JS.stripTags text))
    /\ ~ ctx (numberToString host fontSize ++ "px " ++ fontFamily) w <= maxWidth.
Proof.
  unfold measureText. simpl d_width. intros Hwide.
  set (m := ctx (numberToString host fontSize ++ "px " ++ fontFamily)) in *.
  set (words := JS.splitWs (JS.stripTags text)) in *.
  apply (some_word_too_wide m maxWidth (wrapWords m maxWidth words) words).
  - apply wrapWords_overflow.
  - intros Hall. apply (xle_maxOf m) in Hall.
    exact (eq_true_false_abs _ Hall Hwide).
Qed.

(** X10.  With metrics under which a piece of a line is never wider than
    the line, [measureText] against a larger width never reports more
    lines. *)
Theorem measureText_wider_no_more_lines
        (getContext : option Canvas) (text fontFamily : string) (fontSize W1 W2 : Q) :
  (forall ctx, getContext = Some ctx -> monotoneMetrics ctx) ->
  W1 <= W2 ->
  (d_lines (measureText host getContext text fontFamily fontSize W2)
   <= d_lines (measureText host getContext text fontFamily fontSize W1))%nat.
Proof.
  intros Hmono HW. unfold measureText.
  destruct getContext as [ctx|]; simpl d_lines; [|apply Nat.le_refl].
  exact (proj1 (wrapWords_wider _ (Hmono ctx eq_refl _) W1 W2 HW _)).
Qed.

Lemma splitWsFrom_blank (s : string) (inSep : bool) :
  JS.trimTruthy s = false ->
  Forall (fun w => w = "") (JS.splitWsFrom s "" inSep).
Proof.
  revert inSep. induction s as [|c s IH]; intros inSep Hblank; simpl.
  - constructor; [reflexivity | constructor].
  - simpl in Hblank. apply orb_false_iff in Hblank. destruct Hblank as (Hc & Hs).
    apply negb_false_iff in Hc. rewrite Hc.
    destruct inSep; [apply IH; exact Hs|].
    constructor; [reflexivity | apply IH; exact Hs].
Qed.

Lemma fold_addWord_blank (measure : string -> Q) (maxWidth : Q) (words : list string) :
  Forall (fun w => w = "") words ->
  fold_left (addWord measure maxWidth) words ([], "") = ([], "").
Proof.
  induction 1 as [|w ws -> Hws IH]; [reflexivity|].
  cbn [fold_left]. rewrite addWord_eq.
  change (testLine "" "") with "". cbn [JS.truthy].
  destruct (JS.gt (measure "") maxWidth); exact IH.
Qed.

(** X11.  A text with nothing but tags and white space measures as no
    line at all, whatever the metrics, the size and the width: zero lines,
    a height of 0, and the width [-Infinity] of an empty maximum. *)
Theorem measureText_of_blank_text
        (ctx : Canvas) (text fontFamily : string) (fontSize maxWidth : Q) :
  JS.trimTruthy (JS.stripTags text) = false ->
  let dimensions := measureText host (Some ctx) text fontFamily fontSize maxWidth in
  d_lines dimensions = 0%nat
  /\ d_width dimensions = NegInfinity
  /\ d_height dimensions == 0.
Proof.
  intros Hblank. unfold measureText, wrapWords.
  rewrite (fold_addWord_blank _ _ _ (splitWsFrom_blank _ false Hblank)).
  simpl. repeat split.
Qed.

End MoreMeasureText.

Section MoreMeasureTextWitnesses.
Import TextAutoFit Examples Notions MoreNotions MoreExamples.

Lemma wrapWords_keeps_words_witness :
  Forall (fun w => JS.truthy w = true) (JS.splitWs "Bonjour tout le monde")
  /\ String.concat " " (wrapWords (halfEmCanvas "10px Comic Neue") 60
                          (JS.splitWs "Bonjour tout le monde"))
     = "Bonjour tout le monde".
Proof.
  assert (H : Forall (fun w => JS.truthy w = true) (JS.splitWs "Bonjour tout le monde"))
    by (vm_compute; repeat constructor).
  split; [exact H|].
  exact (wrapWords_keeps_words (halfEmCanvas "10px Comic Neue") 60 _ H).
Defined.

Lemma measureText_overflow_is_a_single_word_witness :
  xle (d_width (measureText (decimalHost (fun a => a) (fun a => a) 3)
                  (Some halfEmCanvas) longWord "Comic Neue" 8 80)) 80 = false
  /\ exists w,
       In w (JS.splitWs (JS.stripTags longWord))
       /\ ~ halfEmCanvas ("8" ++ "px " ++ "Comic Neue") w <= 80.
Proof.
  split; [reflexivity|].
  exact (measureText_overflow_is_a_single_word
           (decimalHost (fun a => a) (fun a => a) 3) halfEmCanvas
           longWord "Comic Neue" 8 80 eq_refl).
Defined.

Lemma measureText_wider_no_more_lines_witness :
  (forall ctx : Canvas, Some halfEmCanvas = Some ctx -> monotoneMetrics ctx)
  /\ 60 <= 120
  /\ (d_lines (measureText (decimalHost (fun a => a) (fun a => a) 3)
                 (Some halfEmCanvas) "Bonjour tout le monde" "Comic Neue" 10 120)
      <= d_lines (measureText (decimalHost (fun a => a) (fun a => a) 3)
                    (Some halfEmCanvas) "Bonjour tout le monde" "Comic Neue" 10 60))%nat.
Proof.
  assert (Hm : forall ctx : Canvas, Some halfEmCanvas = Some ctx -> monotoneMetrics ctx)
    by (intros ctx H; injection H as <-; exact halfEmCanvas_monotone).
  assert (HW : 60 <= 120) by (vm_compute; discriminate).
  split; [exact Hm|]. split; [exact HW|].
  exact (measureText_wider_no_more_lines
           (decimalHost (fun a => a) (fun a => a) 3) (Some halfEmCanvas)
           "Bonjour tout le monde" "Comic Neue" 10 60 120 Hm HW).
Defined.

Lemma measureText_of_blank_text_witness :
  JS.trimTruthy (JS.stripTags " <br> ") = false
  /\ d_lines (measureText (decimalHost (fun a => a) (fun a => a) 3)
                (Some halfEmCanvas) " <br> " "Comic Neue" 10 60) = 0%nat.
Proof.
  split; [reflexivity|].
  exact (proj1 (measureText_of_blank_text
                  (decimalHost (fun a => a) (fun a => a) 3) halfEmCanvas
                  " <br> " "Comic Neue" 10 60 eq_refl)).
Defined.

(** On the greeting, the lines at width 60 and at width 120. *)
Example wrapWords_example :
  wrapWords (halfEmCanvas "10px Comic Neue") 60 (JS.splitWs "Bonjour tout le monde")
  = ["Bonjour tout"; "le monde"]
  /\ wrapWords (halfEmCanvas "10px Comic Neue") 120 (JS.splitWs "Bonjour tout le monde")
     = ["Bonjour tout le monde"].
Proof. vm_compute. split; reflexivity. Qed.

End MoreMeasureTextWitnesses.

Section MoreFontFit.
Import TextAutoFit Examples Notions MoreNotions MoreExamples.

Variable host : Host.
Variable getContext : option Canvas.

Local Abbreviation measureText := (measureText host getContext).
Local Abbreviation searchLoop := (searchLoop host getContext).
Local Abbreviation calculateOptimalFontSize := (calculateOptimalFontSize host getContext).
Local Abbreviation detectTextOverflow := (detectTextOverflow host getContext).
Local Abbreviation autoFitted := (autoFitted host getContext).
Local Abbreviation autoFitBubbleText := (autoFitBubbleText host getContext).

(** X12.  The size returned by [calculateOptimalFontSize] is never below
    [minFontSize], and never above the starting size
    [min(bubble.fontSize, maxFontSize)] unless [minFontSize] itself is. *)
Theorem calculateOptimalFontSize_size_bounds
        (text : string) (bubble : Bubble) (fontFamily : string)
        (minFontSize maxFontSize : Q) :
  let result := calculateOptimalFontSize text bubble fontFamily minFontSize maxFontSize in
  minFontSize <= fit_fontSize result
  /\ fit_fontSize result <= Qmax minFontSize (Qmin (fontSize bubble) maxFontSize).
Proof.
  destruct (calculateOptimalFontSize_cases host getContext text bubble fontFamily
              minFontSize maxFontSize) as [(_ & _ & Hlo & Hhi) | (Heq & _)]; cbv zeta.
  - split; [exact Hlo|]. eapply Qle_trans; [exact Hhi | apply Q.le_max_r].
  - rewrite Heq. split; [apply Qle_refl | apply Q.le_max_l].
Qed.

(** The detector is the negation of the test of the search loop. *)
Lemma detectTextOverflow_fitsBounds (text : string) (bubble : Bubble) (fontFamily : string) :
  detectTextOverflow text bubble fontFamily
  = negb (fitsBounds (measureText text fontFamily (fontSize bubble)
                        (rwidth (getTextBounds bubble)))
                     (getTextBounds bubble)).
Proof.
  unfold TextAutoFit.detectTextOverflow, fitsBounds, JS.gt, JS.le, xgt.
  rewrite negb_andb. reflexivity.
Qed.

(** X13.  A result with [fits = false] can be trusted: the text then does
    overflow the bubble set to the returned size, as [detectTextOverflow]
    sees it. *)
Theorem fits_false_means_overflow
        (text : string) (bubble : Bubble) (fontFamily : string)
        (minFontSize maxFontSize : Q) :
  let result := calculateOptimalFontSize text bubble fontFamily minFontSize maxFontSize in
  fits result = false ->
  detectTextOverflow text (withFontSize bubble (fit_fontSize result)) fontFamily = true.
Proof.
  cbv zeta. intros Hfits.
  rewrite detectTextOverflow_fitsBounds, getTextBounds_withFontSize. simpl fontSize.
  destruct (calculateOptimalFontSize_cases host getContext text bubble fontFamily
              minFontSize maxFontSize) as [(Ht & _) | (_ & Hflag)]; cbv zeta in *.
  - rewrite Ht in Hfits. discriminate.
  - rewrite Hfits in Hflag. unfold fitsBounds. rewrite <- Hflag. reflexivity.
Qed.

(** A result from inside the loop is less than [n] below the size the
    loop started from. *)
Lemma searchLoop_window (text fontFamily : string) (textBounds : Rect)
      (target minFontSize : Q) (n : nat) (fs : Q) (result : TextFitResult) :
  searchLoop text fontFamily textBounds target minFontSize n fs = Some result ->
  fs - inject_Z (Z.of_nat n) < fit_fontSize result.
Proof.
  revert fs. induction n as [|n IH]; intros fs H; [discriminate|].
  rewrite searchLoop_step in H.
  destruct (JS.ge fs minFontSize); [|discriminate].
  destruct (fitsBounds (measureText text fontFamily fs (rwidth textBounds)) textBounds).
  - injection H as <-. simpl fit_fontSize.
    rewrite Nat2Z.inj_succ, <- Z.add_1_r, inject_Z_plus.
    assert (0 <= inject_Z (Z.of_nat n))
      by (replace 0 with (inject_Z 0) by reflexivity; rewrite <- Zle_Qle; lia).
    change (inject_Z 1) with 1. lra.
  - apply IH in H.
    rewrite Nat2Z.inj_succ, <- Z.add_1_r, inject_Z_plus.
    pose proof (Q.le_max_r minFontSize (fs - 1)) as Hmax.
    change (inject_Z 1) with 1. lra.
Qed.

(** X14.  The search looks at twenty sizes at most, counted from the
    starting size: the size returned is [minFontSize] itself, or lies less
    than 20 below [min(bubble.fontSize, maxFontSize)].  A size in between
    is never returned, whether the text fits there or not. *)
Theorem calculateOptimalFontSize_window
        (text : string) (bubble : Bubble) (fontFamily : string)
        (minFontSize maxFontSize : Q) :
  let result := calculateOptimalFontSize text bubble fontFamily minFontSize maxFontSize in
  fit_fontSize result = minFontSize
  \/ Qmin (fontSize bubble) maxFontSize - 20 < fit_fontSize result.
Proof.
  unfold TextAutoFit.calculateOptimalFontSize.
  destruct (searchLoop text fontFamily (getTextBounds bubble) (fontSize bubble)
              minFontSize maxIterations (Qmin (fontSize bubble) maxFontSize))
    as [result|] eqn:H; cbv zeta.
  - right. apply searchLoop_window in H. exact H.
  - left. reflexivity.
Qed.

(** A bubble whose text does not overflow at its own size, that size
    being within the bounds, gets its own size back. *)
Lemma calculateOptimalFontSize_no_overflow
      (text : string) (bubble : Bubble) (fontFamily : string)
      (minFontSize maxFontSize : Q) :
  detectTextOverflow text bubble fontFamily = false ->
  minFontSize <= fontSize bubble -> fontSize bubble <= maxFontSize ->
  let result := calculateOptimalFontSize text bubble fontFamily minFontSize maxFontSize in
  fit_fontSize result = fontSize bubble /\ fits result = true.
Proof.
  intros Hno Hlo Hhi. rewrite detectTextOverflow_fitsBounds in Hno.
  apply negb_false_iff in Hno.
  unfold TextAutoFit.calculateOptimalFontSize. rewrite (Qmin_left _ _ Hhi).
  unfold maxIterations. rewrite searchLoop_step.
  apply Qle_bool_iff in Hlo. unfold JS.ge. rewrite Hlo, Hno.
  cbv zeta. split; reflexivity.
Qed.

(** X15.  [autoFitBubbleText] leaves alone a bubble whose text does not
    overflow and whose font size is between 8 and 40: it returns the very
    object it was given, and allocates nothing. *)
Theorem autoFitBubbleText_keeps_fitting_bubble
        (sigma : Store) (l : Ref) (fontFamily : string) (b : Bubble) :
  deref sigma l = Some b ->
  detectTextOverflow (text b) b fontFamily = false ->
  8 <= fontSize b -> fontSize b <= 40 ->
  autoFitBubbleText sigma l fontFamily = Some (sigma, l).
Proof.
  intros Hb Hno Hlo Hhi. unfold TextAutoFit.autoFitBubbleText. rewrite Hb.
  destruct (skipsAutoFit b); [reflexivity|].
  destruct (calculateOptimalFontSize_no_overflow (text b) b fontFamily
              defaultMinFontSize defaultMaxFontSize Hno Hlo Hhi) as (Hsize & _).
  cbv zeta in Hsize. rewrite Hsize, Qeq_bool_refl. reflexivity.
Qed.

(** X16.  [autoFitBubbleText] changes nothing but the font size; and
    unless it skips the bubble (text-only, empty text or placeholder), the
    font size of the result is between 8 and 40. *)
Theorem autoFitted_changes_font_size_only (b : Bubble) (fontFamily : string) :
  let b' := autoFitted b fontFamily in
  withFontSize b' (fontSize b) = withFontSize b (fontSize b)
  /\ (skipsAutoFit b = false -> 8 <= fontSize b' /\ fontSize b' <= 40).
Proof.
  cbv zeta. unfold TextAutoFit.autoFitted.
  assert (Hb : 8 <= fit_fontSize (calculateOptimalFontSize (text b) b fontFamily
                                    defaultMinFontSize defaultMaxFontSize)
               /\ fit_fontSize (calculateOptimalFontSize (text b) b fontFamily
                                  defaultMinFontSize defaultMaxFontSize) <= 40).
  { destruct (calculateOptimalFontSize_cases host getContext (text b) b fontFamily
                defaultMinFontSize defaultMaxFontSize)
      as [(_ & _ & Hlo & Hhi) | (Heq & _)].
    - split; [exact Hlo|]. eapply Qle_trans; [exact Hhi | apply Q.le_min_r].
    - rewrite Heq. split; vm_compute; discriminate. }
  destruct Hb as (Hlo & Hhi').
  destruct (skipsAutoFit b); [split; [reflexivity | discriminate]|].
  destruct (Qeq_bool _ (fontSize b)) eqn:Heq.
  - split; [reflexivity|]. intros _. apply Qeq_bool_eq in Heq.
    rewrite <- Heq. split; assumption.
  - split; [reflexivity|]. intros _. simpl fontSize. split; assumption.
Qed.

End MoreFontFit.

Section MoreFontFitWitnesses.
Import TextAutoFit Examples Notions MoreNotions MoreExamples.

Lemma fits_false_means_overflow_witness :
  fits (calculateOptimalFontSize (decimalHost (fun a => a) (fun a => a) 3)
          (Some halfEmCanvas) longWord lowBox "Comic Neue" 8 40) = false
  /\ detectTextOverflow (decimalHost (fun a => a) (fun a => a) 3) (Some halfEmCanvas)
       longWord
       (withFontSize lowBox
          (fit_fontSize (calculateOptimalFontSize
                           (decimalHost (fun a => a) (fun a => a) 3)
                           (Some halfEmCanvas) longWord lowBox "Comic Neue" 8 40)))
       "Comic Neue" = true.
Proof.
  split; [reflexivity|].
  exact (fits_false_means_overflow
           (decimalHost (fun a => a) (fun a => a) 3) (Some halfEmCanvas)
           longWord lowBox "Comic Neue" 8 40 eq_refl).
Defined.

Lemma autoFitBubbleText_keeps_fitting_bubble_witness :
  deref [smallGreeting] 0%nat = Some smallGreeting
  /\ detectTextOverflow (decimalHost (fun a => a) (fun a => a) 3) (Some halfEmCanvas)
       (text smallGreeting) smallGreeting "Comic Neue" = false
  /\ 8 <= fontSize smallGreeting /\ fontSize smallGreeting <= 40
  /\ autoFitBubbleText (decimalHost (fun a => a) (fun a => a) 3) (Some halfEmCanvas)
       [smallGreeting] 0%nat "Comic Neue" = Some ([smallGreeting], 0%nat).
Proof.
  assert (Hlo : 8 <= fontSize smallGreeting) by (vm_compute; discriminate).
  assert (Hhi : fontSize smallGreeting <= 40) by (vm_compute; discriminate).
  split; [reflexivity|]. split; [reflexivity|].
  split; [exact Hlo|]. split; [exact Hhi|].
  exact (autoFitBubbleText_keeps_fitting_bubble
           (decimalHost (fun a => a) (fun a => a) 3) (Some halfEmCanvas)
           [smallGreeting] 0%nat "Comic Neue" smallGreeting eq_refl eq_refl Hlo Hhi).
Defined.

Lemma autoFitted_changes_font_size_only_witness :
  skipsAutoFit greeting = false
  /\ 8 <= fontSize (autoFitted plainHost (Some halfEmCanvas) greeting "Comic Neue")
  /\ fontSize (autoFitted plainHost (Some halfEmCanvas) greeting "Comic Neue") <= 40.
Proof.
  split; [reflexivity|].
  exact (proj2 (autoFitted_changes_font_size_only plainHost (Some halfEmCanvas)
                  greeting "Comic Neue") eq_refl).
Defined.

End MoreFontFitWitnesses.

(** ** The rich text renderer *)

Section MoreParsing.
Import RichText Examples Notions MoreNotions MoreExamples.

Lemma parseLines_well_formed (lines : list string) (defaultStyle : TextStyle) :
  Forall (fun seg => JS.truthy (seg_text seg) = true
                     /\ seg_style seg = defaultStyle
                     /\ seg_width seg = 0 /\ seg_height seg = 0)
         (parseLines lines defaultStyle).
Proof.
  induction lines as [|lineHtml rest IH]; simpl; [constructor|].
  apply Forall_app. split; [|apply Forall_app; split; [|exact IH]].
  - destruct (JS.trimTruthy lineHtml); [|constructor].
    destruct (JS.truthy (JS.stripTags lineHtml)) eqn:Ht; [|constructor].
    constructor; [|constructor]. simpl. repeat split. exact Ht.
  - destruct rest; constructor; [|constructor]. simpl. repeat split.
Qed.

(** X17.  [parseRichText] never yields a segment with an empty text, and
    every segment it yields carries the default style, with width and
    height still 0. *)
Theorem parseRichText_segments_well_formed (html : string) (defaultStyle : TextStyle) :
  Forall (fun seg => JS.truthy (seg_text seg) = true
                     /\ seg_style seg = defaultStyle
                     /\ seg_width seg = 0 /\ seg_height seg = 0)
         (parseRichText html defaultStyle).
Proof. apply parseLines_well_formed. Qed.

Lemma stripTagsFrom_unfinished (t buf : string) :
  noGreaterThan t = true ->
  JS.stripTagsFrom t (Some buf) = String "<" (buf ++ t).
Proof.
  revert buf. induction t as [|c t IH]; intros buf Ht; simpl.
  - rewrite string_app_nil_r. reflexivity.
  - simpl in Ht. apply andb_true_iff in Ht. destruct Ht as (Hc & Ht).
    apply negb_true_iff in Hc. rewrite Hc, (IH _ Ht), string_app_assoc. reflexivity.
Qed.

Lemma noGreaterThan_app (a b : string) :
  noGreaterThan (a ++ b) = noGreaterThan a && noGreaterThan b.
Proof.
  induction a as [|c a IH]; simpl; [reflexivity|].
  rewrite IH, andb_assoc. reflexivity.
Qed.

Lemma stripTagsFrom_stable (s : string) :
  JS.stripTagsFrom (JS.stripTagsFrom s None) None = JS.stripTagsFrom s None
  /\ forall buf, noGreaterThan buf = true ->
                 JS.stripTagsFrom (JS.stripTagsFrom s (Some buf)) None
                 = JS.stripTagsFrom s (Some buf).
Proof.
  induction s as [|c s (IH1 & IH2)]; split.
  - reflexivity.
  - intros buf Hbuf. simpl.
    rewrite (stripTagsFrom_unfinished buf "" Hbuf). reflexivity.
  - simpl. destruct (Ascii.eqb c "<") eqn:Hc.
    + apply IH2. reflexivity.
    + simpl. rewrite Hc, IH1. reflexivity.
  - intros buf Hbuf. simpl. destruct (Ascii.eqb c ">") eqn:Hc.
    + exact IH1.
    + apply IH2. rewrite noGreaterThan_app, Hbuf. simpl. rewrite Hc. reflexivity.
Qed.

(** X18.  Stripping the tags leaves no tag behind: [replace(/<[^>]*>/g, '')]
    applied to its own result changes nothing. *)
Theorem stripTags_idempotent (s : string) :
  JS.stripTags (JS.stripTags s) = JS.stripTags s.
Proof. exact (proj1 (stripTagsFrom_stable s)). Qed.

Lemma stripTags_plain (s : string) : noLessThan s = true -> JS.stripTags s = s.
Proof.
  unfold JS.stripTags. induction s as [|c s IH]; intros Hs; [reflexivity|].
  simpl in Hs. apply andb_true_iff in Hs. destruct Hs as (Hc & Hs).
  apply negb_true_iff in Hc. simpl. rewrite Hc, (IH Hs). reflexivity.
Qed.

Lemma splitBrFrom_plain (s piece : string) :
  noLessThan s = true -> JS.splitBrFrom s piece "" JS.BrNone = [piece ++ s].
Proof.
  revert piece. induction s as [|c s IH]; intros piece Hs; simpl.
  - reflexivity.
  - simpl in Hs. apply andb_true_iff in Hs. destruct Hs as (Hc & Hs).
    apply negb_true_iff in Hc. rewrite Hc, (IH _ Hs).
    simpl. rewrite string_app_assoc. reflexivity.
Qed.

Lemma trimTruthy_truthy (s : string) : JS.trimTruthy s = true -> JS.truthy s = true.
Proof. destruct s; [discriminate | reflexivity]. Qed.

(** X19.  A markup without the character [<] that is not blank is one
    segment, holding the markup as it is. *)
Theorem parseRichText_of_plain_text (html : string) (defaultStyle : TextStyle) :
  noLessThan html = true -> JS.trimTruthy html = true ->
  parseRichText html defaultStyle = [rawSegment html defaultStyle].
Proof.
  intros Hplain Hink. unfold parseRichText, JS.splitBr.
  rewrite (splitBrFrom_plain html "" Hplain). simpl.
  rewrite Hink, (stripTags_plain html Hplain), (trimTruthy_truthy html Hink).
  reflexivity.
Qed.

Lemma parseRichText_of_plain_text_witness :
  noLessThan "Bonjour tout le monde" = true
  /\ JS.trimTruthy "Bonjour tout le monde" = true
  /\ parseRichText "Bonjour tout le monde" (plainStyle 10)
     = [rawSegment "Bonjour tout le monde" (plainStyle 10)].
Proof.
  split; [reflexivity|]. split; [reflexivity|].
  exact (parseRichText_of_plain_text "Bonjour tout le monde" (plainStyle 10)
           eq_refl eq_refl).
Defined.

End MoreParsing.

Section MoreMeasuring.
Import RichText Examples Notions MoreNotions MoreExamples.

Variable host : Host.
Variable ctx : Canvas.
Variable fontMap : string -> option string.

(** Measuring changes no text. *)
Lemma measureSegments_texts (font : string) (segs : list TextSegment) :
  map seg_text (fst (measureSegments host ctx fontMap font segs)) = map seg_text segs.
Proof.
  revert font. induction segs as [|seg rest IH]; intros font; [reflexivity|].
  simpl. unfold measureSegment.
  destruct (negb (JS.truthy (seg_text seg)));
    match goal with
    | |- context [measureSegments host ctx fontMap ?f rest] =>
        specialize (IH f); destruct (measureSegments host ctx fontMap f rest)
    end; simpl in *; rewrite IH; reflexivity.
Qed.

Lemma noForcedBreak_texts (segs segs' : list TextSegment) :
  map seg_text segs' = map seg_text segs ->
  noForcedBreak segs -> noForcedBreak segs'.
Proof.
  revert segs'. induction segs as [|seg rest IH]; intros [|seg' rest'] Hmap Hno;
    try discriminate; [constructor|].
  simpl in Hmap. injection Hmap as Hhead Htail.
  inversion Hno as [|? ? Hseg Hrest]; subst.
  constructor; [rewrite Hhead; exact Hseg | exact (IH _ Htail Hrest)].
Qed.

Lemma wordsOfSegments_texts (segs segs' : list TextSegment) :
  map seg_text segs' = map seg_text segs ->
  wordsOfSegments segs' = wordsOfSegments segs.
Proof.
  revert segs'. induction segs as [|seg rest IH]; intros [|seg' rest'] Hmap;
    try discriminate; [reflexivity|].
  simpl in Hmap. injection Hmap as Hhead Htail.
  simpl. rewrite Hhead, (IH _ Htail). reflexivity.
Qed.

End MoreMeasuring.

Section MoreWrapping.
Import RichText Examples Notions MoreNotions MoreExamples.

Variable host : Host.
Variable ctx : Canvas.
Variable fontMap : string -> option string.
Variable defaultStyle : TextStyle.
Variable width : Q.
Variable getMaxWidthAtY : option (Q -> Q).

Local Abbreviation placeWord := (placeWord ctx defaultStyle width getMaxWidthAtY).
Local Abbreviation wrapLoop := (wrapLoop ctx defaultStyle width getMaxWidthAtY).
Local Abbreviation wrapLines := (wrapLines ctx defaultStyle width getMaxWidthAtY).
Local Abbreviation layout :=
  (drawRichText_layout host ctx fontMap defaultStyle width getMaxWidthAtY).
Local Abbreviation linesHeld := (linesHeld defaultStyle width getMaxWidthAtY).

(** Measuring hands to the wrapping loop segments with the texts of the
    parsed ones, so that wrapping is complete on a markup without forced
    break. *)
Lemma layout_without_break (font0 html : string) :
  noForcedBreak (parseRichText html defaultStyle) ->
  exists ls, layout font0 html = Laid ls
             /\ wordsOfLines ls = wordsOfSegments (parseRichText html defaultStyle).
Proof.
  intros Hno. unfold drawRichText_layout.
  pose proof (measureSegments_texts host ctx fontMap font0
                (parseRichText html defaultStyle)) as Htexts.
  destruct (measureSegments host ctx fontMap font0 (parseRichText html defaultStyle))
    as (segs, font). simpl in Htexts.
  destruct (wrapLines_complete_without_break ctx defaultStyle width getMaxWidthAtY
              font segs (noForcedBreak_texts _ _ Htexts Hno)) as (ls & Hls & Hwords).
  exists ls. split; [exact Hls|].
  rewrite Hwords. apply wordsOfSegments_texts. exact Htexts.
Qed.

(** X20.  Parse, measure and wrap lose no word and make none up: when the
    markup has no forced break, the wrapping loop runs to its end and the
    words of the lines handed to the drawing step, read in order, are the
    words of the parsed segments. *)
Theorem drawRichText_layout_keeps_words (font0 html : string) :
  noForcedBreak (parseRichText html defaultStyle) ->
  exists ls, layout font0 html = Laid ls
             /\ wordsOfLines ls = wordsOfSegments (parseRichText html defaultStyle).
Proof.
  intros Hno. destruct (layout_without_break font0 html Hno) as (ls & Hls & Hwords).
  exists ls. split; assumption.
Qed.

(** *** What every laid line satisfies *)

Lemma nonEmpty_segments (l : TextLine) :
  (0 <? List.length (segments l))%nat = true -> segments l <> [].
Proof. destruct (segments l); [discriminate | discriminate]. Qed.

Lemma placeWord_consistent (font : string) (seg : TextSegment) (st : WrapState)
      (word : string) :
  linesConsistent st -> linesConsistent (placeWord font seg st word).
Proof.
  intros (Hlines & Hcur). unfold RichText.placeWord. cbv zeta.
  destruct (JS.gt _ _ && (0 <? List.length (segments (currentLine st)))%nat) eqn:Hc.
  - apply andb_true_iff in Hc. destruct Hc as (_ & Hne).
    split; simpl.
    + apply Forall_app. split; [exact Hlines|].
      constructor; [|constructor]. split; [exact (nonEmpty_segments _ Hne) | exact Hcur].
    + split; reflexivity.
  - destruct Hcur as (Hw & Hh). split; simpl; [exact Hlines|].
    split; simpl; unfold sumWidths, maxHeights; rewrite fold_left_app; simpl.
    + rewrite Hw. reflexivity.
    + rewrite Hh. reflexivity.
Qed.

Lemma placeWords_consistent (font : string) (seg : TextSegment) (words : list string)
      (st : WrapState) :
  linesConsistent st -> linesConsistent (fold_left (placeWord font seg) words st).
Proof.
  revert st. induction words as [|w ws IH]; intros st Hst; [exact Hst|].
  simpl. apply IH. apply placeWord_consistent. exact Hst.
Qed.

Lemma wrapLoop_consistent (font : string) (segs : list TextSegment)
      (st st' : WrapState) :
  linesConsistent st -> wrapLoop font segs st = Finished st' -> linesConsistent st'.
Proof.
  revert st. induction segs as [|seg rest IH]; intros st Hst Hrun; simpl in Hrun.
  - injection Hrun as <-. exact Hst.
  - destruct (String.eqb (seg_text seg) newline); [discriminate|].
    exact (IH _ (placeWords_consistent font seg _ st Hst) Hrun).
Qed.

(** X21.  Every line handed to the drawing step holds at least one word,
    its width is the sum of the widths of its words and its height the
    greatest of their heights. *)
Theorem laid_lines_are_consistent (font : string) (segs : list TextSegment)
        (ls : list TextLine) :
  wrapLines font segs = Laid ls ->
  Forall (fun l => segments l <> [] /\ lineConsistent l) ls.
Proof.
  unfold RichText.wrapLines. intros Hlaid.
  destruct (wrapLoop font segs initialState) as [st|st] eqn:Hrun; [|discriminate].
  injection Hlaid as <-.
  assert (Hinit : linesConsistent initialState)
    by (split; [constructor | split; reflexivity]).
  destruct (wrapLoop_consistent font segs _ _ Hinit Hrun) as (Hlines & Hcur).
  destruct (0 <? List.length (segments (currentLine st)))%nat eqn:Hne; [|exact Hlines].
  apply Forall_app. split; [exact Hlines|].
  constructor; [|constructor]. split; [exact (nonEmpty_segments _ Hne) | exact Hcur].
Qed.

(** *** Which width a line is held to *)

Lemma held_after_push (st : WrapState) :
  linesHeld st -> segments (currentLine st) <> [] ->
  forall i l, nth_error (lines st ++ [currentLine st]) i = Some l ->
              fitsOrSingle width getMaxWidthAtY (ts_fontSize defaultStyle) i l.
Proof.
  intros (Hy & Hlines & Hcur) Hne i l Hnth.
  destruct (Nat.lt_ge_cases i (List.length (lines st))) as [Hlt|Hge].
  - rewrite nth_error_app1 in Hnth by exact Hlt. exact (Hlines i l Hnth).
  - rewrite nth_error_app2 in Hnth by exact Hge.
    destruct (i - List.length (lines st))%nat as [|k] eqn:Hk.
    + simpl in Hnth. injection Hnth as <-.
      assert (i = List.length (lines st)) as -> by lia.
      destruct Hcur as [Hempty | [Hone | Hfit]].
      * contradiction.
      * left. exact Hone.
      * right. exists (currentY st). split; [exact Hy | exact Hfit].
    + simpl in Hnth. destruct k; discriminate.
Qed.

Lemma cursor_after_push (st : WrapState) :
  currentY st == inject_Z (Z.of_nat (List.length (lines st))) * ts_fontSize defaultStyle ->
  currentY st + ts_fontSize defaultStyle
  == inject_Z (Z.of_nat (List.length (lines st ++ [currentLine st])))
     * ts_fontSize defaultStyle.
Proof.
  intros Hy. rewrite length_app. simpl List.length.
  rewrite Nat2Z.inj_add, inject_Z_plus. change (inject_Z (Z.of_nat 1)) with 1.
  rewrite Hy. ring.
Qed.

Lemma placeWord_held (font : string) (seg : TextSegment) (st : WrapState)
      (word : string) :
  linesHeld st -> linesHeld (placeWord font seg st word).
Proof.
  intros Hst. pose proof Hst as (Hy & Hlines & Hcur).
  unfold RichText.placeWord. cbv zeta.
  destruct (JS.gt (line_width (currentLine st) + ctx font (word ++ " "))
                  (match getMaxWidthAtY with
                   | Some f => f (currentY st)
                   | None => width
                   end)) eqn:Hgt;
    destruct (0 <? List.length (segments (currentLine st)))%nat eqn:Hne; simpl.
  - split; [|split].
    + exact (cursor_after_push st Hy).
    + exact (held_after_push st Hst (nonEmpty_segments _ Hne)).
    + right. left. reflexivity.
  - split; [exact Hy|]. split; [exact Hlines|].
    right. left. destruct (segments (currentLine st)); [reflexivity | discriminate].
  - split; [exact Hy|]. split; [exact Hlines|].
    right. right. apply gt_false in Hgt. exact Hgt.
  - split; [exact Hy|]. split; [exact Hlines|].
    right. left. destruct (segments (currentLine st)); [reflexivity | discriminate].
Qed.

Lemma placeWords_held (font : string) (seg : TextSegment) (words : list string)
      (st : WrapState) :
  linesHeld st -> linesHeld (fold_left (placeWord font seg) words st).
Proof.
  revert st. induction words as [|w ws IH]; intros st Hst; [exact Hst|].
  simpl. apply IH. apply placeWord_held. exact Hst.
Qed.

Lemma wrapLoop_held (font : string) (segs : list TextSegment) (st st' : WrapState) :
  linesHeld st -> wrapLoop font segs st = Finished st' -> linesHeld st'.
Proof.
  revert st. induction segs as [|seg rest IH]; intros st Hst Hrun; simpl in Hrun.
  - injection Hrun as <-. exact Hst.
  - destruct (String.eqb (seg_text seg) newline); [discriminate|].
    exact (IH _ (placeWords_held font seg _ st Hst) Hrun).
Qed.

(** X22.  Line number [i] of the lines handed to the drawing step, counted
    from 0, has been held to the width available at [i] default font sizes
    below the top, whatever the heights of the lines above it: it is within
    that width, or it holds a single word. *)
Theorem laid_line_fits_or_is_one_word (font : string) (segs : list TextSegment)
        (ls : list TextLine) (i : nat) (l : TextLine) :
  wrapLines font segs = Laid ls ->
  nth_error ls i = Some l ->
  fitsOrSingle width getMaxWidthAtY (ts_fontSize defaultStyle) i l.
Proof.
  unfold RichText.wrapLines. intros Hlaid Hnth.
  destruct (wrapLoop font segs initialState) as [st|st] eqn:Hrun; [|discriminate].
  injection Hlaid as <-.
  assert (Hinit : linesHeld initialState).
  { split; [reflexivity|]. split; [|left; reflexivity].
    intros j l' Hj. destruct j; discriminate. }
  pose proof (wrapLoop_held font segs _ _ Hinit Hrun) as Hst.
  destruct (0 <? List.length (segments (currentLine st)))%nat eqn:Hne.
  - exact (held_after_push st Hst (nonEmpty_segments _ Hne) i l Hnth).
  - destruct Hst as (_ & Hlines & _). exact (Hlines i l Hnth).
Qed.

End MoreWrapping.

Section MoreWrappingExamples.
Import RichText Examples Notions MoreNotions MoreExamples.

Lemma drawRichText_layout_keeps_words_witness :
  noForcedBreak (parseRichText "Bonjour tout le monde" (plainStyle 10))
  /\ exists ls,
       drawRichText_layout plainHost halfEmCanvas noFontMap (plainStyle 10) 60 None
         "10px sans-serif" "Bonjour tout le monde" = Laid ls
       /\ wordsOfLines ls
          = wordsOfSegments (parseRichText "Bonjour tout le monde" (plainStyle 10)).
Proof.
  assert (Hno : noForcedBreak (parseRichText "Bonjour tout le monde" (plainStyle 10)))
    by (repeat constructor).
  split; [exact Hno|].
  exact (drawRichText_layout_keeps_words plainHost halfEmCanvas noFontMap
           (plainStyle 10) 60 None "10px sans-serif" "Bonjour tout le monde" Hno).
Defined.

Lemma laid_lines_are_consistent_witness :
  exists ls,
    wrapLines fiftyCanvas (plainStyle 10) 60 None "20px Comic Neue, Arial" [bigRun]
    = Laid ls
    /\ Forall (fun l => segments l <> [] /\ lineConsistent l) ls.
Proof.
  eexists. split; [vm_compute; reflexivity|].
  apply (laid_lines_are_consistent fiftyCanvas (plainStyle 10) 60 None
           "20px Comic Neue, Arial" [bigRun]).
  vm_compute. reflexivity.
Defined.

Lemma laid_line_fits_or_is_one_word_witness :
  exists ls l,
    wrapLines halfEmCanvas (plainStyle 10) 60 None "10px Comic Neue, Arial"
      [rawSegment "Bonjour tout le monde" (plainStyle 10)] = Laid ls
    /\ nth_error ls 1 = Some l
    /\ fitsOrSingle 60 None 10 1 l.
Proof.
  eexists. eexists. split; [vm_compute; reflexivity|].
  split; [vm_compute; reflexivity|].
  eapply (laid_line_fits_or_is_one_word halfEmCanvas (plainStyle 10) 60 None
           "10px Comic Neue, Arial"
           [rawSegment "Bonjour tout le monde" (plainStyle 10)] _ 1%nat).
  - vm_compute. reflexivity.
  - vm_compute. reflexivity.
Defined.

End MoreWrappingExamples.

(** ** The drawing step *)

Section MoreDrawing.
Import RichText RichTextDraw Examples Notions MoreNotions MoreExamples.

Variable host : Host.
Variable ctx : Canvas.
Variable fontMap : string -> option string.

Local Abbreviation drawSegments := (drawSegments host ctx fontMap).
Local Abbreviation drawLinesFrom := (drawLinesFrom host ctx fontMap).
Local Abbreviation drawLines := (drawLines host ctx fontMap).
Local Abbreviation drawRichText := (drawRichText host ctx fontMap).

Lemma textsOf_app (a b : list DrawOp) :
  textsOf (a ++ b) = (textsOf a ++ textsOf b)%list.
Proof. unfold textsOf. apply flat_map_app. Qed.

Lemma drawSegments_texts (baselineY currentX : Q) (segs : list TextSegment) :
  textsOf (fst (drawSegments baselineY currentX segs))
  = filter JS.truthy (map seg_text segs).
Proof.
  revert currentX. induction segs as [|seg rest IH]; intros currentX; [reflexivity|].
  simpl. unfold drawSegment.
  destruct (JS.truthy (seg_text seg)) eqn:Ht; simpl;
    match goal with
    | |- context [drawSegments baselineY ?cx rest] =>
        specialize (IH cx); destruct (drawSegments baselineY cx rest)
    end; simpl in *.
  - rewrite textsOf_app, IH.
    destruct (isUnderline (seg_style seg)), (isStrikethrough (seg_style seg));
      reflexivity.
  - exact IH.
Qed.

Lemma drawLinesFrom_texts (x width drawY : Q) (ls : list TextLine) :
  textsOf (drawLinesFrom x width drawY ls) = filter JS.truthy (wordsOfLines ls).
Proof.
  revert drawY. induction ls as [|l rest IH]; intros drawY; [reflexivity|].
  simpl. rewrite textsOf_app, IH. unfold drawLine. cbv zeta.
  rewrite drawSegments_texts, filter_app. reflexivity.
Qed.

(** X23.  When the markup has no forced break, [drawRichText] writes the
    words of the parsed segments, each once and in order, the empty words
    that white space at an end of a segment leaves being skipped. *)
Theorem drawRichText_writes_the_words (font0 html : string) (x y width height : Q)
        (defaultStyle : TextStyle) (getMaxWidthAtY : option (Q -> Q)) :
  noForcedBreak (parseRichText html defaultStyle) ->
  textsOf (drawRichText font0 html x y width height defaultStyle getMaxWidthAtY)
  = filter JS.truthy (wordsOfSegments (parseRichText html defaultStyle)).
Proof.
  intros Hno. unfold RichTextDraw.drawRichText.
  destruct (layout_without_break host ctx fontMap defaultStyle width
              getMaxWidthAtY font0 html Hno) as (ls & Hls & Hwords).
  rewrite Hls, <- Hwords. apply drawLinesFrom_texts.
Qed.

Lemma In_newline_texts (segs : list TextSegment) (font : string) :
  In newline (map seg_text segs) ->
  In newline (map seg_text (fst (measureSegments host ctx fontMap font segs))).
Proof. rewrite measureSegments_texts. exact (fun H => H). Qed.

Lemma wrapLoop_returns (defaultStyle : TextStyle) (width : Q)
      (getMaxWidthAtY : option (Q -> Q)) (font : string) (segs : list TextSegment) :
  In newline (map seg_text segs) ->
  forall st, exists st',
    wrapLoop ctx defaultStyle width getMaxWidthAtY font segs st = Returned st'.
Proof.
  induction segs as [|seg rest IH]; intros Hin st; [destruct Hin|].
  simpl. destruct (String.eqb (seg_text seg) newline) eqn:Hseg.
  - eexists. reflexivity.
  - apply IH. destruct Hin as [Heq|Hin]; [|exact Hin].
    simpl in Heq. rewrite Heq, String.eqb_refl in Hseg. discriminate.
Qed.

Lemma parseLines_break (a b : string) (rest : list string) (defaultStyle : TextStyle) :
  In newline (map seg_text (parseLines (a :: b :: rest) defaultStyle)).
Proof.
  cbn [parseLines]. rewrite !map_app. apply in_or_app. right.
  apply in_or_app. left. left. reflexivity.
Qed.

(** X24.  A markup that holds a line break tag draws nothing at all:
    [split] then gives more than one piece, a forced break follows the
    first, and the wrapping loop leaves the function there. *)
Theorem drawRichText_with_break_draws_nothing (font0 html : string)
        (x y width height : Q) (defaultStyle : TextStyle)
        (getMaxWidthAtY : option (Q -> Q)) :
  (1 < List.length (JS.splitBr html))%nat ->
  drawRichText font0 html x y width height defaultStyle getMaxWidthAtY = [].
Proof.
  intros Hlen. unfold RichTextDraw.drawRichText, drawRichText_layout, parseRichText.
  destruct (JS.splitBr html) as [|a [|b rest]]; simpl in Hlen; try lia.
  pose proof (In_newline_texts _ font0 (parseLines_break a b rest defaultStyle)) as Hin.
  destruct (measureSegments host ctx fontMap font0
              (parseLines (a :: b :: rest) defaultStyle)) as (segs, font).
  simpl in Hin. unfold wrapLines.
  destruct (wrapLoop_returns defaultStyle width getMaxWidthAtY font segs Hin
              initialState) as (st' & Hrun).
  rewrite Hrun. reflexivity.
Qed.

(** *** Nothing is drawn left of the rectangle *)

Hypothesis ctx_nonneg : forall font s : string, 0 <= ctx font s.

Lemma placeWord_nonneg (defaultStyle : TextStyle) (width : Q)
      (getMaxWidthAtY : option (Q -> Q)) (font : string) (seg : TextSegment)
      (st : WrapState) (word : string) :
  stateNonNegative st ->
  stateNonNegative (placeWord ctx defaultStyle width getMaxWidthAtY font seg st word).
Proof.
  intros (Hlines & Hcur). unfold placeWord. cbv zeta.
  destruct (JS.gt _ _ && (0 <? List.length (segments (currentLine st)))%nat);
    split; simpl.
  - apply Forall_app. split; [exact Hlines | constructor; [exact Hcur | constructor]].
  - constructor; [apply ctx_nonneg | constructor].
  - exact Hlines.
  - apply Forall_app. split; [exact Hcur|].
    constructor; [apply ctx_nonneg | constructor].
Qed.

Lemma wrapLoop_nonneg (defaultStyle : TextStyle) (width : Q)
      (getMaxWidthAtY : option (Q -> Q)) (font : string) (segs : list TextSegment)
      (st st' : WrapState) :
  stateNonNegative st ->
  wrapLoop ctx defaultStyle width getMaxWidthAtY font segs st = Finished st' ->
  stateNonNegative st'.
Proof.
  revert st. induction segs as [|seg rest IH]; intros st Hst Hrun; simpl in Hrun.
  - injection Hrun as <-. exact Hst.
  - destruct (String.eqb (seg_text seg) newline); [discriminate|].
    refine (IH _ _ Hrun). clear Hrun.
    generalize (JS.splitWs (seg_text seg)). intros words. revert st Hst.
    induction words as [|w ws IHw]; intros st Hst; [exact Hst|].
    simpl. apply IHw. apply placeWord_nonneg. exact Hst.
Qed.

Lemma wrapLines_nonneg (defaultStyle : TextStyle) (width : Q)
      (getMaxWidthAtY : option (Q -> Q)) (font : string) (segs : list TextSegment)
      (ls : list TextLine) :
  wrapLines ctx defaultStyle width getMaxWidthAtY font segs = Laid ls ->
  Forall widthsNonNegative ls.
Proof.
  unfold wrapLines. intros Hlaid.
  destruct (wrapLoop ctx defaultStyle width getMaxWidthAtY font segs initialState)
    as [st|st] eqn:Hrun; [|discriminate].
  injection Hlaid as <-.
  assert (Hinit : stateNonNegative initialState) by (split; constructor).
  destruct (wrapLoop_nonneg _ _ _ _ _ _ _ Hinit Hrun) as (Hlines & Hcur).
  destruct (0 <? List.length (segments (currentLine st)))%nat; [|exact Hlines].
  apply Forall_app. split; [exact Hlines | constructor; [exact Hcur | constructor]].
Qed.

Lemma drawSegments_notLeftOf (x baselineY currentX : Q) (segs : list TextSegment) :
  x <= currentX ->
  Forall (fun seg => 0 <= seg_width seg) segs ->
  Forall (notLeftOf x) (fst (drawSegments baselineY currentX segs)).
Proof.
  intros Hx Hsegs. revert currentX Hx.
  induction Hsegs as [|seg rest Hseg Hrest IH]; intros currentX Hx; [constructor|].
  simpl. unfold drawSegment.
  destruct (JS.truthy (seg_text seg)); simpl.
  - assert (Hx' : x <= currentX + seg_width seg) by lra.
    specialize (IH _ Hx').
    destruct (drawSegments baselineY (currentX + seg_width seg) rest). simpl in *.
    pose proof (ctx_nonneg (fontString host fontMap (seg_style seg)) (seg_text seg))
      as Hw.
    constructor; [exact Hx|].
    apply Forall_app. split; [apply Forall_app; split | exact IH].
    + destruct (isUnderline (seg_style seg)); constructor; [|constructor].
      simpl. split; lra.
    + destruct (isStrikethrough (seg_style seg)); constructor; [|constructor].
      simpl. split; lra.
  - specialize (IH _ Hx).
    destruct (drawSegments baselineY currentX rest). exact IH.
Qed.

Lemma drawLinesFrom_notLeftOf (x width drawY : Q) (ls : list TextLine) :
  Forall widthsNonNegative ls ->
  Forall (notLeftOf x) (drawLinesFrom x width drawY ls).
Proof.
  intros Hls. revert drawY.
  induction Hls as [|l rest Hl Hrest IH]; intros drawY; [constructor|].
  simpl. apply Forall_app. split; [|apply IH].
  unfold drawLine. cbv zeta. apply drawSegments_notLeftOf; [|exact Hl].
  unfold lineStartX. apply Q.le_max_l.
Qed.

(** X25.  On a canvas that measures no text negative, [drawRichText] draws
    nothing left of the abscissa [x] of its rectangle, however wide the
    lines are: no text starts left of it, and no underline or strike
    reaches left of it. *)
Theorem drawRichText_never_left_of_rectangle (font0 html : string)
        (x y width height : Q) (defaultStyle : TextStyle)
        (getMaxWidthAtY : option (Q -> Q)) :
  Forall (notLeftOf x)
         (drawRichText font0 html x y width height defaultStyle getMaxWidthAtY).
Proof.
  unfold RichTextDraw.drawRichText, drawRichText_layout.
  destruct (measureSegments host ctx fontMap font0 (parseRichText html defaultStyle))
    as (segs, font).
  destruct (wrapLines ctx defaultStyle width getMaxWidthAtY font segs) as [ls|st] eqn:Hlaid;
    [|constructor].
  apply drawLinesFrom_notLeftOf. exact (wrapLines_nonneg _ _ _ _ _ _ Hlaid).
Qed.

End MoreDrawing.

Section MoreDrawingExamples.
Import RichText RichTextDraw Examples Notions MoreNotions MoreExamples.

Lemma drawRichText_writes_the_words_witness :
  noForcedBreak (parseRichText "Bonjour tout le monde" (plainStyle 10))
  /\ textsOf (drawRichText plainHost halfEmCanvas noFontMap "10px sans-serif"
                "Bonjour tout le monde" 10 10 60 80 (plainStyle 10) None)
     = filter JS.truthy
         (wordsOfSegments (parseRichText "Bonjour tout le monde" (plainStyle 10))).
Proof.
  assert (Hno : noForcedBreak (parseRichText "Bonjour tout le monde" (plainStyle 10)))
    by (repeat constructor).
  split; [exact Hno|].
  exact (drawRichText_writes_the_words plainHost halfEmCanvas noFontMap
           "10px sans-serif" "Bonjour tout le monde" 10 10 60 80 (plainStyle 10)
           None Hno).
Defined.

Lemma drawRichText_with_break_draws_nothing_witness :
  (1 < List.length (JS.splitBr "a<br>b"))%nat
  /\ drawRichText plainHost fiftyCanvas noFontMap "10px sans-serif" "a<br>b"
       10 10 60 80 (plainStyle 10) None = [].
Proof.
  assert (Hlen : (1 < List.length (JS.splitBr "a<br>b"))%nat) by (vm_compute; lia).
  split; [exact Hlen|].
  exact (drawRichText_with_break_draws_nothing plainHost fiftyCanvas noFontMap
           "10px sans-serif" "a<br>b" 10 10 60 80 (plainStyle 10) None Hlen).
Defined.

Lemma fiftyCanvas_nonneg (font s : string) : 0 <= fiftyCanvas font s.
Proof. unfold fiftyCanvas. lra. Qed.

Lemma drawRichText_never_left_of_rectangle_witness :
  (forall font s : string, 0 <= fiftyCanvas font s)
  /\ Forall (notLeftOf 10)
       (drawRichText plainHost fiftyCanvas noFontMap "10px sans-serif" "a b c"
          10 10 60 80 (plainStyle 10) None).
Proof.
  split; [exact fiftyCanvas_nonneg|].
  exact (drawRichText_never_left_of_rectangle plainHost fiftyCanvas noFontMap
           fiftyCanvas_nonneg "10px sans-serif" "a b c" 10 10 60 80 (plainStyle 10)
           None).
Defined.

End MoreDrawingExamples.

(** ** BubbleItem: moving, resizing, and leaving the text editor *)

Section MoreHandlers.
Import BubbleItem TextAutoFit Examples Notions MoreNotions MoreExamples.

Variable MIN_BUBBLE_WIDTH : Q.
Variable MIN_BUBBLE_HEIGHT : Q.

Local Abbreviation handleMouseMove := (handleMouseMove MIN_BUBBLE_WIDTH MIN_BUBBLE_HEIGHT).

(** X26.  However far the pointer goes, and whichever handle is held, a
    resize never makes the bubble smaller than the minimum dimensions. *)
Theorem resize_keeps_minimum_size (interaction : Interaction) (bubble : Bubble)
        (clientX clientY : Q) :
  mode interaction = ModeResize ->
  MIN_BUBBLE_WIDTH <= width (handleMouseMove interaction bubble clientX clientY)
  /\ MIN_BUBBLE_HEIGHT <= height (handleMouseMove interaction bubble clientX clientY).
Proof.
  intros Hmode. unfold BubbleItem.handleMouseMove. rewrite Hmode. cbv zeta.
  unfold withGeometry. simpl. split; apply Q.le_max_l.
Qed.

(** X27.  With whole pixel coordinates, resizing by a handle of the left
    side keeps the right edge of the bubble where it was exactly as long as
    the minimum width is not reached: beyond that the width stays at the
    minimum while [x] still follows the pointer, and the whole bubble is
    pushed to the right. *)
Theorem resize_from_left_keeps_right_edge_until_minimum
        (interaction : Interaction) (bubble : Bubble) (clientX clientY : Q) :
  wholeResize MIN_BUBBLE_WIDTH interaction clientX = true ->
  mode interaction = ModeResize ->
  handleIncludes (activeHandle interaction) "l" = true ->
  let bubble' := handleMouseMove interaction bubble clientX clientY in
  x bubble' + width bubble'
  == initialBubbleX interaction + initialBubbleWidth interaction
  <-> MIN_BUBBLE_WIDTH
      <= initialBubbleWidth interaction - (clientX - startX interaction).
Proof.
  intros _ Hmode Hl. cbv zeta. unfold BubbleItem.handleMouseMove. rewrite Hmode.
  cbv zeta. rewrite Hl.
  assert (Hr : handleIncludes (activeHandle interaction) "r" = false)
    by (destruct (activeHandle interaction); try discriminate; reflexivity).
  rewrite Hr. unfold withGeometry. cbn [x width].
  set (dx := clientX - startX interaction).
  destruct (Qlt_le_dec (initialBubbleWidth interaction + - dx) MIN_BUBBLE_WIDTH)
    as [Hsmall|Hlarge].
  - rewrite (Q.max_l MIN_BUBBLE_WIDTH (initialBubbleWidth interaction + - dx))
      by (apply Qlt_le_weak; exact Hsmall).
    split; intros H; lra.
  - rewrite (Q.max_r MIN_BUBBLE_WIDTH (initialBubbleWidth interaction + - dx))
      by exact Hlarge.
    split; intros H; lra.
Qed.

(** X28.  A pointer move while a tail tip, a tail base or a thought dot is
    being dragged changes nothing: [handleMouseMove] has a branch for the
    modes move and resize only, and hands the bubble back as it is in
    every other mode. *)
Theorem pointer_move_in_other_modes_changes_nothing
        (interaction : Interaction) (bubble : Bubble) (clientX clientY : Q) :
  mode interaction <> ModeMove ->
  mode interaction <> ModeResize ->
  handleMouseMove interaction bubble clientX clientY = bubble.
Proof.
  intros Hmove Hresize. unfold BubbleItem.handleMouseMove.
  destruct (mode interaction); try contradiction; destruct bubble; reflexivity.
Qed.

End MoreHandlers.

Section MoreTextBlur.
Import BubbleItem TextAutoFit Examples Notions MoreNotions MoreExamples.

(** X29.  Leaving the text editor never stores a blank text or a lone line
    break tag: when the bubble is updated, it is the same bubble with a new
    text, and that text has a character that is not white space and is not
    the tag alone. *)
Theorem handleTextBlur_never_stores_blank_text (bubble bubble' : Bubble)
        (innerHTML : option string) :
  handleTextBlur bubble innerHTML = Some bubble' ->
  bubble' = withText bubble (text bubble')
  /\ JS.trimTruthy (text bubble') = true
  /\ text bubble' <> "<br>".
Proof.
  unfold handleTextBlur. cbv zeta.
  set (currentHTML := match innerHTML with Some s => s | None => "" end).
  destruct (negb (String.eqb currentHTML (text bubble))); [|discriminate].
  intros Hsome. injection Hsome as <-. split; [reflexivity|].
  cbn [text withText].
  destruct (JS.trimTruthy currentHTML) eqn:Hink;
    destruct (String.eqb currentHTML "<br>") eqn:Hbr; simpl;
    try (split; [reflexivity | discriminate]).
  split; [exact Hink|]. apply String.eqb_neq. exact Hbr.
Qed.

(** X30.  A text left blank, or holding a lone line break tag, is replaced
    by the placeholder, and [autoFitBubbleText] then returns the bubble it
    is given, whatever the canvas says. *)
Theorem blank_text_becomes_placeholder_skipped_by_autofit
        (host : Host) (getContext : option Canvas)
        (bubble : Bubble) (html fontFamily : string) :
  JS.trimTruthy html = false \/ html = "<br>" ->
  String.eqb html (text bubble) = false ->
  exists bubble',
    handleTextBlur bubble (Some html) = Some bubble'
    /\ text bubble' = "Votre texte ici"
    /\ forall (sigma : Store) (r : Ref),
         deref sigma r = Some bubble' ->
         autoFitBubbleText host getContext sigma r fontFamily = Some (sigma, r).
Proof.
  intros Hblank Hnew. unfold handleTextBlur. cbv zeta. rewrite Hnew. cbn [negb].
  assert (Htext : (if JS.trimTruthy html && negb (String.eqb html "<br>")
                   then html else "Votre texte ici") = "Votre texte ici").
  { destruct Hblank as [Hink | ->]; [rewrite Hink; reflexivity|].
    rewrite String.eqb_refl, andb_false_r. reflexivity. }
  rewrite Htext. eexists. split; [reflexivity|]. split; [reflexivity|].
  intros sigma r Hr. unfold TextAutoFit.autoFitBubbleText. rewrite Hr.
  unfold skipsAutoFit. cbn [text withText]. rewrite String.eqb_refl, orb_true_r.
  reflexivity.
Qed.

End MoreTextBlur.

Section MoreHandlersExamples.
Import BubbleItem TextAutoFit Examples Notions MoreNotions MoreExamples.

Lemma resize_keeps_minimum_size_witness :
  mode resizeLeft = ModeResize
  /\ 50 <= width (handleMouseMove 50 30 resizeLeft exampleBubble 480 200)
  /\ 30 <= height (handleMouseMove 50 30 resizeLeft exampleBubble 480 200).
Proof.
  split; [reflexivity|].
  exact (resize_keeps_minimum_size 50 30 resizeLeft exampleBubble 480 200 eq_refl).
Defined.

Lemma resize_from_left_keeps_right_edge_until_minimum_witness :
  wholeResize 50 resizeLeft 480 = true
  /\ mode resizeLeft = ModeResize
  /\ handleIncludes (activeHandle resizeLeft) "l" = true
  /\ (x (handleMouseMove 50 30 resizeLeft exampleBubble 480 200)
      + width (handleMouseMove 50 30 resizeLeft exampleBubble 480 200)
      == initialBubbleX resizeLeft + initialBubbleWidth resizeLeft
      <-> 50 <= initialBubbleWidth resizeLeft - (480 - startX resizeLeft)).
Proof.
  split; [reflexivity|]. split; [reflexivity|]. split; [reflexivity|].
  exact (resize_from_left_keeps_right_edge_until_minimum 50 30 resizeLeft
           exampleBubble 480 200 eq_refl eq_refl eq_refl).
Defined.

(** The pointer 180 to the right of where the left handle was taken: the
    width stops at the minimum and the right edge has moved from 300 to
    330. *)
Example resize_from_left_pushes_the_bubble :
  let bubble' := handleMouseMove 50 30 resizeLeft exampleBubble 480 200 in
  x bubble' == 280 /\ width bubble' == 50.
Proof. cbv zeta. split; reflexivity. Qed.

Lemma pointer_move_in_other_modes_changes_nothing_witness :
  mode dragTailTip <> ModeMove
  /\ mode dragTailTip <> ModeResize
  /\ handleMouseMove 50 30 dragTailTip exampleBubble 320 260 = exampleBubble.
Proof.
  assert (Hmove : mode dragTailTip <> ModeMove) by discriminate.
  assert (Hresize : mode dragTailTip <> ModeResize) by discriminate.
  split; [exact Hmove|]. split; [exact Hresize|].
  exact (pointer_move_in_other_modes_changes_nothing 50 30 dragTailTip exampleBubble
           320 260 Hmove Hresize).
Defined.

Lemma handleTextBlur_never_stores_blank_text_witness :
  handleTextBlur exampleBubble (Some "   ")
  = Some (withText exampleBubble "Votre texte ici")
  /\ withText exampleBubble "Votre texte ici"
     = withText exampleBubble (text (withText exampleBubble "Votre texte ici"))
  /\ JS.trimTruthy (text (withText exampleBubble "Votre texte ici")) = true
  /\ text (withText exampleBubble "Votre texte ici") <> "<br>".
Proof.
  split; [reflexivity|].
  exact (handleTextBlur_never_stores_blank_text exampleBubble
           (withText exampleBubble "Votre texte ici") (Some "   ") eq_refl).
Defined.

Lemma blank_text_becomes_placeholder_skipped_by_autofit_witness :
  (JS.trimTruthy "<br>" = false \/ "<br>" = "<br>")
  /\ String.eqb "<br>" (text exampleBubble) = false
  /\ exists bubble',
       handleTextBlur exampleBubble (Some "<br>") = Some bubble'
       /\ text bubble' = "Votre texte ici"
       /\ forall (sigma : Store) (r : Ref),
            deref sigma r = Some bubble' ->
            autoFitBubbleText plainHost (Some halfEmCanvas) sigma r "Comic Neue"
            = Some (sigma, r).
Proof.
  split; [right; reflexivity|]. split; [reflexivity|].
  exact (blank_text_becomes_placeholder_skipped_by_autofit plainHost
           (Some halfEmCanvas) exampleBubble "<br>" "Comic Neue"
           (or_intror eq_refl) eq_refl).
Defined.

End MoreHandlersExamples.

(** ** The cursor of the wrapping loop *)

Section CursorAdvance.
Import RichText Examples Notions.

Variable host : Host.
Variable ctx : Canvas.
Variable fontMap : string -> option string.
Variable defaultStyle : TextStyle.
Variable width : Q.
Variable getMaxWidthAtY : option (Q -> Q).

Local Abbreviation placeWord := (placeWord ctx defaultStyle width getMaxWidthAtY).
Local Abbreviation wordTurns := (wordTurns ctx defaultStyle width getMaxWidthAtY).
Local Abbreviation loopTurns := (loopTurns ctx defaultStyle width getMaxWidthAtY).
Local Abbreviation measuredDefault := (measuredDefault defaultStyle).
Local Abbreviation uniformLine := (uniformLine defaultStyle).

(** The loop only receives segments of [parseRichText] that went through
    the measuring pass: all carry the default style, and their height is
    the default font size. *)
Lemma measureSegments_default (font : string) (segs : list TextSegment) :
  Forall (fun seg => JS.truthy (seg_text seg) = true
                     /\ seg_style seg = defaultStyle
                     /\ seg_width seg = 0 /\ seg_height seg = 0) segs ->
  Forall measuredDefault (fst (measureSegments host ctx fontMap font segs)).
Proof.
  intros Hsegs. revert font.
  induction Hsegs as [|seg rest (Ht & Hs & _) Hrest IH]; intros font; [constructor|].
  simpl. unfold measureSegment. rewrite Ht. cbn [negb].
  match goal with
  | |- context [measureSegments host ctx fontMap ?f rest] =>
      specialize (IH f); destruct (measureSegments host ctx fontMap f rest)
  end.
  simpl in *. constructor; [|exact IH].
  split; simpl; [exact Hs | rewrite Hs; reflexivity].
Qed.

(** The turns are those of the loop: replaying them from the state at
    which the loop starts gives the state at which it ends. *)
Lemma wordTurns_run (font : string) (seg : TextSegment) (words : list string)
      (st st0 : WrapState) :
  fold_left (fun _ turn => placeWord font (snd (fst turn)) (fst (fst turn)) (snd turn))
            (wordTurns font seg words st) st0
  = match words with
    | [] => st0
    | _ :: _ => fold_left (placeWord font seg) words st
    end.
Proof.
  revert st st0. induction words as [|w ws IH]; intros st st0; [reflexivity|].
  simpl. rewrite IH. destruct ws; reflexivity.
Qed.

Lemma loopTurns_run (font : string) (segs : list TextSegment) (st st' : WrapState) :
  wrapLoop ctx defaultStyle width getMaxWidthAtY font segs st = Finished st' ->
  forall st0,
    fold_left (fun _ turn => placeWord font (snd (fst turn)) (fst (fst turn)) (snd turn))
              (loopTurns font segs st) st0
    = match loopTurns font segs st with [] => st0 | _ :: _ => st' end.
Proof.
  revert st. induction segs as [|seg rest IH]; intros st Hrun st0; simpl in *.
  - reflexivity.
  - destruct (String.eqb (seg_text seg) newline); [discriminate|].
    rewrite fold_left_app, wordTurns_run.
    specialize (IH _ Hrun).
    destruct (JS.splitWs (seg_text seg)) as [|w ws] eqn:Hwords.
    + simpl in *. apply IH.
    + rewrite IH. cbn [wordTurns app].
      destruct (loopTurns font rest (fold_left (placeWord font seg) (w :: ws) st))
        eqn:Hrest.
      * assert (Hst' : st' = fold_left (placeWord font seg) (w :: ws) st).
        { clear IH. revert Hrun Hrest.
          generalize (fold_left (placeWord font seg) (w :: ws) st). intros st1.
          revert st1. induction rest as [|seg' rest' IHr]; intros st1 Hrun Hrest.
          - simpl in Hrun. injection Hrun as <-. reflexivity.
          - simpl in Hrun, Hrest.
            destruct (String.eqb (seg_text seg') newline); [discriminate|].
            apply app_eq_nil in Hrest. destruct Hrest as (Hw & Hrest).
            destruct (JS.splitWs (seg_text seg')); [|discriminate Hw].
            simpl in *. exact (IHr _ Hrun Hrest). }
        symmetry. exact Hst'.
      * reflexivity.
Qed.

Hypothesis size_nonneg : 0 <= ts_fontSize defaultStyle.

Lemma placeWord_uniform (font : string) (seg : TextSegment) (st : WrapState)
      (word : string) :
  measuredDefault seg ->
  uniformLine (currentLine st) ->
  uniformLine (currentLine (placeWord font seg st word)).
Proof.
  intros (Hstyle & Hheight) Hcur. unfold RichText.placeWord. cbv zeta.
  assert (Hcur' : uniformLine
            (currentLine
               (if JS.gt (line_width (currentLine st) + ctx font (word ++ " "))
                         (match getMaxWidthAtY with
                          | Some f => f (currentY st)
                          | None => width
                          end)
                   && (0 <? List.length (segments (currentLine st)))%nat
                then closeLine defaultStyle st else st))).
  { destruct (JS.gt _ _ && _); [|exact Hcur].
    split; [constructor | left; split; reflexivity]. }
  revert Hcur'.
  generalize (if JS.gt (line_width (currentLine st) + ctx font (word ++ " "))
                       (match getMaxWidthAtY with
                        | Some f => f (currentY st)
                        | None => width
                        end)
                 && (0 <? List.length (segments (currentLine st)))%nat
              then closeLine defaultStyle st else st).
  intros st1 (Hall & Hh). split; simpl.
  - apply Forall_app. split; [exact Hall|]. constructor; [exact Hstyle | constructor].
  - right. rewrite Hheight. apply Q.max_r.
    destruct Hh as [(_ & Hzero) | Hfull]; [rewrite Hzero; exact size_nonneg|].
    rewrite Hfull. apply Qle_refl.
Qed.

Lemma placeWords_uniform (font : string) (seg : TextSegment) (words : list string)
      (st : WrapState) :
  measuredDefault seg ->
  uniformLine (currentLine st) ->
  uniformLine (currentLine (fold_left (placeWord font seg) words st)).
Proof.
  intros Hseg. revert st. induction words as [|w ws IH]; intros st Hst; [exact Hst|].
  simpl. apply IH. apply placeWord_uniform; assumption.
Qed.

Lemma wordTurns_uniform (font : string) (seg : TextSegment) (words : list string)
      (st : WrapState) :
  measuredDefault seg ->
  uniformLine (currentLine st) ->
  Forall (fun turn => uniformLine (currentLine (fst (fst turn))))
         (wordTurns font seg words st).
Proof.
  intros Hseg. revert st. induction words as [|w ws IH]; intros st Hst; simpl;
    constructor; [exact Hst|].
  apply IH. apply placeWord_uniform; assumption.
Qed.

Lemma loopTurns_uniform (font : string) (segs : list TextSegment) (st : WrapState) :
  Forall measuredDefault segs ->
  uniformLine (currentLine st) ->
  Forall (fun turn => uniformLine (currentLine (fst (fst turn))))
         (loopTurns font segs st).
Proof.
  intros Hsegs. revert st.
  induction Hsegs as [|seg rest Hseg Hrest IH]; intros st Hst; simpl; [constructor|].
  destruct (String.eqb (seg_text seg) newline); [constructor|].
  apply Forall_app. split.
  - apply wordTurns_uniform; assumption.
  - apply IH. apply placeWords_uniform; assumption.
Qed.

Lemma maxRunFontSize_uniform (segs : list TextSegment) :
  Forall (fun seg => seg_style seg = defaultStyle) segs ->
  segs <> [] ->
  maxRunFontSize segs == ts_fontSize defaultStyle.
Proof.
  unfold maxRunFontSize. intros Hall Hne.
  assert (H : forall acc, acc <= ts_fontSize defaultStyle ->
              fold_left (fun a seg => Qmax a (ts_fontSize (seg_style seg))) segs acc
              == match segs with [] => acc | _ :: _ => ts_fontSize defaultStyle end).
  { clear Hne. induction Hall as [|seg rest Hseg Hrest IH]; intros acc Hacc.
    - reflexivity.
    - simpl. rewrite Hseg.
      assert (Hmax : Qmax acc (ts_fontSize defaultStyle) == ts_fontSize defaultStyle)
        by (apply Q.max_r; exact Hacc).
      rewrite (IH (Qmax acc (ts_fontSize defaultStyle)))
        by (rewrite Hmax; apply Qle_refl).
      destruct rest; [exact Hmax | reflexivity]. }
  rewrite (H 0 size_nonneg). destruct segs; [contradiction | reflexivity].
Qed.


End CursorAdvance.

Section CursorAdvanceExample.
Import RichText Examples Notions MoreExamples.


End CursorAdvanceExample.
